(** * NineChronicles.EthBridge: the bridge core, embedded and verified

    The development follows the TypeScript sources:
    - [ncg-kms-transfer.ts], class [NCGKMSTransfer]: [Module Transfer], and
      [Module Mutex] for the interleavings of concurrent calls;
    - [wrapped-ncg-minter.ts], class [WrappedNCGMinter]: [Module Minter];
    - [monitors/triggerable-monitor.ts], [TriggerableMonitor.loop]:
      [Module Monitor];
    - [index.ts], the wiring and [process.on("uncaughtException")]:
      [Module Index], and its startup: [Module Startup];
    - [pages/swap-wncg.tsx], the amount and the recipient of a burn:
      [Module SwapPage];
    - decimal.js, as far as the code above calls it: [Module Decimal]. Its
      arithmetic is written out; its constructor is a parameter wherever
      the string comes from a user ([Module Transfer], [Module SwapPage]),
      and [Decimal.parse] reads the decimal literals;
    - [policies/gas-price.ts], which index.ts imports and which is not among
      the sources: [Module GasPrice].

    A promise is embedded by its outcome ([Resolved] or [Rejected]); console
    output and calls to collaborators are recorded in traces. The
    definitions come first, the properties after them. *)

From Stdlib Require Import ZArith QArith Qround Qminmax List String Ascii Bool Lia Arith.
From Stdlib Require Import Qpower Permutation DecimalString.
Import ListNotations.

Local Open Scope Z_scope.
Local Set Warnings "-register-all".

(** ** Outcomes of fallible JavaScript computations *)

Inductive JSError : Type :=
| TypeError (msg : string)
| DecimalError (msg : string)
| PlainError (msg : string)          (* [new Error(msg)] *)
| External (tag : string).           (* an error raised by a collaborator *)

(** A settled promise, or the result of a call that may throw. *)
Inductive outcome (A : Type) : Type :=
| Resolved (a : A)
| Rejected (e : JSError).
Arguments Resolved {A} a.
Arguments Rejected {A} e.

Definition bind {A B} (m : outcome A) (k : A -> outcome B) : outcome B :=
  match m with
  | Resolved a => k a
  | Rejected e => Rejected e
  end.

(** ** decimal.js, restricted to what the bridge calls *)

Module Decimal.

(** A finite Decimal is [coef * 10 ^ exp]. decimal.js keeps the
    coefficient without trailing zeros; [normalise] does the same. *)
Record t : Type := mk { coef : Z; exp : Z }.

(** Default configuration of decimal.js ([Decimal.precision],
    [Decimal.rounding = ROUND_HALF_UP]); the bridge only ever changes
    [toExpPos]. *)
Definition precision : Z := 20.

Fixpoint strip_zeros (fuel : nat) (c e : Z) : t :=
  match fuel with
  | O => mk c e
  | S fuel' =>
      if (c =? 0) then mk 0 0
      else if (c mod 10 =? 0) then strip_zeros fuel' (c / 10) (e + 1)
      else mk c e
  end.

Definition normalise (d : t) : t :=
  strip_zeros (S (Z.to_nat (Z.log2 (Z.abs (coef d))))) (coef d) (exp d).

(** Number of decimal digits of [|n|] (0 for 0). *)
Fixpoint digits_aux (fuel : nat) (n : Z) : Z :=
  match fuel with
  | O => 0
  | S fuel' => if n =? 0 then 0 else 1 + digits_aux fuel' (n / 10)
  end.

Definition num_digits (n : Z) : Z :=
  digits_aux (S (Z.to_nat (Z.log2 (Z.abs n)))) (Z.abs n).

(** Significant digits of a Decimal ([Decimal.prototype.precision()]). *)
Definition sd (d : t) : Z := num_digits (coef (normalise d)).

(** [finalise(x, sd, ROUND_HALF_UP)]: round to [p] significant digits,
    ties away from zero. *)
Definition finalise (p : Z) (d : t) : t :=
  let n := num_digits (coef d) in
  if n <=? p then d
  else
    let drop := n - p in
    let unit := 10 ^ drop in
    let a := Z.abs (coef d) in
    let q := (2 * a + unit) / (2 * unit) in
    normalise (mk (Z.sgn (coef d) * q) (exp d + drop)).

(** [x.mul(y)]: exact product, then rounded to [precision] digits. *)
Definition mul (x y : t) : t :=
  finalise precision (normalise (mk (coef x * coef y) (exp x + exp y))).

(** [x.floor()]: the integer it denotes (round towards -Infinity). *)
Definition floor (d : t) : Z :=
  if 0 <=? exp d then coef d * 10 ^ exp d
  else coef d / 10 ^ (- exp d).

Definition is_integer (d : t) : bool :=
  if 0 <=? exp d then true else coef d mod 10 ^ (- exp d) =? 0.

(** [new Decimal(n)] for a JavaScript integer [n]. *)
Definition of_Z (n : Z) : t := normalise (mk n 0).

(** The rational number a Decimal denotes (used in statements only). *)
Definition to_Q (d : t) : Q :=
  if 0 <=? exp d then inject_Z (coef d * 10 ^ exp d)
  else Qmake (coef d) (Z.to_pos (10 ^ (- exp d))).

(** *** Values that are not finite, and the exponent range

    A Decimal is finite, [Infinity], [-Infinity] or [NaN]. The library
    keeps the exponent of the leading digit of a finite value between
    [minE = -9e15] and [maxE = 9e15]: what it constructs or computes above
    that range is [Infinity], below it zero. The sign of a zero is not
    kept here. *)
Inductive value : Type :=
| Fin (d : t)
| Inf (negative : bool)
| NaN.

Definition maxE : Z := 9 * 10 ^ 15.

(** The exponent of the leading digit ([x.e]). *)
Definition sci_exp (d : t) : Z := num_digits (coef d) + exp d - 1.

Definition clamp (d : t) : value :=
  if coef d =? 0 then Fin d
  else if maxE <? sci_exp d then Inf (coef d <? 0)
  else if sci_exp d <? - maxE then Fin (mk 0 0)
  else Fin d.

(** A finite value as the library holds it: zero, or the exponent of its
    leading digit is within the range. *)
Definition representable (d : t) : Prop :=
  coef d = 0 \/ (- maxE <= sci_exp (normalise d) <= maxE).

(** [x.times(y)] on any two values: [NaN] when one of them is [NaN] or
    when a zero meets an infinity, an infinity with the sign of the product
    when one of them is infinite, else the rounded product, kept in
    range. *)
Definition times (x y : value) : value :=
  match x, y with
  | NaN, _ | _, NaN => NaN
  | Inf a, Inf b => Inf (xorb a b)
  | Inf a, Fin d | Fin d, Inf a =>
      if coef d =? 0 then NaN else Inf (xorb a (coef d <? 0))
  | Fin a, Fin b => clamp (mul a b)
  end.

(** [x.floor()] on any value: an infinity and [NaN] are returned as they
    are. *)
Definition floor_value (x : value) : value :=
  match x with
  | Fin d => Fin (of_Z (floor d))
  | _ => x
  end.

(** *** Decimal literals

    The strings of the library's [isDecimal] pattern: an optional sign,
    then digits with an optional dot and fraction digits, or a dot followed
    by at least one digit, then an optional exponent part ([e] or [E], an
    optional sign, digits); and [Infinity] and [NaN]. [parse] reads these
    as the constructor does. What else the constructor reads (the [0x],
    [0b] and [0o] literals, digit separators) is no decimal literal:
    [parse] gives [None] for it, as for the strings on which the
    constructor throws. *)

Definition digit_of (c : ascii) : option Z :=
  let n := Z.of_nat (nat_of_ascii c) in
  if andb (48 <=? n) (n <=? 57) then Some (n - 48) else None.

Fixpoint digits_value (acc : Z) (s : string) : option Z :=
  match s with
  | EmptyString => Some acc
  | String c s' =>
      match digit_of c with
      | Some d => digits_value (10 * acc + d) s'
      | None => None
      end
  end.

(** Splits at the first ["."]: integer part, and the fraction when a dot
    is present. *)
Fixpoint split_dot (s : string) : string * option string :=
  match s with
  | EmptyString => (EmptyString, None)
  | String c s' =>
      if Ascii.eqb c "."%char then (EmptyString, Some s')
      else let '(ip, fp) := split_dot s' in (String c ip, fp)
  end.

(** Splits at the first ["e"] or ["E"]: mantissa, and the exponent part
    when there is one. *)
Fixpoint split_exp (s : string) : string * option string :=
  match s with
  | EmptyString => (EmptyString, None)
  | String c s' =>
      if orb (Ascii.eqb c "e"%char) (Ascii.eqb c "E"%char) then (EmptyString, Some s')
      else let '(m, e) := split_exp s' in (String c m, e)
  end.

(** The mantissa: digits, one optional dot. *)
Definition parse_unsigned (s : string) : option t :=
  let '(ip, fp) := split_dot s in
  let frac := match fp with Some f => f | None => EmptyString end in
  let well_formed :=
    match ip, fp with
    | EmptyString, None => false                    (* nothing at all *)
    | EmptyString, Some EmptyString => false        (* a lone dot *)
    | _, _ => true
    end in
  if well_formed then
    match digits_value 0 (ip ++ frac) with
    | Some c => Some (normalise (mk c (- Z.of_nat (String.length frac))))
    | None => None
    end
  else None.

(** The exponent part after the [e]: an optional sign and at least one
    digit. *)
Definition parse_exponent (s : string) : option Z :=
  match s with
  | EmptyString => None
  | String "-"%char EmptyString | String "+"%char EmptyString => None
  | String "-"%char s' => option_map Z.opp (digits_value 0 s')
  | String "+"%char s' => digits_value 0 s'
  | _ => digits_value 0 s
  end.

Definition parse_decimal (s : string) : option value :=
  let '(m, e) := split_exp s in
  match parse_unsigned m, e with
  | Some d, None => Some (clamp d)
  | Some d, Some es =>
      match parse_exponent es with
      | Some x => Some (clamp (normalise (mk (coef d) (exp d + x))))
      | None => None
      end
  | None, _ => None
  end.

Definition negate (d : t) : t := mk (- coef d) (exp d).

Definition negate_value (v : value) : value :=
  match v with
  | Fin d => Fin (negate d)
  | Inf negative => Inf (negb negative)
  | NaN => NaN
  end.

Definition parse_body (s : string) : option value :=
  match parse_decimal s with
  | Some v => Some v
  | None =>
      if String.eqb s "Infinity" then Some (Inf false)
      else if String.eqb s "NaN" then Some NaN
      else None
  end.

Definition parse (s : string) : option value :=
  match s with
  | String "-"%char s' => option_map negate_value (parse_body s')
  | String "+"%char s' => parse_body s'
  | _ => parse_body s
  end.

(** The finite value of a decimal literal. *)
Definition of_string (s : string) : option t :=
  match parse s with
  | Some (Fin d) => Some d
  | _ => None
  end.

(** [new Decimal(string)] on decimal literals, as a constructor. *)
Definition of_literal (s : string) : outcome value :=
  match parse s with
  | Some v => Resolved v
  | None => Rejected (DecimalError "Invalid argument")
  end.

(** *** [toNumber()]

    A JavaScript number is an IEEE-754 double: integers are exact up to
    [2^53], above that they are rounded to 53 significant bits (ties to
    even), and from [2^1024] on they are [Infinity]. [toNumber] is the
    double of an integer, [toNumber_value] that of an integer-valued
    Decimal, of an infinity or of [NaN]. *)
Inductive number : Type :=
| Finite (n : Z)
| Infinity (negative : bool)
| NotANumber.

Definition round53 (a : Z) : Z :=
  if a <? 2 ^ 53 then a
  else
    let sh := Z.log2 a - 52 in
    let q := Z.shiftr a sh in
    let r := a - Z.shiftl q sh in
    let half := 2 ^ (sh - 1) in
    let q' := if r <? half then q
              else if half <? r then q + 1
              else if Z.even q then q else q + 1 in
    Z.shiftl q' sh.

Definition toNumber (n : Z) : number :=
  let r := round53 (Z.abs n) in
  if 2 ^ 1024 <=? r then Infinity (n <? 0)
  else Finite (Z.sgn n * r).

Definition toNumber_value (x : value) : number :=
  match x with
  | Fin d => toNumber (floor d)
  | Inf negative => Infinity negative
  | NaN => NotANumber
  end.

End Decimal.

(** ** [NCGKMSTransfer] (ncg-kms-transfer.ts) *)

Module Transfer.

(** The plain value handed to bencodex's [encode]. *)
Inductive plain : Type :=
| PText (s : string)
| PBytes (b : list Z)                    (* a [Buffer] *)
| PNumber (n : Decimal.number)
| PList (l : list plain)
| PDict (kv : list (string * plain)).

(** [IHeadlessGraphQLClient]: each method returns a promise. *)
Record client : Type := {
  endpoint : string;
  createUnsignedTx : string -> string -> outcome string;
  stageTx : string -> outcome bool
}.

(** What a call meets outside the class. The library functions it
    calls: the constructor of decimal.js, [web3.utils.hexToBytes],
    bencodex's [encode] followed by [toString("base64")], the two
    [Buffer] re-encodings and the SHA-256 digest in hex. And the order in
    which the pending [stageTx] promises settle, coded as in [arrival]
    below: every order can be coded. *)
Record library : Type := {
  new_Decimal : string -> outcome Decimal.value;
  settling : list nat;
  hexToBytes : string -> outcome (list Z);
  encode_base64 : plain -> string;
  base64_to_hex : string -> string;
  hex_to_base64 : string -> string;
  sha256_hex : string -> string
}.

(** The fields of an [NCGKMSTransfer] instance ([_mutex] is treated in
    [Module Mutex]). *)
Record ncg_kms_transfer : Type := {
  _headlessGraphQLCLients : list client;
  _signer : string -> outcome string;     (* [KMSNCGSigner.sign] *)
  _address : string;
  _publicKey : string;
  _minters : list string
}.

Inductive event : Type :=
| CreateUnsignedTx (client_index : nat) (plainValue publicKey : string)
| Sign (unsignedTxHex : string)
| StageTx (client_index : nat) (payload : string)
| StageResolved (client_index : nat) (success : bool)   (* [console.log] in [.then] *)
| StageRejected (client_index : nat) (e : JSError).     (* [console.error] in [.catch] *)

(** [private get headlessGraphQLClient()] *)
Definition headlessGraphQLClient (self : ncg_kms_transfer) : option client :=
  nth_error (_headlessGraphQLCLients self) 0.

(** [new Decimal(amount).mul(100).floor().toNumber()] *)
Definition ncgAmount (lib : library) (amount : string) : outcome Decimal.number :=
  match new_Decimal lib amount with
  | Rejected e => Rejected e
  | Resolved a =>
      Resolved
        (Decimal.toNumber_value
           (Decimal.floor_value (Decimal.times a (Decimal.Fin (Decimal.of_Z 100)))))
  end.

Fixpoint map_outcome {A B} (f : A -> outcome B) (l : list A) : outcome (list B) :=
  match l with
  | [] => Resolved []
  | x :: l' =>
      bind (f x) (fun y => bind (map_outcome f l') (fun ys => Resolved (y :: ys)))
  end.

Definition plainValue (lib : library) (self : ncg_kms_transfer)
    (address : string) (amount : Decimal.number) (memo : option string)
    : outcome plain :=
  bind (map_outcome (hexToBytes lib) (_minters self)) (fun minters =>
  bind (hexToBytes lib address) (fun recipient =>
  bind (hexToBytes lib (_address self)) (fun sender =>
  Resolved
    (PDict
       [ ("type_id"%string, PText "transfer_asset3");
         ("values"%string,
          PDict
            ([ ("amount"%string,
                PList
                  [ PDict [ ("decimalPlaces"%string, PBytes [2]);
                            ("minters"%string, PList (map PBytes minters));
                            ("ticker"%string, PText "NCG") ];
                    PNumber amount ]) ]
             ++ match memo with
                | None => []
                | Some m => [ ("memo"%string, PText m) ]
                end
             ++ [ ("recipient"%string, PBytes recipient);
                  ("sender"%string, PBytes sender) ])) ])))).

Definition indexed {A} (l : list A) : list (nat * A) :=
  combine (seq 0 (List.length l)) l.

(** The handlers chained on one [stageTx] promise: the event they log and
    the boolean the chained promise resolves to. *)
Definition settle (payload : string) (ic : nat * client) : event * bool :=
  match stageTx (snd ic) payload with
  | Resolved success => (StageResolved (fst ic) success, success)
  | Rejected e => (StageRejected (fst ic) e, false)
  end.

(** [stageResults.reduce((a, b) => a || b)] *)
Definition reduce_or (l : list bool) : outcome bool :=
  match l with
  | [] => Rejected (TypeError "Reduce of empty array with no initial value")
  | b :: bs => Resolved (fold_left orb bs b)
  end.

(** The order in which promises settle. Each handler runs when its own
    promise settles, whatever the order of the clients: the answer of a
    client comes in at the position its pick names among the answers of
    the clients after it (at the end when the pick is larger; a missing
    pick is 0). Every order of the answers is the [arrival] of some
    picks. *)
Fixpoint insert_at {A} (k : nat) (x : A) (l : list A) : list A :=
  match k, l with
  | S k', y :: l' => y :: insert_at k' x l'
  | _, _ => x :: l
  end.

Fixpoint arrival {A} (picks : list nat) (l : list A) : list A :=
  match l with
  | [] => []
  | x :: l' => insert_at (hd O picks) x (arrival (tl picks) l')
  end.

(** The fan-out: every [stageTx] call is issued by the synchronous
    [map] before any handler runs; the handlers run in the order in which
    the promises settle; [Promise.all] keeps the results in client
    order. *)
Definition stage (lib : library) (self : ncg_kms_transfer) (tx : string)
    : outcome string * list event :=
  let payload := hex_to_base64 lib tx in
  let cs := indexed (_headlessGraphQLCLients self) in
  let settled := map (settle payload) cs in
  (bind (reduce_or (map snd settled)) (fun successAtLeastOne =>
     if successAtLeastOne then Resolved (sha256_hex lib tx)
     else Rejected (PlainError "Failed to stage transaction")),
   map (fun ic => StageTx (fst ic) payload) cs
   ++ map fst (arrival (settling lib) settled)).

(** [async transfer(address, amount, memo)]: the promise's outcome and
    the calls and log lines it caused. *)
Definition transfer (lib : library) (self : ncg_kms_transfer)
    (address amount : string) (memo : option string)
    : outcome string * list event :=
  match ncgAmount lib amount with
  | Rejected e => (Rejected e, [])
  | Resolved n =>
      (* body of [runExclusive] *)
      match plainValue lib self address n memo with
      | Rejected e => (Rejected e, [])
      | Resolved pv =>
          match headlessGraphQLClient self with
          | None =>
              (Rejected (TypeError "Cannot read properties of undefined"), [])
          | Some primary =>
              let request := CreateUnsignedTx 0 (encode_base64 lib pv) (_publicKey self) in
              match createUnsignedTx primary (encode_base64 lib pv) (_publicKey self) with
              | Rejected e => (Rejected e, [request])
              | Resolved unsignedTx =>
                  let unsignedHex := base64_to_hex lib unsignedTx in
                  match _signer self unsignedHex with
                  | Rejected e => (Rejected e, [request; Sign unsignedHex])
                  | Resolved tx =>
                      let '(r, evs) := stage lib self tx in
                      (r, [request; Sign unsignedHex] ++ evs)
                  end
              end
          end
      end
  end.

(** [values.amount[1]] of a plain value. *)
Fixpoint lookup (k : string) (kv : list (string * plain)) : option plain :=
  match kv with
  | [] => None
  | (k', v) :: kv' => if String.eqb k k' then Some v else lookup k kv'
  end.

Definition embedded_amount (pv : plain) : option Decimal.number :=
  match pv with
  | PDict top =>
      match lookup "values" top with
      | Some (PDict values) =>
          match lookup "amount" values with
          | Some (PList [_; PNumber n]) => Some n
          | _ => None
          end
      | _ => None
      end
  | _ => None
  end.

(** The client an event talks to, and the kind of the event. *)
Definition client_index_of (ev : event) : option nat :=
  match ev with
  | CreateUnsignedTx i _ _ | StageTx i _ | StageResolved i _ | StageRejected i _ => Some i
  | Sign _ => None
  end.

Definition is_create (ev : event) : bool :=
  match ev with CreateUnsignedTx _ _ _ => true | _ => false end.

Definition is_request (ev : event) : bool :=
  match ev with StageTx _ _ => true | _ => false end.

Definition is_answer (ev : event) : bool :=
  match ev with StageResolved _ _ | StageRejected _ _ => true | _ => false end.

Definition is_staging (ev : event) : bool :=
  match ev with
  | StageTx _ _ | StageResolved _ _ | StageRejected _ _ => true
  | _ => false
  end.

(** The spec's wording of the amount: [floor(amountDecimal * 100)]. *)
Definition spec_integerAmount (amountDecimal : Q) : Z :=
  Qfloor (amountDecimal * 100).

End Transfer.

(** *** A concrete deployment: one primary and two stage endpoints *)

Module TransferScenario.
Import Transfer.

Definition digits (z : Z) : string := NilZero.string_of_int (Z.to_int z).

(** A plain value written out, in place of its bencodex encoding. *)
Fixpoint print (p : plain) : string :=
  match p with
  | PText s => s
  | PBytes b => ("<" ++ String.concat "," (map digits b) ++ ">")%string
  | PNumber (Decimal.Finite z) => digits z
  | PNumber (Decimal.Infinity false) => "Infinity"
  | PNumber (Decimal.Infinity true) => "-Infinity"
  | PNumber Decimal.NotANumber => "NaN"
  | PList l => ("[" ++ String.concat "," (map print l) ++ "]")%string
  | PDict kv =>
      ("{" ++ String.concat ","
                (map (fun e => (fst e ++ ":" ++ print (snd e))%string) kv) ++ "}")%string
  end.

(** The constructor reads decimal literals, [hexToBytes] gives one byte,
    the length of the string; the stage promise of the primary settles
    last. *)
Definition lib : library := {|
  new_Decimal := Decimal.of_literal;
  settling := [2; 0; 0]%nat;
  hexToBytes := fun s => Resolved [Z.of_nat (String.length s)];
  encode_base64 := print;
  base64_to_hex := fun s => s;
  hex_to_base64 := fun s => s;
  sha256_hex := fun s => ("sha256:" ++ s)%string
|}.

Definition primary : client := {|
  endpoint := "primary";
  createUnsignedTx := fun _ _ => Resolved "unsigned"%string;
  stageTx := fun _ => Rejected (External "timeout")
|}.

Definition refusing : client := {|
  endpoint := "stage-1";
  createUnsignedTx := fun _ _ => Rejected (External "never asked");
  stageTx := fun _ => Resolved false
|}.

Definition accepting : client := {|
  endpoint := "stage-2";
  createUnsignedTx := fun _ _ => Rejected (External "never asked");
  stageTx := fun _ => Resolved true
|}.

Definition bridge (clients : list client) : ncg_kms_transfer := {|
  _headlessGraphQLCLients := clients;
  _signer := fun _ => Resolved "signed"%string;
  _address := "0xbridge";
  _publicKey := "pk";
  _minters := ["0xminter"%string]
|}.

End TransferScenario.

(** ** [WrappedNCGMinter] (wrapped-ncg-minter.ts) *)

Module Minter.

Record TransactionReceipt : Type := { transactionHash : string }.

(** The fields of web3's [TransactionConfig] that matter here; an absent
    field is [None]. *)
Record TransactionConfig : Type := {
  from : option string;
  gasPrice : option Z;                    (* a decimal string of an integer *)
  maxPriorityFeePerGas : option Z
}.

(** The collaborators behind [this._web3] and [this._contract]:
    [eth.getGasPrice()] and [methods.mint(to, amount).send(config)]. *)
Record web3 : Type := {
  getGasPrice : outcome string;
  send : string -> Z -> TransactionConfig -> outcome TransactionReceipt
}.

Record wrapped_ncg_minter : Type := {
  _web3 : web3;
  _contractAddress : string;
  _minterAddress : string;
  _gasTipRatio : Decimal.t
}.

Inductive event : Type :=
| ConsoleLog (contract to : string)
| GetGasPrice
| Send (to : string) (amount : Z) (config : TransactionConfig)
| Callback (r : TransactionReceipt)
| ErrorCallback (e : JSError)
| UnhandledRejection (e : JSError).

(** [this._web3.utils.toBN(amount.toString())]: a string with a
    fraction part is refused. [Decimal.set({toExpPos: ...})] makes
    [toString] print every integer in plain notation. *)
Definition toBN (amount : Decimal.t) : outcome Z :=
  if Decimal.is_integer amount then Resolved (Decimal.floor amount)
  else Rejected (PlainError "invalid number value").

(** [p.catch(errorCallback)] on a rejected promise [p]; the promise it
    returns is dropped, so an error of [errorCallback] is unhandled. *)
Definition catch_with (errorCallback : JSError -> outcome unit) (e : JSError)
    : list event :=
  ErrorCallback e ::
  match errorCallback e with
  | Resolved _ => []
  | Rejected e' => [UnhandledRejection e']
  end.

(** [mint(address, amount, callback, errorCallback)]. A callback is
    given by what it does to the promise chain: it returns
    ([Resolved tt]), or it throws (an [async] callback: its promise
    rejects). The promise of [send] is embedded by its outcome. The
    price is the decimal literal of an integer, as the node returns it
    (the source gives '103926224184'); on a string that is no decimal
    literal of a finite number the handler ends as when the constructor
    throws. *)
Definition mint (self : wrapped_ncg_minter) (address : string) (amount : Decimal.t)
    (callback : TransactionReceipt -> outcome unit)
    (errorCallback : JSError -> outcome unit) : list event :=
  ConsoleLog (_contractAddress self) address :: GetGasPrice ::
  match getGasPrice (_web3 self) with
  | Rejected e => [UnhandledRejection e]         (* no handler on this promise *)
  | Resolved gasPriceString =>
      match Decimal.of_string gasPriceString with
      | None => [UnhandledRejection (DecimalError "Invalid argument")]
      | Some gasPrice =>
          let gasPriceWithTip := Decimal.floor (Decimal.mul gasPrice (_gasTipRatio self)) in
          match toBN amount with
          | Rejected e => [UnhandledRejection e]
          | Resolved bn =>
              let config := {| from := Some (_minterAddress self);
                               gasPrice := Some gasPriceWithTip;
                               maxPriorityFeePerGas := None |} in
              Send address bn config ::
              match send (_web3 self) address bn config with
              | Resolved receipt =>
                  Callback receipt ::
                  match callback receipt with
                  | Resolved _ => []
                  | Rejected e => catch_with errorCallback e
                  end
              | Rejected e => catch_with errorCallback e
              end
          end
      end
  end.

Definition sent_config (tr : list event) : option TransactionConfig :=
  match filter (fun ev => match ev with Send _ _ _ => true | _ => false end) tr with
  | Send _ _ c :: _ => Some c
  | _ => None
  end.

End Minter.

(** ** Gas-price policies ([./policies/gas-price], imported by index.ts) *)

Module GasPrice.

(** Modelled from the spec: the classes [GasPriceTipPolicy],
    [GasPriceLimitPolicy] and [GasPricePolicies] of ./policies/gas-price are
    not among the sources; section 4.7 gives [TipPolicy(r): p -> floor(p * r)],
    [LimitPolicy(cap): p -> min(p, cap)] and the composite as left-to-right
    application. *)
Inductive policy : Type :=
| GasPriceTipPolicy (r : Q)
| GasPriceLimitPolicy (cap : Q)
| GasPricePolicies (ps : list policy).

(** Modelled from the spec: the method [calculateGasPrice] of the three
    classes, with the prices as rationals. *)
Fixpoint calculateGasPrice (pol : policy) (p : Q) : Q :=
  match pol with
  | GasPriceTipPolicy r => inject_Z (Qfloor (p * r))
  | GasPriceLimitPolicy cap => if Qle_bool p cap then p else cap
  | GasPricePolicies ps =>
      (fix go (ps : list policy) (p : Q) : Q :=
         match ps with
         | [] => p
         | pol :: ps' => go ps' (calculateGasPrice pol p)
         end) ps p
  end.

End GasPrice.

(** ** index.ts: the wiring *)

Module Index.

(** Node's [process], as far as index.ts touches it: the listeners of
    ["uncaughtException"]. Without a listener Node prints the error and
    exits with code 1; with listeners it calls them and goes on. *)
Inductive sink : Type := console_error.

Record process : Type := { uncaughtException : list sink }.

Inductive fate : Type :=
| Continues (logged : list (sink * JSError))
| Exits (code : Z).

Definition on_uncaughtException (listener : sink) (p : process) : process :=
  {| uncaughtException := uncaughtException p ++ [listener] |}.

Definition emit_uncaught (p : process) (e : JSError) : fate :=
  match uncaughtException p with
  | [] => Exits 1
  | ls => Continues (map (fun l => (l, e)) ls)
  end.

(** [process.on("uncaughtException", console.error)] *)
Definition process_after_startup : process :=
  on_uncaughtException console_error {| uncaughtException := [] |}.

(** [new GasPricePolicies([gasPriceTipPolicy, gasPriceLimitPolicy])] *)
Definition gasPricePolicy (GAS_TIP_RATIO MAX_GAS_PRICE : Q) : GasPrice.policy :=
  GasPrice.GasPricePolicies
    [ GasPrice.GasPriceTipPolicy GAS_TIP_RATIO;
      GasPrice.GasPriceLimitPolicy MAX_GAS_PRICE ].

(** [new NCGKMSTransfer([headlessGraphQLCLient, ...stageGraphQLClients], ...)];
    the one instance is handed to both observers. *)
Definition ncgKmsTransfer (headlessGraphQLCLient : Transfer.client)
    (stageGraphQLClients : list Transfer.client)
    (signer : string -> outcome string)
    (kmsAddress KMS_PROVIDER_PUBLIC_KEY NCG_MINTER : string)
    : Transfer.ncg_kms_transfer :=
  {| Transfer._headlessGraphQLCLients := headlessGraphQLCLient :: stageGraphQLClients;
     Transfer._signer := signer;
     Transfer._address := kmsAddress;
     Transfer._publicKey := KMS_PROVIDER_PUBLIC_KEY;
     Transfer._minters := [NCG_MINTER] |}.

End Index.

(** *** A concrete minter: gas price 100 wei, tip ratio 2 *)

Module MinterScenario.
Import Minter.

Definition node (price : outcome string) (sent : outcome TransactionReceipt) : web3 :=
  {| getGasPrice := price; send := fun _ _ _ => sent |}.

Definition minter (w : web3) : wrapped_ncg_minter :=
  {| _web3 := w;
     _contractAddress := "0xwncg";
     _minterAddress := "0xkms";
     _gasTipRatio := Decimal.mk 2 0 |}.

Definition receipt : TransactionReceipt := {| transactionHash := "0xhash" |}.

Definition quiet {A} (_ : A) : outcome unit := Resolved tt.
Definition throwing {A} (_ : A) : outcome unit := Rejected (External "slack is down").

End MinterScenario.

(** ** [TriggerableMonitor] (monitors/triggerable-monitor.ts) *)

Module Monitor.

Record TransactionLocation : Type := { blockHash : string; txId : string }.

Section Loop.

(** [World] is everything outside the monitor: the chain node, the
    clock. [TEventData] is the event type, [Integration] the alert
    sinks. *)
Context {World TEventData Integration : Type}.

(** What [loop] yields: [{ blockHash, events }]. *)
Record envelope : Type := { env_blockHash : string; events : list TEventData }.

Record ProcessRemainsResult : Type := {
  nextBlockIndex : Z;
  remainedEvents : list envelope
}.

(** The abstract members a subclass supplies, and the two ambient
    services [new Date()] and [delay]. Every asynchronous member may
    reject and may change the world. ([getBlockIndex] is abstract too, but
    [loop] does not call it.) *)
Record chain : Type := {
  name : string;                                   (* [this.constructor.name] *)
  processRemains : TransactionLocation -> World -> outcome ProcessRemainsResult * World;
  triggerredBlocks : Z -> list Z;
  getBlockHash : Z -> World -> outcome string * World;
  getTipIndex : World -> outcome Z * World;
  getEvents : Z -> World -> outcome (list TEventData) * World;
  now : World -> Z;                                (* [+new Date()], milliseconds *)
  delay : Z -> World -> World
}.

(** Constructor arguments. *)
Record config : Type := {
  _latestTransactionLocation : option TransactionLocation;
  _delayMilliseconds : Z;
  _integrations : list Integration
}.

(** The two private fields; both are assigned before the [while]. *)
Record fields : Type := { latestBlockNumber : Z; updatedAt : Z }.

(** Where the generator is suspended. Before the [while] the fields are
    still [undefined]. *)
Inductive generator : Type :=
| Start
| YieldedRemained (rest : list envelope) (next : Z)   (* at the [yield] of line 37 *)
| YieldedBlock (m : fields) (rest : list Z)           (* at the [yield] of line 58 *)
| LoopHead (m : fields)                               (* at [while(true)], see [Pending] *)
| Completed.

(** What one [next()] gives. The block index of [YieldBlock] is not part
    of the yielded value [{ blockHash, events }]; it records which element
    of [trigerredBlockIndexes] the envelope belongs to. [Pending] is not a
    JavaScript value: it says that the promise has not settled within the
    given number of [while] iterations. *)
Inductive step_result : Type :=
| YieldRemained (e : envelope)
| YieldBlock (blockIndex : Z) (e : envelope)
| Throw (e : JSError)
| Done
| Pending.

Inductive effect : Type :=
| DebugTry (blockIndex : Z)                         (* line 50 *)
| DebugExecute (blockIndex : Z)                     (* line 55 *)
| DebugSkip (current tip : Z)                       (* line 64 *)
| IntegrationError (i : Integration) (message : string) (latest : Z)
| Delay (ms : Z)
| ErrorIgnored (e : JSError)                        (* [this.error], line 79 *)
| CaptureException (e : JSError).                   (* line 80 *)

Definition result : Type := step_result * generator * World * list effect.

Variable c : chain.
Variable cfg : config.

Definition TIMEOUT : Z := 5 * 60 * 1000.

Definition alert_message : string :=
  (name c ++ " is not updated for 5 minutes.")%string.

(** The [catch] clause. *)
Definition caught (e : JSError) : list effect :=
  [ErrorIgnored e; CaptureException e].

(** The [for ... of trigerredBlockIndexes] loop from a given rest of
    the array, up to its next [yield]; [k] is the rest of the [while]
    loop. *)
Definition run_for (k : fields -> World -> list effect -> result)
    (m : fields) (rest : list Z) (w : World) (tr : list effect) : result :=
  match rest with
  | [] =>
      k {| latestBlockNumber := latestBlockNumber m + 1; updatedAt := now c w |} w tr
  | blockIndex :: rest' =>
      match getBlockHash c blockIndex w with
      | (Rejected e, w1) => k m w1 (tr ++ DebugExecute blockIndex :: caught e)
      | (Resolved hash, w1) =>
          match getEvents c blockIndex w1 with
          | (Rejected e, w2) => k m w2 (tr ++ DebugExecute blockIndex :: caught e)
          | (Resolved evs, w2) =>
              (YieldBlock blockIndex {| env_blockHash := hash; events := evs |},
               YieldedBlock m rest', w2, tr ++ [DebugExecute blockIndex])
          end
      end
  end.

(** The integrations paged in the [else] branch. *)
Definition alerts (m : fields) (current : Z) : list effect :=
  if TIMEOUT <? current - updatedAt m then
    map (fun i => IntegrationError i alert_message (latestBlockNumber m))
        (_integrations cfg)
  else [].

(** [while(true) { try { ... } catch { ... } }], at most [fuel]
    iterations. *)
Fixpoint while_loop (fuel : nat) (m : fields) (w : World) (tr : list effect)
    : result :=
  match fuel with
  | O => (Pending, LoopHead m, w, tr)
  | S fuel' =>
      match getTipIndex c w with
      | (Rejected e, w1) => while_loop fuel' m w1 (tr ++ caught e)
      | (Resolved tipIndex, w1) =>
          if latestBlockNumber m + 1 <=? tipIndex then
            run_for (while_loop fuel') m
              (triggerredBlocks c (latestBlockNumber m + 1)) w1
              (tr ++ [DebugTry (latestBlockNumber m + 1)])
          else
            while_loop fuel' m (delay c (_delayMilliseconds cfg) w1)
              (tr ++ [DebugTry (latestBlockNumber m + 1);
                      DebugSkip (latestBlockNumber m) tipIndex]
                  ++ alerts m (now c w1)
                  ++ [Delay (_delayMilliseconds cfg)])
      end
  end.

(** The [for ... of remainedEvents] loop and the two assignments after
    it. *)
Definition run_remains (fuel : nat) (rest : list envelope) (next : Z) (w : World)
    : result :=
  match rest with
  | remainedEvent :: rest' =>
      (YieldRemained remainedEvent, YieldedRemained rest' next, w, [])
  | [] =>
      while_loop fuel {| latestBlockNumber := next; updatedAt := now c w |} w []
  end.

(** One call of [next()] on the generator [loop()] returns. *)
Definition next (fuel : nat) (g : generator) (w : World) : result :=
  match g with
  | Start =>
      match _latestTransactionLocation cfg with
      | Some location =>
          match processRemains c location w with
          | (Rejected e, w1) => (Throw e, Completed, w1, [])
          | (Resolved r, w1) =>
              run_remains fuel (remainedEvents r) (nextBlockIndex r) w1
          end
      | None =>
          match getTipIndex c w with
          | (Rejected e, w1) => (Throw e, Completed, w1, [])
          | (Resolved tip, w1) =>
              while_loop fuel {| latestBlockNumber := tip; updatedAt := now c w1 |} w1 []
          end
      end
  | YieldedRemained rest n => run_remains fuel rest n w
  | YieldedBlock m rest => run_for (while_loop fuel) m rest w []
  | LoopHead m => while_loop fuel m w []
  | Completed => (Done, Completed, w, [])
  end.

(** A consumer that calls [next()] [calls] times: the results in order,
    with the effects of each call. Between two calls the consumer
    handles what it got, during which the world moves on ([between]). *)
Fixpoint pull (between : step_result -> World -> World)
    (calls fuel : nat) (g : generator) (w : World)
    : list (step_result * list effect) * generator * World :=
  match calls with
  | O => ([], g, w)
  | S calls' =>
      let '(r, g1, w1, tr) := next fuel g w in
      let '(rs, g2, w2) := pull between calls' fuel g1 (between r w1) in
      ((r, tr) :: rs, g2, w2)
  end.

Definition results (between : step_result -> World -> World)
    (calls fuel : nat) (g : generator) (w : World)
    : list (step_result * list effect) :=
  fst (fst (pull between calls fuel g w)).

(** Block indexes of the envelopes yielded by the main loop. *)
Fixpoint yielded_blocks (rs : list (step_result * list effect)) : list Z :=
  match rs with
  | [] => []
  | (YieldBlock i _, _) :: rs' => i :: yielded_blocks rs'
  | _ :: rs' => yielded_blocks rs'
  end.

Definition is_alert (ev : effect) : bool :=
  match ev with IntegrationError _ _ _ => true | _ => false end.

Definition paged (tr : list effect) : list effect := filter is_alert tr.

(** [n] polls in a row at which the next block is not there yet and the
    last update is more than [TIMEOUT] old. *)
Fixpoint stalled (n : nat) (m : fields) (w : World) : Prop :=
  match n with
  | O => True
  | S n' =>
      exists tip w1,
        getTipIndex c w = (Resolved tip, w1)
        /\ tip < latestBlockNumber m + 1
        /\ TIMEOUT < now c w1 - updatedAt m
        /\ stalled n' m (delay c (_delayMilliseconds cfg) w1)
  end.

End Loop.

Arguments envelope : clear implicits.
Arguments ProcessRemainsResult : clear implicits.
Arguments chain : clear implicits.
Arguments config : clear implicits.
Arguments generator : clear implicits.
Arguments step_result : clear implicits.
Arguments effect : clear implicits.

(** The generator is inside [while(true)]. *)
Definition in_loop {TEventData : Type} (g : generator TEventData) : Prop :=
  match g with
  | LoopHead _ | YieldedBlock _ _ => True
  | _ => False
  end.

(** A call that is still inside the loop afterwards: it yielded a block,
    or it has not settled yet. *)
Definition stays_in_loop {World TEventData Integration : Type}
    (res : @result World TEventData Integration) : Prop :=
  match res with
  | (YieldBlock _ _, YieldedBlock _ _, _, _) => True
  | (Pending, LoopHead _, _, _) => True
  | _ => False
  end.

(** The block the main loop yields next, for a generator suspended
    between two triggers. *)
Definition next_block {TEventData : Type} (g : generator TEventData) : option Z :=
  match g with
  | LoopHead m => Some (latestBlockNumber m + 1)
  | YieldedBlock m [] => Some (latestBlockNumber m + 2)
  | _ => None
  end.

(** The generator has not reached [while(true)] yet, or has ended. *)
Definition before_loop {TEventData : Type} (g : generator TEventData) : Prop :=
  match g with
  | Start | YieldedRemained _ _ | Completed => True
  | _ => False
  end.

(** The blocks [n], [n + 1], ... ([k] of them). *)
Definition run_from (n : Z) (k : nat) : list Z :=
  map (fun j => n + Z.of_nat j) (seq 0 k).

(** Each yield lies strictly after the one before it. *)
Fixpoint strictly_increasing (l : list Z) : Prop :=
  match l with
  | a :: (b :: _) as l' => a < b /\ strictly_increasing l'
  | _ => True
  end.

(** No block is skipped: each yield is the block after the previous
    one. *)
Fixpoint consecutive (l : list Z) : Prop :=
  match l with
  | a :: (b :: _) as l' => b = a + 1 /\ consecutive l'
  | _ => True
  end.

End Monitor.

(** *** Scripted chains for concrete runs *)

Module MonitorScenario.
Import Monitor.

(** The world counts the calls made so far and keeps a clock. *)
Record world : Type := { clock : Z; tip_calls : nat; hash_calls : nat }.

Definition world0 : world := {| clock := 0; tip_calls := 0; hash_calls := 0 |}.

Definition scripted
    (hook : Z -> list Z)
    (tip : nat -> Z)                       (* tip at the n-th call *)
    (hash_fails : nat -> bool)             (* does the n-th [getBlockHash] reject? *)
    (remains : outcome (ProcessRemainsResult string))
    (tick : Z)                             (* milliseconds a tip request takes *)
    : chain world string :=
  {| name := "ScriptedMonitor";
     processRemains := fun _ w => (remains, w);
     triggerredBlocks := hook;
     getBlockHash := fun i w =>
       (if hash_fails (hash_calls w) then Rejected (External "rpc")
        else Resolved "0xhash"%string,
        {| clock := clock w; tip_calls := tip_calls w; hash_calls := S (hash_calls w) |});
     getTipIndex := fun w =>
       (Resolved (tip (tip_calls w)),
        {| clock := clock w + tick; tip_calls := S (tip_calls w); hash_calls := hash_calls w |});
     getEvents := fun i w => (Resolved ["event"%string], w);
     now := clock;
     delay := fun ms w =>
       {| clock := clock w + ms; tip_calls := tip_calls w; hash_calls := hash_calls w |} |}.

Definition fresh : config string :=
  {| _latestTransactionLocation := None;
     _delayMilliseconds := 15 * 1000;
     _integrations := ["pagerduty"%string] |}.

Definition resuming : config string :=
  {| _latestTransactionLocation := Some {| blockHash := "0xcursor"; txId := "0xtx" |};
     _delayMilliseconds := 15 * 1000;
     _integrations := ["pagerduty"%string] |}.

Definition identity (i : Z) : list Z := [i].

(** A hook that turns a trigger into two sub-block steps. *)
Definition two_steps (i : Z) : list Z := [2 * i; 2 * i + 1].

Definition growing_tip (n : nat) : Z := 10 + Z.of_nat n.

Definition no_remains : outcome (ProcessRemainsResult string) :=
  Rejected (External "not resuming").

Definition idle (_ : step_result string) (w : world) : world := w.

(** The second [getBlockHash] of the run rejects, under a hook with two
    blocks per trigger. *)
Definition retried : chain world string :=
  scripted two_steps growing_tip (fun n => Nat.eqb n 1) no_remains 1000.

(** The same failure under the identity hook. *)
Definition flaky : chain world string :=
  scripted identity growing_tip (fun n => Nat.eqb n 1) no_remains 1000.

(** [processRemains] answers [nextBlockIndex = 10] with one envelope left
    over; the tip is at 20. *)
Definition resumed : chain world string :=
  scripted identity (fun _ => 20) (fun _ => false)
    (Resolved {| nextBlockIndex := 10; remainedEvents :=
                   [{| env_blockHash := "0xcursor"; events := ["left over"%string] |}] |})
    1000.

(** The cursor's block is gone: [processRemains] rejects. *)
Definition reorged : chain world string :=
  scripted identity (fun _ => 20) (fun _ => false)
    (Rejected (External "ReorgedCursorError")) 1000.

(** The tip is far ahead, every [getBlockHash] rejects, and each tip
    request takes a minute. *)
Definition stuck : chain world string :=
  scripted identity (fun _ => 100) (fun _ => true) no_remains 60000.

(** The chain stands still at block 10. *)
Definition quiet_chain : chain world string :=
  scripted identity (fun _ => 10) (fun _ => false) no_remains 1000.

Definition at_ten : fields := {| latestBlockNumber := 10; updatedAt := 0 |}.

Definition late : world := {| clock := 400000; tip_calls := 0; hash_calls := 0 |}.

Definition replayed : envelope string :=
  {| env_blockHash := "0xcursor"; events := ["left over"%string] |}.

End MonitorScenario.

(** *** A restart after a crash *)

Module ResumeScenario.
Import Monitor MonitorScenario.

(** Every block holds one event, which names the block it is in. *)
Definition block (i : Z) : envelope Z :=
  {| env_blockHash := "0xhash"; events := [i] |}.

(** Modelled from the spec: [processRemains] (section 4.2 of the spec;
    its implementations are in the subclasses of [TriggerableMonitor],
    which are not among the sources). For a cursor in block [cursor] and a
    tip [tip] it returns the events of the blocks from [cursor] to [tip],
    of the cursor's own block only those after the stored transaction
    (none here: the block holds one event), and
    [nextBlockIndex = tip + 1]. *)
Definition spec_processRemains (cursor tip : Z) : ProcessRemainsResult Z :=
  {| nextBlockIndex := tip + 1;
     remainedEvents :=
       {| env_blockHash := "0xhash"; events := [] |}
       :: map block (run_from (cursor + 1) (Z.to_nat (tip - cursor))) |}.

(** The monitor comes back with its cursor in block 19 while the tip is
    at 20; later the tip is at 25. *)
Definition after_crash : chain world Z :=
  {| name := "ScriptedMonitor";
     processRemains := fun _ w => (Resolved (spec_processRemains 19 20), w);
     triggerredBlocks := identity;
     getBlockHash := fun i w => (Resolved "0xhash"%string, w);
     getTipIndex := fun w => (Resolved 25, w);
     getEvents := fun i w => (Resolved [i], w);
     now := clock;
     delay := fun ms w =>
       {| clock := clock w + ms; tip_calls := tip_calls w; hash_calls := hash_calls w |} |}.

Definition quiet (_ : step_result Z) (w : world) : world := w.

(** The events a consumer got, in order. *)
Fixpoint delivered {TEventData Integration : Type}
    (rs : list (step_result TEventData * list (effect Integration))) : list TEventData :=
  match rs with
  | [] => []
  | (YieldRemained e, _) :: rs' => events e ++ delivered rs'
  | (YieldBlock _ e, _) :: rs' => events e ++ delivered rs'
  | _ :: rs' => delivered rs'
  end.

End ResumeScenario.

(** ** The mutex around the body of [transfer] *)

Module Mutex.

(** Where one call of [transfer] stands. [Creating], [Signing] and
    [Staging] are the three awaits inside [runExclusive]. *)
Inductive pc : Type :=
| NotCalled
| Queued           (* inside [runExclusive], waiting for [acquire()] *)
| Creating         (* [createUnsignedTx] in flight *)
| Signing          (* [_signer.sign] in flight *)
| Staging          (* [Promise.all] of the [stageTx] calls in flight *)
| Settled.         (* the promise of [transfer] is settled, the mutex released *)

(** One [NCGKMSTransfer] instance with its [_mutex] (async-mutex: a lock
    and a FIFO queue of waiters) and the calls made on it. *)
Record state : Type := {
  holder : option nat;
  queue : list nat;
  pcs : nat -> pc
}.

(** What the event loop can run next. *)
Inductive action : Type :=
| Call (i : nat) (amount_ok : bool)   (* [transfer(...)] is called; a bad amount throws before the mutex *)
| Dispatch (reaches_await : bool)     (* the first waiter gets the lock and its body starts *)
| Reply (i : nat) (ok : bool).        (* the awaited promise of call [i] settles *)

Definition update (f : nat -> pc) (i : nat) (v : pc) : nat -> pc :=
  fun j => if Nat.eqb j i then v else f j.

Definition release (s : state) (i : nat) : state :=
  {| holder := None; queue := queue s; pcs := update (pcs s) i Settled |}.

Definition advance (s : state) (i : nat) (v : pc) : state :=
  {| holder := holder s; queue := queue s; pcs := update (pcs s) i v |}.

Definition step (a : action) (s : state) : option state :=
  match a with
  | Call i amount_ok =>
      match pcs s i with
      | NotCalled =>
          if amount_ok then
            Some {| holder := holder s; queue := queue s ++ [i];
                    pcs := update (pcs s) i Queued |}
          else Some (advance s i Settled)
      | _ => None
      end
  | Dispatch reaches_await =>
      match holder s, queue s with
      | None, i :: q =>
          if reaches_await then
            Some {| holder := Some i; queue := q; pcs := update (pcs s) i Creating |}
          else
            Some {| holder := None; queue := q; pcs := update (pcs s) i Settled |}
      | _, _ => None
      end
  | Reply i ok =>
      match pcs s i with
      | Creating => Some (if ok then advance s i Signing else release s i)
      | Signing => Some (if ok then advance s i Staging else release s i)
      | Staging => Some (release s i)
      | _ => None
      end
  end.

Definition init : state :=
  {| holder := None; queue := []; pcs := fun _ => NotCalled |}.

(** A schedule; an action that is not enabled is skipped. *)
Fixpoint run (acts : list action) (s : state) : state :=
  match acts with
  | [] => s
  | a :: acts' =>
      match step a s with
      | Some s' => run acts' s'
      | None => run acts' s
      end
  end.

Definition is_creating (p : pc) : bool :=
  match p with Creating => true | _ => false end.

Definition in_body (p : pc) : bool :=
  match p with Creating | Signing | Staging => true | _ => false end.

(** Number of [createUnsignedTx] requests in flight among the calls
    [0 .. K-1]. *)
Definition in_flight (K : nat) (s : state) : nat :=
  List.length (filter (fun i => is_creating (pcs s i)) (seq 0 K)).

(** Number of calls inside the build-sign-stage sequence. *)
Definition in_critical_section (K : nat) (s : state) : nat :=
  List.length (filter (fun i => in_body (pcs s i)) (seq 0 K)).

(** Whoever is inside the body of [runExclusive] holds the lock. *)
Definition body_holds_lock (s : state) : Prop :=
  forall i, in_body (pcs s i) = true -> holder s = Some i.

End Mutex.

(** ** Reading a [transfer_asset3] plain value and a trace *)

Module TransferShape.
Import Transfer.

(** The entries under ["values"]. *)
Definition values_of (pv : plain) : list (string * plain) :=
  match pv with
  | PDict top =>
      match lookup "values" top with
      | Some (PDict values) => values
      | _ => []
      end
  | _ => []
  end.

Definition type_id_of (pv : plain) : option plain :=
  match pv with
  | PDict top => lookup "type_id" top
  | _ => None
  end.

(** The currency part [values.amount[0]]. *)
Definition currency_of (pv : plain) : list (string * plain) :=
  match lookup "amount" (values_of pv) with
  | Some (PList [PDict currency; _]) => currency
  | _ => []
  end.

(** The strings the method turns into bytes, in the order it does so. *)
Definition hex_inputs (self : ncg_kms_transfer) (address : string) : list string :=
  _minters self ++ [address; _address self].

(** The clients asked to stage, and the clients whose answer was
    handled, in trace order. *)
Definition asked (tr : list event) : list (option nat) :=
  map client_index_of (filter is_request tr).

Definition answered (tr : list event) : list (option nat) :=
  map client_index_of (filter is_answer tr).

End TransferShape.

(** ** The history of a schedule of [transfer] calls *)

Module MutexLog.
Import Mutex.

(** The calls that were given the lock, in the order they got it. *)
Fixpoint served (acts : list action) (s : state) : list nat :=
  match acts with
  | [] => []
  | a :: acts' =>
      match step a s with
      | Some s' =>
          match a, queue s with
          | Dispatch _, i :: _ => i :: served acts' s'
          | _, _ => served acts' s'
          end
      | None => served acts' s
      end
  end.

(** The calls that reached [runExclusive], in the order they did. *)
Fixpoint arrived (acts : list action) (s : state) : list nat :=
  match acts with
  | [] => []
  | a :: acts' =>
      match step a s with
      | Some s' =>
          match a with
          | Call i true => i :: arrived acts' s'
          | _ => arrived acts' s'
          end
      | None => arrived acts' s
      end
  end.

(** The lock is held only by a call inside the body, the queue lists
    the waiting calls, each once. *)
Definition well_kept (s : state) : Prop :=
  (forall i, holder s = Some i -> in_body (pcs s i) = true)
  /\ (forall i, In i (queue s) <-> pcs s i = Queued)
  /\ NoDup (queue s).

End MutexLog.

(** ** Reading a trace of [mint] *)

Module MinterShape.
Import Minter.

Definition is_send (ev : event) : bool :=
  match ev with Send _ _ _ => true | _ => false end.

Definition is_callback (ev : event) : bool :=
  match ev with Callback _ => true | _ => false end.

Definition is_errorCallback (ev : event) : bool :=
  match ev with ErrorCallback _ => true | _ => false end.

Definition sends (tr : list event) : list event := filter is_send tr.
Definition callbacks (tr : list event) : list event := filter is_callback tr.
Definition errorCallbacks (tr : list event) : list event := filter is_errorCallback tr.

(** The product [gasPrice.mul(this._gasTipRatio)] before it is rounded to
    the precision. *)
Definition exact_product (x y : Decimal.t) : Decimal.t :=
  Decimal.mk (Decimal.coef x * Decimal.coef y) (Decimal.exp x + Decimal.exp y).

End MinterShape.

(** ** Reading a trace of [loop], and iterations of its [while] *)

Module MonitorRuns.
Import Monitor.

Section Runs.

Context {World TEventData Integration : Type}.
Variable c : chain World TEventData.

(** The sleeps, the polls that found no new block, and the errors
    logged and captured, in trace order. *)
Fixpoint delays (tr : list (effect Integration)) : list Z :=
  match tr with
  | [] => []
  | Delay ms :: tr' => ms :: delays tr'
  | _ :: tr' => delays tr'
  end.

Fixpoint skips (tr : list (effect Integration)) : nat :=
  match tr with
  | [] => 0
  | DebugSkip _ _ :: tr' => S (skips tr')
  | _ :: tr' => skips tr'
  end.

Fixpoint ignored (tr : list (effect Integration)) : list JSError :=
  match tr with
  | [] => []
  | ErrorIgnored e :: tr' => e :: ignored tr'
  | _ :: tr' => ignored tr'
  end.

Fixpoint captured (tr : list (effect Integration)) : list JSError :=
  match tr with
  | [] => []
  | CaptureException e :: tr' => e :: captured tr'
  | _ :: tr' => captured tr'
  end.

(** An iteration of [while(true)] that ends in the [catch] clause: the
    tip request rejects, or the tip allows the next trigger and the hash
    or the events of its first block cannot be fetched. *)
Definition iteration_fails (m : fields) (w w' : World) : Prop :=
  (exists e, getTipIndex c w = (Rejected e, w'))
  \/ (exists tip w1 i rest,
        getTipIndex c w = (Resolved tip, w1)
        /\ latestBlockNumber m + 1 <= tip
        /\ triggerredBlocks c (latestBlockNumber m + 1) = i :: rest
        /\ ((exists e, getBlockHash c i w1 = (Rejected e, w'))
            \/ (exists hash w2 e,
                  getBlockHash c i w1 = (Resolved hash, w2)
                  /\ getEvents c i w2 = (Rejected e, w')))).

(** [n] failing iterations in a row lead from [w] to [w']. *)
Fixpoint fails_for (n : nat) (m : fields) (w w' : World) : Prop :=
  match n with
  | O => w' = w
  | S n' => exists w1, iteration_fails m w w1 /\ fails_for n' m w1 w'
  end.

(** An iteration that reaches the [yield]: the tip allows the next
    trigger, whose first block is [i], and the hash and the events of [i]
    are fetched, in this order. *)
Definition iteration_yields (m : fields) (w w' : World)
    (i : Z) (rest : list Z) (env : envelope TEventData) : Prop :=
  exists tip w1 w2,
    getTipIndex c w = (Resolved tip, w1)
    /\ latestBlockNumber m + 1 <= tip
    /\ triggerredBlocks c (latestBlockNumber m + 1) = i :: rest
    /\ getBlockHash c i w1 = (Resolved (env_blockHash env), w2)
    /\ getEvents c i w2 = (Resolved (events env), w').

(** The hash and the events of an envelope were fetched for block [i],
    the events last. *)
Definition fetched (i : Z) (env : envelope TEventData) (w' : World) : Prop :=
  exists w1 w2,
    getBlockHash c i w1 = (Resolved (env_blockHash env), w2)
    /\ getEvents c i w2 = (Resolved (events env), w').

(** A trace in which every sleep belongs to a poll that found no new
    block and lasts [ms], and every logged error is captured. *)
Definition disciplined (ms : Z) (tr : list (effect Integration)) : Prop :=
  List.length (delays tr) = skips tr
  /\ Forall (fun d => d = ms) (delays tr)
  /\ ignored tr = captured tr.

(** What a result says about a yielded block: nothing unless it is one. *)
Definition traced
    (P : Z -> envelope TEventData -> generator TEventData -> World -> Prop)
    (res : @Monitor.result World TEventData Integration) : Prop :=
  match res with
  | (YieldBlock i env, g, w, _) => P i env g w
  | _ => True
  end.

End Runs.

End MonitorRuns.

(** *** A chain whose first two hash requests reject *)

Module RecoveryScenario.
Import Monitor MonitorScenario.

Definition twice_down : chain world string :=
  scripted identity (fun _ => 100) (fun n => Nat.ltb n 2) no_remains 1000.

Definition after (n : nat) : world :=
  {| clock := 1000 * Z.of_nat n; tip_calls := n; hash_calls := n |}.

Definition block_eleven : envelope string :=
  {| env_blockHash := "0xhash"; events := ["event"%string] |}.

End RecoveryScenario.

(** ** JavaScript string methods the sources call *)

Module JSString.

(** [s.slice(n)] for an index [n >= 0]. *)
Fixpoint slice (n : nat) (s : string) : string :=
  match n, s with
  | O, _ => s
  | S _, EmptyString => EmptyString
  | S n', String _ s' => slice n' s'
  end.

(** ["0".repeat(n)] *)
Fixpoint zeros (n : nat) : string :=
  match n with
  | O => EmptyString
  | S n' => String "0"%char (zeros n')
  end.

(** [s.padEnd(n, "0")]: nothing is added to a string of [n] characters
    or more. *)
Definition padEnd (n : nat) (s : string) : string :=
  (s ++ zeros (n - String.length s))%string.

(** [s.split(",")] *)
Fixpoint split_comma (s : string) : list string :=
  match s with
  | EmptyString => [EmptyString]
  | String c s' =>
      if Ascii.eqb c ","%char then EmptyString :: split_comma s'
      else
        match split_comma s' with
        | piece :: pieces => String c piece :: pieces
        | [] => [String c EmptyString]
        end
  end.

(** How many commas a string holds. *)
Fixpoint commas (s : string) : nat :=
  match s with
  | EmptyString => O
  | String c s' => if Ascii.eqb c ","%char then S (commas s') else commas s'
  end.

(** [s.toLowerCase()] on ASCII letters (addresses are hexadecimal). *)
Definition lower (c : ascii) : ascii :=
  let n := nat_of_ascii c in
  if andb (Nat.leb 65 n) (Nat.leb n 90) then ascii_of_nat (n + 32) else c.

Fixpoint toLowerCase (s : string) : string :=
  match s with
  | EmptyString => EmptyString
  | String c s' => String (lower c) (toLowerCase s')
  end.

End JSString.

(** ** The burn page (pages/swap-wncg.tsx) *)

Module SwapPage.

Definition planetId : string := "0x100000000001".

(** [(planetId + ncAddress.slice(2)).padEnd(66, "0")] *)
Definition burn_to (ncAddress : string) : string :=
  JSString.padEnd 66 (planetId ++ JSString.slice 2 ncAddress).

(** [new Decimal(10).pow(18)] *)
Definition ten_pow_18 : Decimal.t := Decimal.mk 1 18.

(** [new Decimal(amount || "0").mul(new Decimal(10).pow(18))], [null]
    when the constructor of decimal.js, [new_Decimal], throws. *)
Definition burnAmount (new_Decimal : string -> outcome Decimal.value)
    (amount : string) : option Decimal.value :=
  let text := match amount with EmptyString => "0"%string | _ => amount end in
  match new_Decimal text with
  | Resolved d => Some (Decimal.times d (Decimal.Fin ten_pow_18))
  | Rejected _ => None
  end.

End SwapPage.

(** ** The startup of index.ts *)

Module Startup.

(** The settings the body uses, as [Configuration.get] returned them. *)
Record settings : Type := {
  GRAPHQL_API_ENDPOINT : string;
  NCG_MINTER : string;
  KMS_PROVIDER_PUBLIC_KEY : string;
  STAGE_HEADLESSES : string
}.

(** What the body calls: reading the configuration (lines 171-206), opening
    the two stores, [web3.utils.isAddress], [kmsProvider.getAccounts()], the
    two conversions behind the derived address, [monitorStateStore.load],
    and the constructors of the classes that are not among the sources,
    taken in the six groups between the awaited steps; any of them may
    throw. *)
Record collaborators : Type := {
  read_configuration : outcome settings;
  open_monitor_state_store : outcome unit;
  open_exchange_history_store : outcome unit;
  isAddress : string -> bool;
  getAccounts : outcome (list string);
  base64_to_hex : string -> string;
  keccak256 : string -> string;
  load : string -> outcome (option Monitor.TransactionLocation);
  construct : nat -> outcome unit
}.

Inductive event : Type :=
| ConsoleLog (line : string)
| Run (monitor : string) (resumeFrom : option Monitor.TransactionLocation)
| ConsoleError (e : JSError)
| Exit (code : Z).

(** ["0x" + keccak256("0x" + hex(publicKey).slice(2)).slice(26)] *)
Definition derivedAddress (k : collaborators) (publicKey : string) : string :=
  ("0x" ++ JSString.slice 26
             (keccak256 k ("0x" ++ JSString.slice 2 (base64_to_hex k publicKey))))%string.

(** The endpoints of [[headlessGraphQLCLient, ...stageGraphQLClients]]. *)
Definition transfer_endpoints (cfg : settings) : list string :=
  GRAPHQL_API_ENDPOINT cfg :: JSString.split_comma (STAGE_HEADLESSES cfg).

(** A step of the [async] body: what it printed, and how it ended. *)
Definition run_step (A : Type) : Type := list event * outcome A.

Definition lift {A} (m : outcome A) : run_step A := ([], m).

Definition tell (ev : event) : run_step unit := ([ev], Resolved tt).

Definition fail {A} (message : string) : run_step A := ([], Rejected (PlainError message)).

Definition then_ {A B} (m : run_step A) (k : A -> run_step B) : run_step B :=
  match m with
  | (evs, Resolved a) => let '(evs', r) := k a in (evs ++ evs', r)
  | (evs, Rejected e) => (evs, Rejected e)
  end.

(** The body of the [async] function, from the reading of the
    configuration to the two [run()] calls. *)
Definition body (k : collaborators) : run_step unit :=
  then_ (lift (read_configuration k)) (fun cfg =>
  then_ (lift (open_monitor_state_store k)) (fun _ =>
  then_ (lift (open_exchange_history_store k)) (fun _ =>
  then_ (lift (construct k 1)) (fun _ =>
  then_ (if isAddress k (NCG_MINTER cfg) then lift (Resolved tt)
         else fail "NCG_MINTER variable seems invalid because it is not valid address format.")
        (fun _ =>
  then_ (lift (getAccounts k)) (fun kmsAddresses =>
  match kmsAddresses with
  | [kmsAddress] =>
      then_ (tell (ConsoleLog kmsAddress)) (fun _ =>
      then_ (lift (construct k 2)) (fun _ =>
      then_ (if String.eqb (JSString.toLowerCase kmsAddress)
                  (JSString.toLowerCase (derivedAddress k (KMS_PROVIDER_PUBLIC_KEY cfg)))
             then lift (Resolved tt)
             else fail "KMS_PROVIDER_PUBLIC_KEY variable seems invalid because it doesn't match to address from KMS.")
            (fun _ =>
      then_ (lift (construct k 3)) (fun _ =>
      then_ (lift (load k "ethereum")) (fun ethereum =>
      then_ (lift (construct k 4)) (fun _ =>
      then_ (lift (construct k 5)) (fun _ =>
      then_ (lift (load k "nineChronicles")) (fun nineChronicles =>
      then_ (lift (construct k 6)) (fun _ =>
      then_ (tell (Run "ethereum" ethereum)) (fun _ =>
      tell (Run "nineChronicles" nineChronicles)))))))))))
  | _ => fail "NineChronicles.EthBridge is supported only one address."
  end)))))).

(** [(async () => { ... })().catch(error => { console.error(error);
    process.exit(-1); })] *)
Definition main (k : collaborators) : list event :=
  match body k with
  | (evs, Resolved _) => evs
  | (evs, Rejected e) => evs ++ [ConsoleError e; Exit (-1)]
  end.

Definition is_run (ev : event) : bool :=
  match ev with Run _ _ => true | _ => false end.

End Startup.

(** *** A startup that passes every check *)

Module StartupScenario.
Import Startup.

Definition cursor : Monitor.TransactionLocation :=
  {| Monitor.blockHash := "0xcursor"; Monitor.txId := "0xtx" |}.

Definition healthy (accounts : list string) : collaborators :=
  {| read_configuration :=
       Resolved {| GRAPHQL_API_ENDPOINT := "http://primary";
                   NCG_MINTER := "0xminter";
                   KMS_PROVIDER_PUBLIC_KEY := "cGs=";
                   STAGE_HEADLESSES := "http://a,http://b" |};
     open_monitor_state_store := Resolved tt;
     open_exchange_history_store := Resolved tt;
     isAddress := fun _ => true;
     getAccounts := Resolved accounts;
     base64_to_hex := fun _ => "04aabb"%string;
     keccak256 := fun _ => "0x000000000000000000000000AbCdEf0000000000000000000000000000000001"%string;
     load := fun name => Resolved (if String.eqb name "ethereum" then Some cursor else None);
     construct := fun _ => Resolved tt |}.

Definition kms : string := "0xabcdef0000000000000000000000000000000001".

End StartupScenario.

(** * Properties *)

(** Membership of a literal element in a literal list. *)
Ltac find_in_list := repeat (first [left; reflexivity | right]).

(** ** Runs of the definitions on concrete inputs *)

Example parse_50_011 : Decimal.of_string "50.011" = Some (Decimal.mk 50011 (-3)).
Proof. reflexivity. Qed.

Example scenario_partial :
  Transfer.transfer TransferScenario.lib
    (TransferScenario.bridge [TransferScenario.primary; TransferScenario.refusing; TransferScenario.accepting])
    "0xabc" "50.011" None
  = (Resolved "sha256:signed"%string,
     [Transfer.CreateUnsignedTx 0
        "{type_id:transfer_asset3,values:{amount:[{decimalPlaces:<2>,minters:[<8>],ticker:NCG},5001],recipient:<5>,sender:<8>}}"
        "pk";
      Transfer.Sign "unsigned";
      Transfer.StageTx 0 "signed"; Transfer.StageTx 1 "signed"; Transfer.StageTx 2 "signed";
      Transfer.StageResolved 1 false; Transfer.StageResolved 2 true;
      Transfer.StageRejected 0 (External "timeout")]).
Proof. vm_compute. reflexivity. Qed.

Example scenario_total_failure :
  Transfer.transfer TransferScenario.lib
    (TransferScenario.bridge [TransferScenario.primary; TransferScenario.refusing])
    "0xabc" "50.011" None
  = (Rejected (PlainError "Failed to stage transaction"),
     [Transfer.CreateUnsignedTx 0
        "{type_id:transfer_asset3,values:{amount:[{decimalPlaces:<2>,minters:[<8>],ticker:NCG},5001],recipient:<5>,sender:<8>}}"
        "pk";
      Transfer.Sign "unsigned";
      Transfer.StageTx 0 "signed"; Transfer.StageTx 1 "signed";
      Transfer.StageResolved 1 false; Transfer.StageRejected 0 (External "timeout")]).
Proof. vm_compute. reflexivity. Qed.

Example scenario_no_client :
  Transfer.transfer TransferScenario.lib (TransferScenario.bridge []) "0xabc" "50.011" None
  = (Rejected (TypeError "Cannot read properties of undefined"), []).
Proof. vm_compute. reflexivity. Qed.

Example parse_examples :
  Decimal.parse "1e2" = Some (Decimal.Fin (Decimal.mk 1 2)) /\
  Decimal.parse "1E-18" = Some (Decimal.Fin (Decimal.mk 1 (-18))) /\
  Decimal.parse "-12.50e+3" = Some (Decimal.Fin (Decimal.mk (-125) 2)) /\
  Decimal.parse ".5" = Some (Decimal.Fin (Decimal.mk 5 (-1))) /\
  Decimal.parse "5." = Some (Decimal.Fin (Decimal.mk 5 0)) /\
  Decimal.parse "-Infinity" = Some (Decimal.Inf true) /\
  Decimal.parse "NaN" = Some Decimal.NaN /\
  Decimal.parse "1e9000000000000001" = Some (Decimal.Inf false) /\
  Decimal.parse "1e-9000000000000001" = Some (Decimal.Fin (Decimal.mk 0 0)) /\
  Decimal.parse "1e" = None /\
  Decimal.parse "." = None /\
  Decimal.parse "" = None /\
  Decimal.parse "1,5" = None.
Proof. vm_compute. repeat split. Qed.

Example amount_examples :
  Transfer.ncgAmount TransferScenario.lib "0.01" = Resolved (Decimal.Finite 1) /\
  Transfer.ncgAmount TransferScenario.lib "50.00" = Resolved (Decimal.Finite 5000) /\
  Transfer.ncgAmount TransferScenario.lib "50.011" = Resolved (Decimal.Finite 5001) /\
  Transfer.ncgAmount TransferScenario.lib "1e2" = Resolved (Decimal.Finite 10000) /\
  Transfer.ncgAmount TransferScenario.lib "90071992547409.93" = Resolved (Decimal.Finite 9007199254740992) /\
  Transfer.ncgAmount TransferScenario.lib "0.009999999999999999999999" = Resolved (Decimal.Finite 1) /\
  Transfer.ncgAmount TransferScenario.lib "-0.011" = Resolved (Decimal.Finite (-2)) /\
  Transfer.ncgAmount TransferScenario.lib "Infinity" = Resolved (Decimal.Infinity false) /\
  Transfer.ncgAmount TransferScenario.lib "NaN" = Resolved Decimal.NotANumber.
Proof. vm_compute. repeat split. Qed.

Example mint_happy :
  Minter.mint (MinterScenario.minter (MinterScenario.node (Resolved "100"%string) (Resolved MinterScenario.receipt)))
    "0xrecipient" (Decimal.mk 5 18) MinterScenario.quiet MinterScenario.quiet
  = [ Minter.ConsoleLog "0xwncg" "0xrecipient"; Minter.GetGasPrice;
      Minter.Send "0xrecipient" 5000000000000000000
        {| Minter.from := Some "0xkms"%string; Minter.gasPrice := Some 200;
           Minter.maxPriorityFeePerGas := None |};
      Minter.Callback MinterScenario.receipt ].
Proof. vm_compute. reflexivity. Qed.

(** ** decimal.js arithmetic *)

Section DecimalFacts.
Import Decimal.

Lemma pow10_pos (n : Z) : 0 <= n -> 0 < 10 ^ n.
Proof. intros; apply Z.pow_pos_nonneg; lia. Qed.

Lemma pow10_succ (n : Z) : 0 <= n -> 10 ^ (n + 1) = 10 * 10 ^ n.
Proof. intros; rewrite Z.pow_add_r by lia; rewrite Z.pow_1_r; ring. Qed.

(** Moving a factor ten from the coefficient to the exponent does not
    change the integer part. *)
Lemma floor_shift (c e : Z) :
  c mod 10 = 0 -> floor (mk (c / 10) (e + 1)) = floor (mk c e).
Proof.
  intros Hm. unfold floor; cbn [coef exp].
  assert (Hc : c = 10 * (c / 10)) by (apply Z.div_exact; lia).
  destruct (Z.leb_spec 0 e) as [He | He].
  - destruct (Z.leb_spec 0 (e + 1)); [ | lia].
    rewrite pow10_succ by lia. rewrite Hc at 2. ring.
  - destruct (Z.leb_spec 0 (e + 1)) as [He1 | He1].
    + replace e with (-1) by lia. cbn. rewrite Z.mul_1_r. reflexivity.
    + replace (- e) with ((- (e + 1)) + 1) by lia.
      rewrite pow10_succ by lia.
      rewrite <- Z.div_div by (try apply pow10_pos; lia).
      reflexivity.
Qed.

Lemma floor_zero (e : Z) : floor (mk 0 e) = 0.
Proof.
  unfold floor; cbn [coef exp]. destruct (0 <=? e); [ring | apply Zdiv_0_l].
Qed.

Lemma floor_strip_zeros (fuel : nat) :
  forall c e, floor (strip_zeros fuel c e) = floor (mk c e).
Proof.
  induction fuel as [ | fuel IH]; intros c e; cbn [strip_zeros]; [reflexivity | ].
  destruct (Z.eqb_spec c 0) as [-> | Hc].
  - rewrite !floor_zero. reflexivity.
  - destruct (Z.eqb_spec (c mod 10) 0) as [Hm | Hm]; [ | reflexivity].
    rewrite IH. apply floor_shift; assumption.
Qed.

Lemma floor_normalise (d : t) : floor (normalise d) = floor d.
Proof. unfold normalise. rewrite floor_strip_zeros. destruct d; reflexivity. Qed.

(** The coefficient left by [strip_zeros] does not depend on the
    exponent it started from. *)
Lemma coef_strip_zeros (fuel : nat) :
  forall c e e', coef (strip_zeros fuel c e) = coef (strip_zeros fuel c e').
Proof.
  induction fuel as [ | fuel IH]; intros c e e'; cbn [strip_zeros]; [reflexivity | ].
  destruct (c =? 0); [reflexivity | ].
  destruct (c mod 10 =? 0); [apply IH | reflexivity].
Qed.

(** Multiplying by one hundred within the precision is exact: the
    integer part of the product is that of the coefficient moved two
    places. *)
Lemma floor_mul_hundred (a : t) :
  sd a <= precision ->
  floor (mul a (of_Z 100)) = floor (mk (coef a) (exp a + 2)).
Proof.
  intros Hsd.
  change (of_Z 100) with (mk 1 2).
  unfold mul; cbn [coef exp]. rewrite Z.mul_1_r.
  unfold finalise.
  assert (Hc : coef (normalise (mk (coef a) (exp a + 2))) = coef (normalise a)).
  { unfold normalise; cbn [coef exp]. apply coef_strip_zeros. }
  rewrite Hc. fold (sd a).
  destruct (Z.leb_spec (sd a) precision); [ | lia].
  apply floor_normalise.
Qed.

(** [floor] against the rational value: two places to the left is the
    spec's [floor(amount * 100)]. *)
Lemma floor_shift2_Q (c e : Z) :
  floor (mk c (e + 2)) = Qfloor (to_Q (mk c e) * 100).
Proof.
  unfold floor, to_Q; cbn [coef exp].
  destruct (Z.leb_spec 0 e) as [He | He].
  - destruct (Z.leb_spec 0 (e + 2)); [ | lia].
    unfold Qfloor, Qmult, inject_Z; cbn [Qnum Qden].
    rewrite Z.pow_add_r by lia. change (10 ^ 2) with 100.
    change (Z.pos (1 * 1)) with 1. rewrite Z.div_1_r. ring.
  - pose proof (pow10_pos (- e) ltac:(lia)) as Hp.
    unfold Qfloor, Qmult; cbn [Qnum Qden].
    rewrite Pos.mul_1_r. rewrite Z2Pos.id by assumption.
    destruct (Z.leb_spec 0 (e + 2)) as [He2 | He2].
    + assert (e = -1 \/ e = -2) as [-> | ->] by lia; cbn.
      * replace (c * 100) with (c * 10 * 10) by ring.
        rewrite Z.div_mul by lia. reflexivity.
      * rewrite Z.div_mul by lia. ring.
    + replace (- e) with (2 + (- (e + 2))) by lia.
      rewrite Z.pow_add_r by lia. change (10 ^ 2) with 100.
      rewrite (Z.mul_comm c 100).
      rewrite Z.div_mul_cancel_l; [reflexivity | | lia].
      pose proof (pow10_pos (- (e + 2)) ltac:(lia)). lia.
Qed.

Lemma toNumber_exact (n : Z) : Z.abs n < 2 ^ 53 -> toNumber n = Finite n.
Proof.
  intros Hn. unfold toNumber, round53.
  destruct (Z.ltb_spec (Z.abs n) (2 ^ 53)); [ | lia].
  destruct (Z.leb_spec (2 ^ 1024) (Z.abs n)) as [Hbig | _].
  - exfalso. assert (2 ^ 53 <= 2 ^ 1024) by (apply Z.pow_le_mono_r; lia). lia.
  - f_equal. rewrite Z.mul_comm. apply Z.abs_sgn.
Qed.

Lemma floor_of_Z (n : Z) : floor (of_Z n) = n.
Proof.
  unfold of_Z. rewrite floor_normalise. unfold floor; cbn [coef exp].
  change (0 <=? 0) with true. cbn. apply Z.mul_1_r.
Qed.

(** *** The exponent range *)

Lemma exp_strip_zeros_shift (fuel : nat) (k : Z) :
  forall c e, c <> 0 ->
    exp (strip_zeros fuel c (e + k)) = exp (strip_zeros fuel c e) + k.
Proof.
  induction fuel as [ | fuel IH]; intros c e Hc; cbn [strip_zeros]; [reflexivity | ].
  destruct (Z.eqb_spec c 0) as [H0 | _]; [contradiction | ].
  destruct (Z.eqb_spec (c mod 10) 0) as [Hm | _]; [ | reflexivity].
  replace (e + k + 1) with (e + 1 + k) by ring. apply IH.
  intros Hq. apply Hc. rewrite (Z.div_mod c 10), Hq, Hm by lia. reflexivity.
Qed.

Lemma coef_strip_zeros_nonzero (fuel : nat) :
  forall c e, c <> 0 -> coef (strip_zeros fuel c e) <> 0.
Proof.
  induction fuel as [ | fuel IH]; intros c e Hc; cbn [strip_zeros]; [exact Hc | ].
  destruct (Z.eqb_spec c 0) as [H0 | _]; [contradiction | ].
  destruct (Z.eqb_spec (c mod 10) 0) as [Hm | _]; [ | exact Hc].
  apply IH. intros Hq. apply Hc. rewrite (Z.div_mod c 10), Hq, Hm by lia. reflexivity.
Qed.

Lemma normalise_zero (d : t) : coef d = 0 -> normalise d = mk 0 0.
Proof. destruct d as [c e]; cbn [coef]; intros ->. reflexivity. Qed.

(** Within the precision, multiplying by a power of ten moves the
    exponent and nothing else. *)
Lemma mul_power (a : t) (k : Z) :
  sd a <= precision ->
  mul a (mk 1 k) = normalise (mk (coef a) (exp a + k)).
Proof.
  intros Hsd. unfold mul; cbn [coef exp]. rewrite Z.mul_1_r.
  unfold finalise.
  assert (Hc : coef (normalise (mk (coef a) (exp a + k))) = coef (normalise a)).
  { unfold normalise; cbn [coef exp]. apply coef_strip_zeros. }
  rewrite Hc. fold (sd a).
  destruct (Z.leb_spec (sd a) precision); [reflexivity | lia].
Qed.

Lemma sci_exp_shift (a : t) (k : Z) :
  coef a <> 0 ->
  sci_exp (normalise (mk (coef a) (exp a + k))) = sci_exp (normalise a) + k.
Proof.
  intros Hc. unfold sci_exp, normalise; cbn [coef exp].
  rewrite (coef_strip_zeros _ (coef a) (exp a + k) (exp a)).
  rewrite exp_strip_zeros_shift by exact Hc. ring.
Qed.

(** A product by a power of ten that stays below the largest exponent is
    kept as it is. *)
Lemma clamp_mul_power (a : t) (k : Z) :
  representable a ->
  sd a <= precision ->
  0 <= k ->
  (coef a <> 0 -> sci_exp (normalise a) + k <= maxE) ->
  clamp (mul a (mk 1 k)) = Fin (mul a (mk 1 k)).
Proof.
  intros Hrep Hsd Hk Hmax. rewrite mul_power by exact Hsd. unfold clamp.
  destruct (Z.eq_dec (coef a) 0) as [H0 | Hc].
  - rewrite (normalise_zero (mk (coef a) (exp a + k))) by exact H0. reflexivity.
  - destruct Hrep as [H0 | [Hlow Hhigh]]; [contradiction | ].
    specialize (Hmax Hc).
    destruct (Z.eqb_spec (coef (normalise (mk (coef a) (exp a + k)))) 0) as [ | _];
      [reflexivity | ].
    rewrite sci_exp_shift by exact Hc.
    destruct (Z.ltb_spec maxE (sci_exp (normalise a) + k)); [lia | ].
    destruct (Z.ltb_spec (sci_exp (normalise a) + k) (- maxE)); [lia | ].
    reflexivity.
Qed.

(** An integer part below [2^53] leaves the hundredfold far below the
    largest exponent. *)
Lemma small_floor_in_range (a : t) :
  coef a <> 0 ->
  sd a <= precision ->
  Z.abs (floor (mk (coef a) (exp a + 2))) < 2 ^ 53 ->
  sci_exp (normalise a) + 2 <= maxE.
Proof.
  intros Hc Hsd Hsmall.
  rewrite <- sci_exp_shift by exact Hc.
  rewrite <- floor_normalise in Hsmall.
  assert (Hdigits : num_digits (coef (normalise (mk (coef a) (exp a + 2)))) = sd a).
  { unfold sd, normalise; cbn [coef exp]. f_equal. apply coef_strip_zeros. }
  set (d := normalise (mk (coef a) (exp a + 2))) in *.
  unfold sci_exp. rewrite Hdigits.
  destruct (Z.le_gt_cases (sd a + exp d - 1) maxE) as [Hle | Hgt];
    [exact Hle | exfalso].
  assert (Hexp : 60 < exp d).
  { unfold precision in Hsd. unfold maxE in Hgt.
    assert (100 < 9 * 10 ^ 15) by (vm_compute; reflexivity). lia. }
  assert (Hnz : coef d <> 0).
  { subst d. unfold normalise; cbn [coef exp].
    apply coef_strip_zeros_nonzero. exact Hc. }
  unfold floor in Hsmall.
  destruct (Z.leb_spec 0 (exp d)); [ | lia].
  assert (H60 : 10 ^ 60 <= 10 ^ exp d) by (apply Z.pow_le_mono_r; lia).
  assert (Habs : 10 ^ exp d <= Z.abs (coef d * 10 ^ exp d)).
  { rewrite Z.abs_mul. pose proof (pow10_pos (exp d) ltac:(lia)).
    rewrite (Z.abs_eq (10 ^ exp d)) by lia. nia. }
  assert (2 ^ 53 < 10 ^ 60) by (vm_compute; reflexivity). lia.
Qed.

(** The pipeline [mul(100).floor().toNumber()] on a finite value within
    the exact range. *)
Lemma ncgAmount_of_finite (a : t) :
  representable a ->
  sd a <= precision ->
  Z.abs (Qfloor (to_Q a * 100)) < 2 ^ 53 ->
  toNumber_value (floor_value (times (Fin a) (Fin (of_Z 100))))
  = Finite (Qfloor (to_Q a * 100)).
Proof.
  intros Hrep Hsd Hsmall.
  assert (Hfloor : floor (mk (coef a) (exp a + 2)) = Qfloor (to_Q a * 100)).
  { destruct a as [c e]; cbn [coef exp]. apply floor_shift2_Q. }
  cbn [times]. change (of_Z 100) with (mk 1 2).
  rewrite clamp_mul_power; [ | exact Hrep | exact Hsd | lia | ].
  - cbn [floor_value toNumber_value]. rewrite floor_of_Z.
    change (mk 1 2) with (of_Z 100). rewrite floor_mul_hundred by exact Hsd.
    rewrite Hfloor. apply toNumber_exact. exact Hsmall.
  - intros Hc. apply small_floor_in_range; [exact Hc | exact Hsd | ].
    rewrite Hfloor. exact Hsmall.
Qed.

End DecimalFacts.

(** ** [NCGKMSTransfer.transfer] *)

Section ArrivalFacts.
Import Transfer.

Lemma insert_at_perm {A} (x : A) (l : list A) :
  forall k, Permutation (insert_at k x l) (x :: l).
Proof.
  induction l as [ | y l IH]; intros [ | k]; cbn [insert_at]; try reflexivity.
  rewrite IH. apply perm_swap.
Qed.

(** Whatever the order in which they settle, the answers are those of the
    clients, each once. *)
Lemma arrival_perm {A} (l : list A) :
  forall picks, Permutation (arrival picks l) l.
Proof.
  induction l as [ | x l IH]; intros picks; cbn [arrival]; [reflexivity | ].
  rewrite insert_at_perm. apply perm_skip, IH.
Qed.

Lemma In_arrival {A} (picks : list nat) (l : list A) (x : A) :
  In x (arrival picks l) <-> In x l.
Proof.
  split; apply Permutation_in;
    [apply arrival_perm | apply Permutation_sym, arrival_perm].
Qed.

Lemma arrival_in_order {A} (l : list A) : arrival [] l = l.
Proof.
  induction l as [ | x l IH]; cbn [arrival hd tl insert_at]; [reflexivity | ].
  rewrite IH. destruct l; reflexivity.
Qed.

Lemma In_answers {A B} (f : A -> B) (picks : list nat) (l : list A) (y : B) :
  In y (map f (arrival picks l)) <-> In y (map f l).
Proof.
  rewrite !in_map_iff.
  split; intros [x [Hx Hin]]; exists x; (split; [exact Hx | ]);
    apply (In_arrival picks l x); exact Hin.
Qed.

End ArrivalFacts.

Section TransferFacts.
Import Transfer.

Variable lib : library.
Variable self : ncg_kms_transfer.

Lemma embedded_in_plainValue (address : string) (n : Decimal.number)
    (memo : option string) (pv : plain) :
  plainValue lib self address n memo = Resolved pv ->
  embedded_amount pv = Some n.
Proof.
  unfold plainValue, bind.
  destruct (map_outcome (hexToBytes lib) (_minters self)); [ | discriminate].
  destruct (hexToBytes lib address); [ | discriminate].
  destruct (hexToBytes lib (_address self)); [ | discriminate].
  intros [= <-]. destruct memo; reflexivity.
Qed.

(** Every [createUnsignedTx] request of a call carries the encoding of a
    plain value built from [ncgAmount lib amount]. *)
Lemma create_request_payload (address amount : string) (memo : option string)
    (i : nat) (payload pk : string) :
  In (CreateUnsignedTx i payload pk) (snd (transfer lib self address amount memo)) ->
  exists n pv,
    ncgAmount lib amount = Resolved n
    /\ plainValue lib self address n memo = Resolved pv
    /\ payload = encode_base64 lib pv
    /\ i = 0%nat.
Proof.
  unfold transfer.
  destruct (ncgAmount lib amount) as [n | e] eqn:Hn; [ | intros []].
  destruct (plainValue lib self address n memo) as [pv | e] eqn:Hpv; [ | intros []].
  destruct (headlessGraphQLClient self) as [primary | ]; [ | intros []].
  assert (Hstage : forall tx j p k,
             ~ In (CreateUnsignedTx j p k) (snd (stage lib self tx))).
  { intros tx j p k. unfold stage; cbn [snd]. rewrite in_app_iff, !in_map_iff.
    intros [[x [Hx _]] | [x [Hx Hin]]]; [discriminate | ].
    apply In_arrival, in_map_iff in Hin as [ic [<- _]].
    unfold settle in Hx. destruct (stageTx (snd ic) _); discriminate. }
  intros Hin.
  assert (Hhead : CreateUnsignedTx 0 (encode_base64 lib pv) (_publicKey self)
                  = CreateUnsignedTx i payload pk).
  { destruct (createUnsignedTx primary _ _) as [u | e].
    - destruct (_signer self _) as [tx | e].
      + specialize (Hstage tx). destruct (stage lib self tx) as [r evs].
        cbn in Hin. destruct Hin as [H | [H | Hin]]; [exact H | discriminate | ].
        exfalso; eapply Hstage; exact Hin.
      + cbn in Hin. destruct Hin as [H | [H | []]]; [exact H | discriminate].
    - cbn in Hin. destruct Hin as [H | []]; exact H. }
  injection Hhead as <- <- _.
  exists n, pv. repeat split; assumption.
Qed.

End TransferFacts.

(** C6 (as amended). For every amount that the constructor of decimal.js
    reads as a finite Decimal of at most 20 significant digits whose
    hundredfold is below 2^53 in magnitude, the integer placed in the
    [transfer_asset3] plain value, and sent with every [createUnsignedTx]
    request of the call, is [floor(amount * 100)]. (The Decimal is one the
    library holds: its exponent is within the library's range.) *)
Theorem transfer_amount_is_floor
    (lib : Transfer.library) (self : Transfer.ncg_kms_transfer)
    (address amount : string) (memo : option string) (a : Decimal.t) :
  Transfer.new_Decimal lib amount = Resolved (Decimal.Fin a) ->
  Decimal.representable a ->
  Decimal.sd a <= Decimal.precision ->
  Z.abs (Transfer.spec_integerAmount (Decimal.to_Q a)) < 2 ^ 53 ->
  let integerAmount := Decimal.Finite (Transfer.spec_integerAmount (Decimal.to_Q a)) in
  Transfer.ncgAmount lib amount = Resolved integerAmount
  /\ forall i payload pk,
       In (Transfer.CreateUnsignedTx i payload pk)
          (snd (Transfer.transfer lib self address amount memo)) ->
       exists pv, payload = Transfer.encode_base64 lib pv
                  /\ Transfer.embedded_amount pv = Some integerAmount.
Proof.
  intros Hparse Hrep Hsd Hsmall integerAmount.
  assert (Hn : Transfer.ncgAmount lib amount = Resolved integerAmount).
  { unfold Transfer.ncgAmount. rewrite Hparse. f_equal.
    apply ncgAmount_of_finite; assumption. }
  split; [exact Hn | ].
  intros i payload pk Hin.
  destruct (create_request_payload lib self address amount memo i payload pk Hin)
    as (n & pv & Hn' & Hpv & -> & _).
  rewrite Hn in Hn'. injection Hn' as <-.
  exists pv. split; [reflexivity | ].
  eapply embedded_in_plainValue; eassumption.
Qed.

Lemma transfer_amount_is_floor_witness :
  Transfer.ncgAmount TransferScenario.lib "50.011" = Resolved (Decimal.Finite 5001)
  /\ forall i payload pk,
       In (Transfer.CreateUnsignedTx i payload pk)
          (snd (Transfer.transfer TransferScenario.lib
                  (TransferScenario.bridge
                     [TransferScenario.primary; TransferScenario.accepting])
                  "0xabc" "50.011" (Some "refund"%string))) ->
       exists pv, payload = Transfer.encode_base64 TransferScenario.lib pv
                  /\ Transfer.embedded_amount pv = Some (Decimal.Finite 5001).
Proof.
  apply (transfer_amount_is_floor TransferScenario.lib
           (TransferScenario.bridge
              [TransferScenario.primary; TransferScenario.accepting])
           "0xabc" "50.011" (Some "refund"%string) (Decimal.mk 50011 (-3))).
  - reflexivity.
  - right. vm_compute. split; discriminate.
  - vm_compute. discriminate.
  - vm_compute. reflexivity.
Defined.

(** C6 (as stated) fails where a double cannot hold the integer: the
    amount 90071992547409.93 has the hundredfold 2^53 + 1, and [toNumber]
    gives 2^53. *)
Lemma transfer_amount_not_floor :
  exists a,
    Transfer.new_Decimal TransferScenario.lib "90071992547409.93"
    = Resolved (Decimal.Fin a)
    /\ Transfer.spec_integerAmount (Decimal.to_Q a) = 9007199254740993
    /\ Transfer.ncgAmount TransferScenario.lib "90071992547409.93"
       = Resolved (Decimal.Finite 9007199254740992)
    /\ Transfer.ncgAmount TransferScenario.lib "90071992547409.93"
       <> Resolved (Decimal.Finite (Transfer.spec_integerAmount (Decimal.to_Q a))).
Proof.
  exists (Decimal.mk 9007199254740993 (-2)).
  repeat split; try (vm_compute; reflexivity).
  vm_compute. discriminate.
Qed.

(** Past the 20 significant digits of decimal.js the product is rounded
    half up before [floor] sees it. *)
Example precision_rounds_up :
  Transfer.ncgAmount TransferScenario.lib "0.009999999999999999999999"
  = Resolved (Decimal.Finite 1)
  /\ Transfer.spec_integerAmount (9999999999999999999999 # 1000000000000000000000000) = 0.
Proof. split; vm_compute; reflexivity. Qed.

(** The same amount in exponent notation, and amounts that are not finite:
    the constructor reads them, and the call goes on with them. *)
Example amount_spellings :
  Transfer.ncgAmount TransferScenario.lib "5.0011e1" = Resolved (Decimal.Finite 5001)
  /\ Transfer.ncgAmount TransferScenario.lib "-Infinity"
     = Resolved (Decimal.Infinity true).
Proof. split; vm_compute; reflexivity. Qed.

(** *** The staging fan-out *)

Section StageFacts.
Import Transfer.

Lemma In_combine_seq {A} (l : list A) :
  forall (s i : nat) (x : A),
    In (i, x) (combine (seq s (List.length l)) l)
    <-> (s <= i)%nat /\ nth_error l (i - s) = Some x.
Proof.
  induction l as [ | y l IH]; intros s i x; cbn [List.length seq combine].
  - split; [intros [] | intros [_ H]]. destruct (i - s)%nat; discriminate.
  - cbn [In]. rewrite IH. split.
    + intros [[= <- <-] | [Hle Hn]].
      * split; [lia | ]. rewrite Nat.sub_diag. reflexivity.
      * split; [lia | ]. replace (i - s)%nat with (S (i - S s)) by lia. exact Hn.
    + intros [Hle Hn]. destruct (Nat.eq_dec s i) as [<- | Hne].
      * rewrite Nat.sub_diag in Hn. injection Hn as <-. left; reflexivity.
      * right. split; [lia | ].
        replace (i - s)%nat with (S (i - S s)) in Hn by lia. exact Hn.
Qed.

Lemma In_indexed {A} (l : list A) (i : nat) (x : A) :
  In (i, x) (indexed l) <-> nth_error l i = Some x.
Proof.
  unfold indexed. rewrite In_combine_seq, Nat.sub_0_r. intuition lia.
Qed.

Lemma map_fst_indexed {A} (l : list A) :
  map fst (indexed l) = seq 0 (List.length l).
Proof.
  unfold indexed. generalize 0%nat.
  induction l as [ | x l IH]; intros s; [reflexivity | ].
  cbn [List.length seq combine map fst]. rewrite IH. reflexivity.
Qed.

Lemma fold_left_orb (l : list bool) :
  forall b, fold_left orb l b = true <-> b = true \/ In true l.
Proof.
  induction l as [ | x l IH]; intros b; cbn [fold_left In].
  - intuition.
  - rewrite IH, orb_true_iff. intuition.
Qed.

Lemma reduce_or_spec (l : list bool) :
  l <> [] ->
  exists b, reduce_or l = Resolved b /\ (b = true <-> In true l).
Proof.
  destruct l as [ | x l]; [congruence | intros _].
  exists (fold_left orb l x). split; [reflexivity | ].
  rewrite fold_left_orb. cbn [In]. intuition.
Qed.

Variable lib : library.
Variable self : ncg_kms_transfer.

Let clients := _headlessGraphQLCLients self.

(** The events of the fan-out: one request per client, one handler per
    client. *)
Lemma stage_events (tx : string) (ev : event) :
  In ev (snd (stage lib self tx))
  <-> exists i c, nth_error clients i = Some c
                  /\ (ev = StageTx i (hex_to_base64 lib tx)
                      \/ ev = fst (settle (hex_to_base64 lib tx) (i, c))).
Proof.
  unfold stage; cbn [snd]. rewrite in_app_iff, In_answers, map_map, !in_map_iff. split.
  - intros [[[i c] [<- Hin]] | [[i c] [<- Hin]]];
      apply In_indexed in Hin; exists i, c; auto.
  - intros (i & c & Hn & [-> | ->]); apply In_indexed in Hn;
      [left | right]; exists (i, c); auto.
Qed.

(** The fan-out resolves exactly when some client accepted. *)
Lemma stage_outcome (tx : string) :
  clients <> [] ->
  (fst (stage lib self tx) = Resolved (sha256_hex lib tx)
   /\ exists i c, nth_error clients i = Some c
                  /\ stageTx c (hex_to_base64 lib tx) = Resolved true)
  \/ (fst (stage lib self tx) = Rejected (PlainError "Failed to stage transaction")
      /\ ~ exists i c, nth_error clients i = Some c
                       /\ stageTx c (hex_to_base64 lib tx) = Resolved true).
Proof.
  intros Hne. unfold stage; cbn [fst].
  set (payload := hex_to_base64 lib tx).
  set (results := map snd (map (settle payload) (indexed (_headlessGraphQLCLients self)))).
  assert (Hres : results <> []).
  { subst results. unfold indexed. fold clients.
    destruct clients; [congruence | discriminate]. }
  destruct (reduce_or_spec results Hres) as (b & -> & Hb). cbn [bind].
  assert (Hacc : In true results
                 <-> exists i c, nth_error clients i = Some c
                                 /\ stageTx c payload = Resolved true).
  { subst results. rewrite map_map, in_map_iff. split.
    - intros [[i c] [Hs Hin]]. apply In_indexed in Hin. exists i, c. split; [exact Hin | ].
      unfold settle in Hs; cbn [fst snd] in Hs.
      destruct (stageTx c payload) as [[ | ] | ]; cbn in Hs; congruence.
    - intros (i & c & Hn & Hs). exists (i, c). split; [ | apply In_indexed; exact Hn].
      unfold settle; cbn [fst snd]. rewrite Hs. reflexivity. }
  destruct b.
  - left. split; [reflexivity | ]. apply Hacc, Hb. reflexivity.
  - right. split; [reflexivity | ]. intros H. apply Hacc, Hb in H. discriminate.
Qed.

(** A call either stops before staging, or runs the fan-out on the
    signed transaction. *)
Lemma transfer_cases (address amount : string) (memo : option string) :
  (exists e, fst (transfer lib self address amount memo) = Rejected e
             /\ forall ev, In ev (snd (transfer lib self address amount memo)) ->
                  (exists p k, ev = CreateUnsignedTx 0 p k) \/ (exists u, ev = Sign u))
  \/ (exists p k u tx,
        clients <> []
        /\ _signer self u = Resolved tx
        /\ fst (transfer lib self address amount memo) = fst (stage lib self tx)
        /\ snd (transfer lib self address amount memo)
           = [CreateUnsignedTx 0 p k; Sign u] ++ snd (stage lib self tx)).
Proof.
  unfold transfer.
  destruct (ncgAmount lib amount) as [n | e];
    [ | left; exists e; split; [reflexivity | intros ev []]].
  destruct (plainValue lib self address n memo) as [pv | e];
    [ | left; exists e; split; [reflexivity | intros ev []]].
  destruct (headlessGraphQLClient self) as [primary | ] eqn:Hp;
    [ | left; eexists; split; [reflexivity | intros ev []]].
  destruct (createUnsignedTx primary _ _) as [u | e].
  - destruct (_signer self _) as [tx | e] eqn:Hs.
    + right. exists (encode_base64 lib pv), (_publicKey self), (base64_to_hex lib u), tx.
      destruct (stage lib self tx) as [r evs]. repeat split; try assumption.
      unfold headlessGraphQLClient in Hp. fold clients in Hp.
      destruct clients; [discriminate | congruence].
    + left. exists e. split; [reflexivity | ].
      intros ev [<- | [<- | []]]; eauto.
  - left. exists e. split; [reflexivity | ].
    intros ev [<- | []]; eauto.
Qed.

End StageFacts.

Section FanoutFacts.
Import Transfer.

Variable lib : library.
Variable self : ncg_kms_transfer.

Let clients := _headlessGraphQLCLients self.

Lemma stage_request (tx : string) (i : nat) (p : string) :
  In (StageTx i p) (snd (stage lib self tx))
  <-> p = hex_to_base64 lib tx /\ exists c, nth_error clients i = Some c.
Proof.
  rewrite stage_events. split.
  - intros (j & c & Hn & [[= -> ->] | H]); [eauto | ].
    unfold settle in H; cbn [fst snd] in H. destruct (stageTx c _); discriminate.
  - intros [-> [c Hn]]. exists i, c. auto.
Qed.

Lemma stage_resolved (tx : string) (i : nat) (b : bool) :
  In (StageResolved i b) (snd (stage lib self tx))
  <-> exists c, nth_error clients i = Some c
                /\ stageTx c (hex_to_base64 lib tx) = Resolved b.
Proof.
  rewrite stage_events. split.
  - intros (j & c & Hn & [H | H]); [discriminate | ].
    unfold settle in H; cbn [fst snd] in H.
    destruct (stageTx c _) eqn:Hs; [ | discriminate].
    injection H as -> ->. eauto.
  - intros (c & Hn & Hs). exists i, c. split; [exact Hn | right].
    unfold settle; cbn [fst snd]. rewrite Hs. reflexivity.
Qed.

Lemma stage_rejected (tx : string) (i : nat) (e : JSError) :
  In (StageRejected i e) (snd (stage lib self tx))
  <-> exists c, nth_error clients i = Some c
                /\ stageTx c (hex_to_base64 lib tx) = Rejected e.
Proof.
  rewrite stage_events. split.
  - intros (j & c & Hn & [H | H]); [discriminate | ].
    unfold settle in H; cbn [fst snd] in H.
    destruct (stageTx c _) eqn:Hs; [discriminate | ].
    injection H as -> ->. eauto.
  - intros (c & Hn & Hs). exists i, c. split; [exact Hn | right].
    unfold settle; cbn [fst snd]. rewrite Hs. reflexivity.
Qed.

(** Membership in a trace that ran the fan-out. *)
Lemma In_staged_trace (p k u tx : string) (ev : event) :
  is_staging ev = true ->
  In ev ([CreateUnsignedTx 0 p k; Sign u] ++ snd (stage lib self tx))
  <-> In ev (snd (stage lib self tx)).
Proof.
  intros Hst. cbn [app In]. split; [ | auto].
  intros [<- | [<- | H]]; [discriminate | discriminate | exact H].
Qed.

(** All requests of the fan-out leave before the first answer is
    handled. *)
Lemma requests_before_answers (address amount : string) (memo : option string) :
  exists before requests answers,
    snd (transfer lib self address amount memo) = before ++ requests ++ answers
    /\ forallb (fun ev => negb (is_staging ev)) before = true
    /\ forallb is_request requests = true
    /\ forallb is_answer answers = true.
Proof.
  destruct (transfer_cases lib self address amount memo)
    as [(e & _ & Hev) | (p & k & u & tx & _ & _ & _ & ->)].
  - exists (snd (transfer lib self address amount memo)), [], [].
    rewrite app_nil_r. repeat split.
    apply forallb_forall. intros ev Hin.
    destruct (Hev ev Hin) as [(? & ? & ->) | (? & ->)]; reflexivity.
  - unfold stage; cbn [snd].
    eexists [_; _], _, _. split; [reflexivity | ].
    repeat split; apply forallb_forall; intros ev Hin.
    + apply in_map_iff in Hin as [ic [<- _]]. reflexivity.
    + apply In_answers, in_map_iff in Hin as [x [<- Hin]].
      apply in_map_iff in Hin as [ic [<- _]].
      unfold settle. destruct (stageTx (snd ic) _); reflexivity.
Qed.

(** The fan-out asks the clients in the order of the list, each once, and
    then handles their answers in the order in which they come in. *)
Lemma stage_trace (tx : string) :
  exists answers,
    snd (stage lib self tx)
    = map (fun i => StageTx i (hex_to_base64 lib tx)) (seq 0 (List.length clients))
      ++ answers
    /\ Permutation answers
         (map (fun ic => fst (settle (hex_to_base64 lib tx) ic)) (indexed clients)).
Proof.
  unfold stage; cbn [snd]. eexists. split.
  - f_equal. rewrite <- map_fst_indexed, map_map. reflexivity.
  - rewrite <- (map_map (settle _) fst). apply Permutation_map, arrival_perm.
Qed.

(** The outcome of the fan-out, by the answers of the clients. *)
Lemma stage_decided (tx : string) :
  clients <> [] ->
  ((exists c, In c clients /\ stageTx c (hex_to_base64 lib tx) = Resolved true) ->
   fst (stage lib self tx) = Resolved (sha256_hex lib tx))
  /\ ((forall c, In c clients -> stageTx c (hex_to_base64 lib tx) <> Resolved true) ->
      fst (stage lib self tx) = Rejected (PlainError "Failed to stage transaction")).
Proof.
  intros Hne.
  destruct (stage_outcome lib self tx Hne) as [[-> Hacc] | [-> Hacc]]; split.
  - reflexivity.
  - intros Hnone. exfalso. destruct Hacc as (i & c & Hn & Hs).
    apply (Hnone c); [eapply nth_error_In; exact Hn | exact Hs].
  - intros (c & Hin & Hs). exfalso. apply Hacc.
    apply In_nth_error in Hin as [i Hn]. eauto.
  - reflexivity.
Qed.

(** A call whose request was built, answered and signed runs the
    fan-out. *)
Lemma transfer_reaches_stage (address amount : string) (memo : option string)
    (n : Decimal.number) (pv : plain) (primary : client) (unsignedTx tx : string) :
  ncgAmount lib amount = Resolved n ->
  plainValue lib self address n memo = Resolved pv ->
  headlessGraphQLClient self = Some primary ->
  createUnsignedTx primary (encode_base64 lib pv) (_publicKey self) = Resolved unsignedTx ->
  _signer self (base64_to_hex lib unsignedTx) = Resolved tx ->
  transfer lib self address amount memo
  = (fst (stage lib self tx),
     [CreateUnsignedTx 0 (encode_base64 lib pv) (_publicKey self);
      Sign (base64_to_hex lib unsignedTx)] ++ snd (stage lib self tx)).
Proof.
  intros Hn Hpv Hp Hu Htx. unfold transfer.
  rewrite Hn, Hpv, Hp, Hu, Htx. destruct (stage lib self tx). reflexivity.
Qed.

End FanoutFacts.

(** C2. A call of [transfer] whose request was built, answered by the
    node and signed asks every configured client to stage the signed
    transaction, in the order of the list and before the first answer is
    handled (the fan-out is concurrent), and then handles one answer per
    client, in the order in which they come in; it resolves, with the
    SHA-256 of the signed transaction, when the [stageTx] of at least one
    client resolved to [true], and rejects with "Failed to stage
    transaction" when none did. For every call: it resolves with a txId
    exactly when the [stageTx] of some client resolved to [true]; every
    client that is asked is answered by its own handler, a rejecting client
    being logged and counted as [false] without stopping the others. *)
Theorem transfer_stage_fanout
    (lib : Transfer.library) (self : Transfer.ncg_kms_transfer)
    (address amount : string) (memo : option string) :
  let r := fst (Transfer.transfer lib self address amount memo) in
  let tr := snd (Transfer.transfer lib self address amount memo) in
  let clients := Transfer._headlessGraphQLCLients self in
  (forall n pv primary unsignedTx tx,
      Transfer.ncgAmount lib amount = Resolved n ->
      Transfer.plainValue lib self address n memo = Resolved pv ->
      Transfer.headlessGraphQLClient self = Some primary ->
      Transfer.createUnsignedTx primary (Transfer.encode_base64 lib pv)
        (Transfer._publicKey self) = Resolved unsignedTx ->
      Transfer._signer self (Transfer.base64_to_hex lib unsignedTx) = Resolved tx ->
      (exists answers,
          tr = [Transfer.CreateUnsignedTx 0 (Transfer.encode_base64 lib pv)
                  (Transfer._publicKey self);
                Transfer.Sign (Transfer.base64_to_hex lib unsignedTx)]
               ++ map (fun i => Transfer.StageTx i (Transfer.hex_to_base64 lib tx))
                    (seq 0 (List.length clients))
               ++ answers
          /\ Permutation answers
               (map (fun ic =>
                       match Transfer.stageTx (snd ic) (Transfer.hex_to_base64 lib tx) with
                       | Resolved success => Transfer.StageResolved (fst ic) success
                       | Rejected e => Transfer.StageRejected (fst ic) e
                       end)
                  (Transfer.indexed clients)))
      /\ ((exists c, In c clients
                     /\ Transfer.stageTx c (Transfer.hex_to_base64 lib tx) = Resolved true) ->
          r = Resolved (Transfer.sha256_hex lib tx))
      /\ ((forall c, In c clients ->
                     Transfer.stageTx c (Transfer.hex_to_base64 lib tx) <> Resolved true) ->
          r = Rejected (PlainError "Failed to stage transaction")))
  /\ (exists before requests answers,
      tr = before ++ requests ++ answers
      /\ forallb (fun ev => negb (Transfer.is_staging ev)) before = true
      /\ forallb Transfer.is_request requests = true
      /\ forallb Transfer.is_answer answers = true)
  /\ ((exists txId, r = Resolved txId) <-> (exists i, In (Transfer.StageResolved i true) tr))
  /\ (forall i b, In (Transfer.StageResolved i b) tr ->
        exists c p, nth_error clients i = Some c
                    /\ Transfer.stageTx c p = Resolved b /\ In (Transfer.StageTx i p) tr)
  /\ (forall i e, In (Transfer.StageRejected i e) tr ->
        exists c p, nth_error clients i = Some c
                    /\ Transfer.stageTx c p = Rejected e /\ In (Transfer.StageTx i p) tr)
  /\ (forall j p, In (Transfer.StageTx j p) tr ->
        forall i c, nth_error clients i = Some c ->
          In (Transfer.StageTx i p) tr
          /\ match Transfer.stageTx c p with
             | Resolved b => In (Transfer.StageResolved i b) tr
             | Rejected e => In (Transfer.StageRejected i e) tr
             end)
  /\ (forall j p, In (Transfer.StageTx j p) tr ->
        (forall i, ~ In (Transfer.StageResolved i true) tr) ->
        r = Rejected (PlainError "Failed to stage transaction"))
  /\ (forall txId, r = Resolved txId ->
        exists u tx, In (Transfer.Sign u) tr
                     /\ Transfer._signer self u = Resolved tx
                     /\ txId = Transfer.sha256_hex lib tx).
Proof.
  intros r tr clients. subst r tr.
  split.
  { intros n pv primary unsignedTx tx Hn Hpv Hp Hu Htx.
    rewrite (transfer_reaches_stage lib self address amount memo
               n pv primary unsignedTx tx Hn Hpv Hp Hu Htx).
    cbn [fst snd].
    assert (Hne : clients <> []).
    { unfold Transfer.headlessGraphQLClient in Hp. subst clients.
      destruct (Transfer._headlessGraphQLCLients self); [discriminate | congruence]. }
    split; [ | apply stage_decided; exact Hne].
    destruct (stage_trace lib self tx) as (answers & -> & Hperm).
    exists answers. split; [reflexivity | ].
    rewrite Hperm. apply Permutation_refl'. apply map_ext.
    intros ic. unfold Transfer.settle.
    destruct (Transfer.stageTx (snd ic) _); reflexivity. }
  split; [apply requests_before_answers | ].
  destruct (transfer_cases lib self address amount memo)
    as [(e & -> & Hev) | (p & k & u & tx & Hne & Hsign & -> & ->)].
  - (* stopped before staging *)
    assert (Hno : forall ev, Transfer.is_staging ev = true ->
                    ~ In ev (snd (Transfer.transfer lib self address amount memo))).
    { intros ev Hst Hin. destruct (Hev ev Hin) as [(? & ? & ->) | (? & ->)]; discriminate. }
    repeat split.
    + intros [txId H]; discriminate.
    + intros [i H]. exfalso. eapply Hno; [ | exact H]. reflexivity.
    + intros i b H. exfalso. eapply Hno; [ | exact H]. reflexivity.
    + intros i e' H. exfalso. eapply Hno; [ | exact H]. reflexivity.
    + exfalso. eapply Hno; [ | exact H]. reflexivity.
    + exfalso. eapply Hno; [ | exact H]. reflexivity.
    + intros j q H. exfalso. eapply Hno; [ | exact H]. reflexivity.
    + intros txId H; discriminate.
  - (* the fan-out ran on [tx] *)
    assert (Hin : forall ev, Transfer.is_staging ev = true ->
              (In ev ([Transfer.CreateUnsignedTx 0 p k; Transfer.Sign u]
                        ++ snd (Transfer.stage lib self tx))
               <-> In ev (snd (Transfer.stage lib self tx)))).
    { intros ev Hst. apply In_staged_trace; exact Hst. }
    assert (Hreq : forall i c, nth_error clients i = Some c ->
              In (Transfer.StageTx i (Transfer.hex_to_base64 lib tx))
                 ([Transfer.CreateUnsignedTx 0 p k; Transfer.Sign u]
                    ++ snd (Transfer.stage lib self tx))).
    { intros i c Hn. apply Hin; [reflexivity | ]. apply stage_request. eauto. }
    assert (Hsome : (exists i, In (Transfer.StageResolved i true)
                       ([Transfer.CreateUnsignedTx 0 p k; Transfer.Sign u]
                          ++ snd (Transfer.stage lib self tx)))
                    <-> exists i c, nth_error clients i = Some c
                          /\ Transfer.stageTx c (Transfer.hex_to_base64 lib tx) = Resolved true).
    { split.
      - intros [i H]. apply Hin in H; [ | reflexivity].
        apply stage_resolved in H as (c & Hn & Hs). eauto.
      - intros (i & c & Hn & Hs). exists i. apply Hin; [reflexivity | ].
        apply stage_resolved. eauto. }
    destruct (stage_outcome lib self tx Hne) as [[-> Hacc] | [-> Hacc]].
    + repeat split.
      * intros _. apply Hsome. exact Hacc.
      * intros _. eauto.
      * intros i b H. apply Hin in H; [ | reflexivity].
        apply stage_resolved in H as (c & Hn & Hs).
        exists c, (Transfer.hex_to_base64 lib tx). eauto.
      * intros i e H. apply Hin in H; [ | reflexivity].
        apply stage_rejected in H as (c & Hn & Hs).
        exists c, (Transfer.hex_to_base64 lib tx). eauto.
      * apply Hin in H; [ | reflexivity]. apply stage_request in H as [-> _]. eauto.
      * apply Hin in H; [ | reflexivity]. apply stage_request in H as [-> _].
        destruct (Transfer.stageTx c _) as [b | e] eqn:Hs;
          (apply Hin; [reflexivity | ]);
          [apply stage_resolved | apply stage_rejected]; eauto.
      * intros j q _ Hnever. exfalso.
        apply Hsome in Hacc as [i H]. exact (Hnever i H).
      * intros txId [= <-]. exists u, tx. repeat split; [cbn; auto | exact Hsign].
    + repeat split.
      * intros [txId H]; discriminate.
      * intros H. exfalso. apply Hacc, Hsome, H.
      * intros i b H. apply Hin in H; [ | reflexivity].
        apply stage_resolved in H as (c & Hn & Hs).
        exists c, (Transfer.hex_to_base64 lib tx). eauto.
      * intros i e H. apply Hin in H; [ | reflexivity].
        apply stage_rejected in H as (c & Hn & Hs).
        exists c, (Transfer.hex_to_base64 lib tx). eauto.
      * apply Hin in H; [ | reflexivity]. apply stage_request in H as [-> _]. eauto.
      * apply Hin in H; [ | reflexivity]. apply stage_request in H as [-> _].
        destruct (Transfer.stageTx c _) as [b | e] eqn:Hs;
          (apply Hin; [reflexivity | ]);
          [apply stage_resolved | apply stage_rejected]; eauto.
      * intros txId H; discriminate.
Qed.

(** The witness: the primary times out, one stage endpoint refuses, one
    accepts. *)
Lemma transfer_stage_fanout_witness :
  fst (Transfer.transfer TransferScenario.lib
         (TransferScenario.bridge
            [TransferScenario.primary; TransferScenario.refusing;
             TransferScenario.accepting])
         "0xabc" "50.011" None)
  = Resolved "sha256:signed"%string.
Proof.
  destruct (transfer_stage_fanout TransferScenario.lib
              (TransferScenario.bridge
                 [TransferScenario.primary; TransferScenario.refusing;
                  TransferScenario.accepting])
              "0xabc" "50.011" None) as [Hrun _].
  cbv zeta in Hrun.
  edestruct Hrun as (_ & Haccepted & _); [cbv; reflexivity .. | ].
  apply Haccepted. exists TransferScenario.accepting.
  split; [find_in_list | reflexivity].
Defined.

Section PrimaryFacts.
Import Transfer.

Variable lib : library.
Variable self : ncg_kms_transfer.

Lemma stage_only_staging (tx : string) :
  forallb is_staging (snd (stage lib self tx)) = true.
Proof.
  apply forallb_forall. intros ev Hin. apply stage_events in Hin.
  destruct Hin as (i & c & _ & [-> | ->]); [reflexivity | ].
  unfold settle; cbn [fst snd]. destruct (stageTx c _); reflexivity.
Qed.

(** The trace of a call: nothing, or one request to client 0, then the
    signature of its answer, then staging events only. *)
Lemma transfer_trace_shape (address amount : string) (memo : option string) :
  snd (transfer lib self address amount memo) = []
  \/ exists primary payload,
       nth_error (_headlessGraphQLCLients self) 0 = Some primary
       /\ (snd (transfer lib self address amount memo)
           = [CreateUnsignedTx 0 payload (_publicKey self)]
           \/ exists unsignedTx rest,
                createUnsignedTx primary payload (_publicKey self) = Resolved unsignedTx
                /\ snd (transfer lib self address amount memo)
                   = CreateUnsignedTx 0 payload (_publicKey self)
                     :: Sign (base64_to_hex lib unsignedTx) :: rest
                /\ forallb is_staging rest = true).
Proof.
  unfold transfer.
  destruct (ncgAmount lib amount) as [n | e]; [ | left; reflexivity].
  destruct (plainValue lib self address n memo) as [pv | e]; [ | left; reflexivity].
  destruct (headlessGraphQLClient self) as [primary | ] eqn:Hp; [ | left; reflexivity].
  right. exists primary, (encode_base64 lib pv). split; [exact Hp | ].
  destruct (createUnsignedTx primary _ _) as [unsignedTx | e]; [ | left; reflexivity].
  right. exists unsignedTx.
  destruct (_signer self _) as [tx | e].
  - pose proof (stage_only_staging tx) as Hst.
    destruct (stage lib self tx) as [r evs]. exists evs. auto.
  - exists []. auto.
Qed.

End PrimaryFacts.

(** C9. A call of [transfer] asks for the unsigned transaction at most
    once, and only the client at index 0; what is signed is the answer of
    that client; every event that involves another client is part of the
    staging fan-out. In the instance index.ts builds, index 0 is the
    primary endpoint. *)
Theorem unsigned_tx_from_primary
    (lib : Transfer.library) (self : Transfer.ncg_kms_transfer)
    (address amount : string) (memo : option string) :
  let tr := snd (Transfer.transfer lib self address amount memo) in
  let clients := Transfer._headlessGraphQLCLients self in
  (List.length (filter Transfer.is_create tr) <= 1)%nat
  /\ (forall ev, In ev tr -> Transfer.is_create ev = true ->
        Transfer.client_index_of ev = Some 0%nat)
  /\ (forall ev i, In ev tr -> Transfer.client_index_of ev = Some i -> i <> 0%nat ->
        Transfer.is_staging ev = true)
  /\ (forall u, In (Transfer.Sign u) tr ->
        exists primary payload unsignedTx,
          nth_error clients 0 = Some primary
          /\ In (Transfer.CreateUnsignedTx 0 payload (Transfer._publicKey self)) tr
          /\ Transfer.createUnsignedTx primary payload (Transfer._publicKey self)
             = Resolved unsignedTx
          /\ u = Transfer.base64_to_hex lib unsignedTx)
  /\ (forall headless stages signer kmsAddress publicKey minter,
        Transfer.headlessGraphQLClient
          (Index.ncgKmsTransfer headless stages signer kmsAddress publicKey minter)
        = Some headless).
Proof.
  intros tr clients. subst tr clients.
  rewrite <- !and_assoc. split; [ | reflexivity]. rewrite !and_assoc.
  destruct (transfer_trace_shape lib self address amount memo)
    as [-> | (primary & payload & Hp & [-> | (unsignedTx & rest & Hc & -> & Hrest)])].
  - cbn. repeat split; try lia; intros; contradiction.
  - cbn. repeat split; try lia.
    + intros ev [<- | []] _. reflexivity.
    + intros ev i [<- | []] [= <-] Hi. congruence.
    + intros u [H | []]. discriminate.
  - assert (Hnone : filter Transfer.is_create rest = []).
    { induction rest as [ | ev rest IH]; [reflexivity | ].
      cbn in Hrest. apply andb_true_iff in Hrest as [Hev Hrest].
      cbn. destruct ev; try discriminate; apply IH; exact Hrest. }
    rewrite forallb_forall in Hrest.
    cbn [filter Transfer.is_create]. rewrite Hnone. cbn [List.length].
    repeat split; try lia.
    + intros ev [<- | [<- | Hin]] Hcr; [reflexivity | discriminate | ].
      apply Hrest in Hin. destruct ev; discriminate.
    + intros ev i [<- | [<- | Hin]] Hix Hi.
      * injection Hix as <-. congruence.
      * discriminate.
      * apply Hrest. exact Hin.
    + intros u [H | [H | Hin]].
      * discriminate.
      * injection H as <-. exists primary, payload, unsignedTx.
        repeat split; try assumption. left; reflexivity.
      * apply Hrest in Hin. discriminate.
Qed.

(** ** [WrappedNCGMinter.mint] *)

Section MinterFacts.
Import Minter.

Variable self : wrapped_ncg_minter.
Variable address : string.
Variable amount : Decimal.t.
Variable callback : TransactionReceipt -> outcome unit.
Variable errorCallback : JSError -> outcome unit.

Lemma catch_with_callbacks (e e' : JSError) :
  In (ErrorCallback e') (catch_with errorCallback e) -> e' = e.
Proof.
  unfold catch_with. intros [[= <-] | Hin]; [reflexivity | ].
  destruct (errorCallback e); [destruct Hin | ].
  destruct Hin as [H | []]; discriminate.
Qed.

Lemma catch_with_no_send (e : JSError) (to : string) (bn : Z) (cfg : TransactionConfig) :
  ~ In (Send to bn cfg) (catch_with errorCallback e).
Proof.
  unfold catch_with. intros [H | Hin]; [discriminate | ].
  destruct (errorCallback e); [destruct Hin | ].
  destruct Hin as [H | []]; discriminate.
Qed.

(** What [mint] sends: the price with the tip and nothing else about
    fees. *)
Lemma mint_send_config (to : string) (bn : Z) (cfg : TransactionConfig) :
  In (Send to bn cfg) (mint self address amount callback errorCallback) ->
  exists gasPriceString p,
    getGasPrice (_web3 self) = Resolved gasPriceString
    /\ Decimal.of_string gasPriceString = Some p
    /\ to = address
    /\ toBN amount = Resolved bn
    /\ cfg = {| from := Some (_minterAddress self);
                gasPrice := Some (Decimal.floor (Decimal.mul p (_gasTipRatio self)));
                maxPriorityFeePerGas := None |}.
Proof.
  unfold mint; cbv zeta. intros [H | [H | Hin]]; [discriminate | discriminate | ].
  destruct (getGasPrice (_web3 self)) as [s | e];
    [ | destruct Hin as [H | []]; discriminate].
  destruct (Decimal.of_string s) as [p | ] eqn:Hp;
    [ | destruct Hin as [H | []]; discriminate].
  destruct (toBN amount) as [n | e];
    [ | destruct Hin as [H | []]; discriminate].
  exists s, p.
  destruct Hin as [[= <- <- <-] | Hin]; [repeat split; exact Hp | exfalso].
  match type of Hin with
  | context [send ?w ?a ?b ?c] => destruct (send w a b c) as [receipt | e]
  end.
  - destruct Hin as [H | Hin]; [discriminate | ].
    destruct (callback receipt); [destruct Hin | ].
    eapply catch_with_no_send; exact Hin.
  - eapply catch_with_no_send; exact Hin.
Qed.

(** When [errorCallback] runs: after the send was issued, with the error
    of the send or of the success callback. *)
Lemma mint_errorCallback (e : JSError) :
  In (ErrorCallback e) (mint self address amount callback errorCallback) ->
  exists gasPriceString bn cfg,
    getGasPrice (_web3 self) = Resolved gasPriceString
    /\ In (Send address bn cfg) (mint self address amount callback errorCallback)
    /\ (send (_web3 self) address bn cfg = Rejected e
        \/ exists receipt,
             send (_web3 self) address bn cfg = Resolved receipt
             /\ callback receipt = Rejected e).
Proof.
  unfold mint; cbv zeta. intros [H | [H | Hin]]; [discriminate | discriminate | ].
  destruct (getGasPrice (_web3 self)) as [s | e0];
    [ | destruct Hin as [H | []]; discriminate].
  destruct (Decimal.of_string s) as [p | ];
    [ | destruct Hin as [H | []]; discriminate].
  destruct (toBN amount) as [n | e0];
    [ | destruct Hin as [H | []]; discriminate].
  destruct Hin as [H | Hin]; [discriminate | ].
  eexists s, n, _. split; [reflexivity | ].
  split; [right; right; left; reflexivity | ].
  match type of Hin with
  | context [send ?w ?a ?b ?c] => destruct (send w a b c) as [receipt | e0]
  end.
  - destruct Hin as [H | Hin]; [discriminate | ].
    right. exists receipt. split; [reflexivity | ].
    destruct (callback receipt) as [ | e0]; [destruct Hin | ].
    apply catch_with_callbacks in Hin. congruence.
  - left. apply catch_with_callbacks in Hin. congruence.
Qed.

End MinterFacts.

(** C10 (as amended). In [WrappedNCGMinter.mint], if [getGasPrice]
    rejects, neither the success callback nor [errorCallback] is invoked
    and the rejection is unhandled; [errorCallback] is invoked only after
    the gas price was fetched and the send issued, with the error of the
    contract send or with the error thrown by the success callback chained
    behind it. *)
Theorem mint_error_routing
    (self : Minter.wrapped_ncg_minter) (address : string) (amount : Decimal.t)
    (callback : Minter.TransactionReceipt -> outcome unit)
    (errorCallback : JSError -> outcome unit) :
  let tr := Minter.mint self address amount callback errorCallback in
  (forall e, Minter.getGasPrice (Minter._web3 self) = Rejected e ->
     tr = [ Minter.ConsoleLog (Minter._contractAddress self) address;
            Minter.GetGasPrice; Minter.UnhandledRejection e ])
  /\ (forall e, In (Minter.ErrorCallback e) tr ->
        exists gasPriceString bn cfg,
          Minter.getGasPrice (Minter._web3 self) = Resolved gasPriceString
          /\ In (Minter.Send address bn cfg) tr
          /\ (Minter.send (Minter._web3 self) address bn cfg = Rejected e
              \/ exists receipt,
                   Minter.send (Minter._web3 self) address bn cfg = Resolved receipt
                   /\ callback receipt = Rejected e)).
Proof.
  intros tr. subst tr. split.
  - intros e He. unfold Minter.mint. rewrite He. reflexivity.
  - intros e. apply mint_errorCallback.
Qed.

Example mint_gas_price_rejected :
  Minter.mint
    (MinterScenario.minter
       (MinterScenario.node (Rejected (External "rpc")) (Resolved MinterScenario.receipt)))
    "0xrecipient" (Decimal.mk 5 18) MinterScenario.quiet MinterScenario.quiet
  = [ Minter.ConsoleLog "0xwncg" "0xrecipient"; Minter.GetGasPrice;
      Minter.UnhandledRejection (External "rpc") ].
Proof. reflexivity. Qed.

(** C10 (as stated) fails when the success callback throws: the send
    resolved, and [errorCallback] is invoked all the same, with the
    callback's error. *)
Lemma errorCallback_without_send_error :
  let web3 := MinterScenario.node (Resolved "100"%string) (Resolved MinterScenario.receipt) in
  let tr := Minter.mint (MinterScenario.minter web3) "0xrecipient" (Decimal.mk 5 18)
              MinterScenario.throwing MinterScenario.quiet in
  In (Minter.ErrorCallback (External "slack is down")) tr
  /\ (forall to bn cfg, In (Minter.Send to bn cfg) tr ->
        Minter.send web3 to bn cfg = Resolved MinterScenario.receipt)
  /\ ~ (forall e, In (Minter.ErrorCallback e) tr ->
          exists to bn cfg, Minter.send web3 to bn cfg = Rejected e).
Proof.
  cbv zeta. split; [ | split].
  - vm_compute. find_in_list.
  - intros; reflexivity.
  - intros H. destruct (H (External "slack is down")) as (to & bn & cfg & Hs).
    + vm_compute. find_in_list.
    + discriminate.
Qed.

(** *** The gas price of a mint *)

Lemma composite_policy (r cap p : Q) :
  GasPrice.calculateGasPrice (Index.gasPricePolicy r cap) p
  == Qmin (inject_Z (Qfloor (p * r))) cap.
Proof.
  unfold Index.gasPricePolicy. cbn [GasPrice.calculateGasPrice].
  set (tipped := inject_Z (Qfloor (p * r))).
  destruct (Qle_bool tipped cap) eqn:Hle.
  - apply Qle_bool_iff in Hle. symmetry. apply Q.min_l. exact Hle.
  - symmetry. apply Q.min_r. apply Qlt_le_weak, Qnot_le_lt.
    intros H. apply Qle_bool_iff in H. congruence.
Qed.

(** C5 at gas price 100, tip ratio 2 and cap 150: [mint] sends the gas
    price 200 and no priority fee, where the policy index.ts builds gives
    min(floor(100 * 2), 150) = 150. *)
Theorem mint_gas_price_exceeds_cap :
  let web3 := MinterScenario.node (Resolved "100"%string) (Resolved MinterScenario.receipt) in
  let tr := Minter.mint (MinterScenario.minter web3) "0xrecipient" (Decimal.mk 5 18)
              MinterScenario.quiet MinterScenario.quiet in
  Minter.sent_config tr
  = Some {| Minter.from := Some "0xkms"%string;
            Minter.gasPrice := Some 200;
            Minter.maxPriorityFeePerGas := None |}
  /\ GasPrice.calculateGasPrice (Index.gasPricePolicy 2 150) 100 == 150
  /\ Qmin (inject_Z (Qfloor (100 * 2))) 150 == 150
  /\ ~ inject_Z 200 == 150.
Proof.
  cbv zeta. repeat split.
  intros H. vm_compute in H. discriminate.
Qed.

(** ** [TriggerableMonitor.loop] *)

Section LoopFacts.
Import Monitor.

Context {World TEventData Integration : Type}.
Variable c : chain World TEventData.
Variable cfg : config Integration.

Let result : Type := @Monitor.result World TEventData Integration.

Lemma run_for_stays (k : fields -> World -> list (effect Integration) -> result) :
  (forall m w tr, stays_in_loop (k m w tr)) ->
  forall m rest w tr, stays_in_loop (run_for c k m rest w tr).
Proof.
  intros Hk m rest w tr. unfold run_for.
  destruct rest as [ | i rest]; [apply Hk | ].
  destruct (getBlockHash c i w) as [[h | e] w1]; [ | apply Hk].
  destruct (getEvents c i w1) as [[evs | e] w2]; [exact I | apply Hk].
Qed.

Lemma while_loop_stays (fuel : nat) :
  forall m w tr, stays_in_loop (while_loop c cfg fuel m w tr).
Proof.
  induction fuel as [ | fuel IH]; intros m w tr; cbn [while_loop]; [exact I | ].
  destruct (getTipIndex c w) as [[tip | e] w1]; [ | apply IH].
  destruct (latestBlockNumber m + 1 <=? tip); [ | apply IH].
  apply run_for_stays. exact IH.
Qed.

Lemma next_stays (fuel : nat) (g : generator TEventData) (w : World) :
  in_loop g -> stays_in_loop (next c cfg fuel g w).
Proof.
  destruct g; cbn [in_loop next]; try contradiction; intros _.
  - apply run_for_stays. apply while_loop_stays.
  - apply while_loop_stays.
Qed.

(** No call made inside the loop ever throws or finds the generator
    done. *)
Lemma loop_never_ends (between : step_result TEventData -> World -> World)
    (calls fuel : nat) :
  forall g w, in_loop g ->
    forall r tr, In (r, tr) (results c cfg between calls fuel g w) ->
      r <> Done /\ forall e, r <> Throw e.
Proof.
  unfold results.
  induction calls as [ | calls IH]; intros g w Hg r tr; cbn [pull]; [intros [] | ].
  pose proof (next_stays fuel g w Hg) as Hs.
  destruct (next c cfg fuel g w) as [[[r1 g1] w1] tr1].
  specialize (IH g1 (between r1 w1)).
  destruct (pull c cfg between calls fuel g1 (between r1 w1)) as [[rs g2] w2].
  cbn [fst In]. intros [[= <- <-] | Hin].
  - destruct r1, g1; try contradiction; split; intros; discriminate.
  - assert (Hg1 : in_loop g1) by (destruct r1, g1; try contradiction; exact I).
    exact (IH Hg1 r tr Hin).
Qed.

(** *** What the [catch] clause does *)

Lemma caught_tip (fuel : nat) (m : fields) (w w1 : World)
    (tr : list (effect Integration)) (e : JSError) :
  getTipIndex c w = (Rejected e, w1) ->
  while_loop c cfg (S fuel) m w tr
  = while_loop c cfg fuel m w1 (tr ++ [ErrorIgnored e; CaptureException e]).
Proof. intros H. cbn [while_loop]. rewrite H. reflexivity. Qed.

Lemma caught_hash (k : fields -> World -> list (effect Integration) -> result)
    (m : fields) (i : Z) (rest : list Z) (w w1 : World)
    (tr : list (effect Integration)) (e : JSError) :
  getBlockHash c i w = (Rejected e, w1) ->
  run_for c k m (i :: rest) w tr
  = k m w1 (tr ++ [DebugExecute i; ErrorIgnored e; CaptureException e]).
Proof. intros H. cbn [run_for]. rewrite H. reflexivity. Qed.

Lemma caught_events (k : fields -> World -> list (effect Integration) -> result)
    (m : fields) (i : Z) (rest : list Z) (w w1 w2 : World) (hash : string)
    (tr : list (effect Integration)) (e : JSError) :
  getBlockHash c i w = (Resolved hash, w1) ->
  getEvents c i w1 = (Rejected e, w2) ->
  run_for c k m (i :: rest) w tr
  = k m w2 (tr ++ [DebugExecute i; ErrorIgnored e; CaptureException e]).
Proof. intros H1 H2. cbn [run_for]. rewrite H1, H2. reflexivity. Qed.

(** *** The resume phase *)

Lemma pull_remains (between : step_result TEventData -> World -> World)
    (fuel : nat) (n : Z) (more : nat) :
  forall (evs : list (envelope TEventData)) (w : World),
    results c cfg between (List.length evs + more) fuel (YieldedRemained evs n) w
    = map (fun e => (YieldRemained e, [])) evs
      ++ results c cfg between more fuel (YieldedRemained [] n)
           (fold_left (fun w e => between (YieldRemained e) w) evs w).
Proof.
  unfold results.
  induction evs as [ | ev evs IH]; intros w; [reflexivity | ].
  cbn [List.length Nat.add pull next run_remains map app fold_left].
  specialize (IH (between (YieldRemained ev) w)).
  destruct (pull c cfg between (List.length evs + more) fuel (YieldedRemained evs n)
              (between (YieldRemained ev) w)) as [[rs g2] w2].
  cbn [fst] in *. rewrite IH. reflexivity.
Qed.

End LoopFacts.

(** *** One block per trigger *)

Section IdentityHook.
Import Monitor.

Context {World TEventData Integration : Type}.
Variable c : chain World TEventData.
Variable cfg : config Integration.

Hypothesis hook : forall i, triggerredBlocks c i = [i].

Lemma run_from_cons (n : Z) (k : nat) :
  run_from n (S k) = n :: run_from (n + 1) k.
Proof.
  unfold run_from. cbn [seq map]. f_equal; [lia | ].
  rewrite <- seq_shift, map_map. apply map_ext. intros j. lia.
Qed.

Lemma run_from_lower (k : nat) : forall n x, In x (run_from n k) -> n <= x.
Proof.
  induction k as [ | k IH]; intros n x; [intros [] | ].
  rewrite run_from_cons. intros [<- | Hin]; [lia | ].
  apply IH in Hin. lia.
Qed.

Lemma run_from_ordered (k : nat) :
  forall n, consecutive (run_from n k)
            /\ strictly_increasing (run_from n k)
            /\ NoDup (run_from n k).
Proof.
  induction k as [ | k IH]; intros n.
  - repeat split. constructor.
  - rewrite run_from_cons. destruct (IH (n + 1)) as (Hc & Hs & Hn).
    repeat split.
    + destruct k; [exact I | ]. rewrite run_from_cons in *. split; [reflexivity | exact Hc].
    + destruct k; [exact I | ]. rewrite run_from_cons in *. split; [lia | exact Hs].
    + constructor; [ | exact Hn]. intros Hin. apply run_from_lower in Hin. lia.
Qed.

(** With one block per trigger a call that starts at the loop head
    either yields the block after [latestBlockNumber], leaving the fields
    as they are, or does not settle. *)
Lemma while_loop_identity (fuel : nat) :
  forall m w (tr : list (effect Integration)),
    match while_loop c cfg fuel m w tr with
    | (Pending, LoopHead m', _, _) => m' = m
    | (YieldBlock i _, YieldedBlock m' rest, _, _) =>
        i = latestBlockNumber m + 1 /\ m' = m /\ rest = []
    | _ => False
    end.
Proof.
  induction fuel as [ | fuel IH]; intros m w tr; cbn [while_loop]; [reflexivity | ].
  destruct (getTipIndex c w) as [[tip | e] w1]; [ | apply IH].
  destruct (latestBlockNumber m + 1 <=? tip); [ | apply IH].
  rewrite hook. cbn [run_for].
  destruct (getBlockHash c _ w1) as [[h | e] w2]; [ | apply IH].
  destruct (getEvents c _ w2) as [[evs | e] w3]; [ | apply IH].
  auto.
Qed.

Lemma next_identity (fuel : nat) (g : generator TEventData) (w : World) (n : Z) :
  next_block g = Some n ->
  match next c cfg fuel g w with
  | (Pending, g', _, _) => next_block g' = Some n
  | (YieldBlock i _, g', _, _) => i = n /\ next_block g' = Some (n + 1)
  | _ => False
  end.
Proof.
  destruct g as [ | | m rest | m | ]; cbn [next_block]; try discriminate.
  - destruct rest; [ | discriminate]. intros [= <-]. cbn [next run_for].
    set (m1 := {| latestBlockNumber := latestBlockNumber m + 1; updatedAt := now c w |}).
    pose proof (while_loop_identity fuel m1 w []) as H.
    destruct (while_loop c cfg fuel m1 w []) as [[[r g'] w'] tr'].
    destruct r, g'; try contradiction.
    + destruct H as (-> & -> & ->). cbn. split; [lia | f_equal; lia].
    + subst m0. cbn. f_equal; lia.
  - intros [= <-]. cbn [next].
    pose proof (while_loop_identity fuel m w []) as H.
    destruct (while_loop c cfg fuel m w []) as [[[r g'] w'] tr'].
    destruct r, g'; try contradiction.
    + destruct H as (-> & -> & ->). cbn. split; [reflexivity | f_equal; lia].
    + subst m0. reflexivity.
Qed.

Lemma pull_identity (between : step_result TEventData -> World -> World)
    (calls fuel : nat) :
  forall g w n, next_block g = Some n ->
    exists k, yielded_blocks (results c cfg between calls fuel g w) = run_from n k.
Proof.
  unfold results.
  induction calls as [ | calls IH]; intros g w n Hg; cbn [pull].
  - exists 0%nat. reflexivity.
  - pose proof (next_identity fuel g w n Hg) as Hn.
    destruct (next c cfg fuel g w) as [[[r g1] w1] tr1].
    specialize (IH g1 (between r w1)).
    destruct (pull c cfg between calls fuel g1 (between r w1)) as [[rs g2] w2].
    cbn [fst] in *. destruct r; try contradiction.
    + destruct Hn as [-> Hg1]. destruct (IH _ Hg1) as [k Hk].
      exists (S k). cbn [yielded_blocks]. rewrite Hk, run_from_cons. reflexivity.
    + destruct (IH _ Hn) as [k Hk]. exists k. exact Hk.
Qed.

Lemma pull_from_start (between : step_result TEventData -> World -> World)
    (calls fuel : nat) :
  forall g w, before_loop g ->
    exists n k, yielded_blocks (results c cfg between calls fuel g w) = run_from n k.
Proof.
  unfold results.
  induction calls as [ | calls IH]; intros g w Hg; cbn [pull].
  - exists 0, 0%nat. reflexivity.
  - assert (Hnext :
      match next c cfg fuel g w with
      | (YieldBlock i _, g', _, _) => next_block g' = Some (i + 1)
      | (Pending, g', _, _) => exists n, next_block g' = Some n
      | (_, g', _, _) => before_loop g'
      end).
    { assert (Hw : forall m w0,
        match while_loop c cfg fuel m w0 (@nil (effect Integration)) with
        | (YieldBlock i _, g', _, _) => next_block g' = Some (i + 1)
        | (Pending, g', _, _) => exists n, next_block g' = Some n
        | (_, g', _, _) => before_loop g'
        end).
      { intros m w0. pose proof (while_loop_identity fuel m w0 []) as H.
        destruct (while_loop c cfg fuel m w0 []) as [[[r g'] w'] tr'].
        destruct r, g'; try contradiction.
        - destruct H as (-> & -> & ->). cbn. f_equal; lia.
        - subst m0. cbn. eauto. }
      destruct g as [ | rest n | | | ]; cbn [before_loop] in Hg; try contradiction;
        cbn [next].
      - destruct (_latestTransactionLocation cfg) as [loc | ].
        + destruct (processRemains c loc w) as [[r | e] w1]; [ | exact I].
          unfold run_remains. destruct (remainedEvents r); [apply Hw | exact I].
        + destruct (getTipIndex c w) as [[tip | e] w1]; [apply Hw | exact I].
      - unfold run_remains. destruct rest; [apply Hw | exact I].
      - exact I. }
    destruct (next c cfg fuel g w) as [[[r g1] w1] tr1].
    pose proof (pull_identity between calls fuel g1 (between r w1)) as Hloop.
    specialize (IH g1 (between r w1)). unfold results in Hloop.
    destruct (pull c cfg between calls fuel g1 (between r w1)) as [[rs g2] w2].
    cbn [fst] in *. destruct r; cbn [yielded_blocks].
    + apply IH. exact Hnext.
    + destruct (Hloop _ Hnext) as [k Hk]. exists blockIndex, (S k).
      rewrite Hk, run_from_cons. reflexivity.
    + apply IH. exact Hnext.
    + apply IH. exact Hnext.
    + destruct Hnext as [n Hn]. destruct (Hloop _ Hn) as [k Hk]. eauto.
Qed.

(** After the replay the main loop starts behind the index the replay
    returned. *)
Lemma pull_after_remains (between : step_result TEventData -> World -> World)
    (fuel : nat) (n : Z) :
  forall (calls : nat) (rest : list (envelope TEventData)) (w : World),
    exists k,
      yielded_blocks (results c cfg between calls fuel (YieldedRemained rest n) w)
      = run_from (n + 1) k.
Proof.
  unfold results.
  induction calls as [ | calls IH]; intros rest w; [exists 0%nat; reflexivity | ].
  cbn [pull next]. destruct rest as [ | e rest]; cbn [run_remains].
  - set (m := {| latestBlockNumber := n; updatedAt := now c w |}).
    pose proof (while_loop_identity fuel m w []) as Hw.
    destruct (while_loop c cfg fuel m w []) as [[[r g1] w2] tr1].
    pose proof (pull_identity between calls fuel g1 (between r w2)) as Hp.
    unfold results in Hp.
    destruct (pull c cfg between calls fuel g1 (between r w2)) as [[rs g2] w3].
    cbn [fst] in *. destruct r, g1; try contradiction.
    + destruct Hw as (-> & -> & ->).
      destruct (Hp (n + 2)) as [k Hk]; [cbn; f_equal; lia | ].
      exists (S k). cbn [yielded_blocks]. rewrite Hk, run_from_cons.
      cbn [latestBlockNumber m]. do 2 f_equal. lia.
    + subst m0. destruct (Hp (n + 1)) as [k Hk]; [reflexivity | ].
      exists k. exact Hk.
  - specialize (IH rest (between (YieldRemained e) w)).
    destruct (pull c cfg between calls fuel (YieldedRemained rest n)
                (between (YieldRemained e) w)) as [[rs g2] w2].
    cbn [fst yielded_blocks] in *. exact IH.
Qed.

End IdentityHook.

(** C1 (as amended). When the hook [triggerredBlocks] gives one block per
    trigger ([i] for [i]), then in every run of [loop], whatever calls
    reject and whenever, the blocks yielded by the main loop are
    successive block numbers: none is skipped, none is yielded twice, and
    each yield lies strictly after the one before. *)
Theorem main_loop_yields_each_block_once
    {World TEventData Integration : Type}
    (c : Monitor.chain World TEventData) (cfg : Monitor.config Integration)
    (between : Monitor.step_result TEventData -> World -> World)
    (calls fuel : nat) (w : World) :
  (forall i, Monitor.triggerredBlocks c i = [i]) ->
  let blocks :=
    Monitor.yielded_blocks (Monitor.results c cfg between calls fuel Monitor.Start w) in
  Monitor.consecutive blocks /\ Monitor.strictly_increasing blocks /\ NoDup blocks.
Proof.
  intros hook blocks. subst blocks.
  destruct (pull_from_start c cfg hook between calls fuel Monitor.Start w I)
    as (n & k & ->).
  apply run_from_ordered.
Qed.

Lemma main_loop_yields_each_block_once_witness :
  let blocks :=
    Monitor.yielded_blocks
      (Monitor.results MonitorScenario.flaky MonitorScenario.fresh MonitorScenario.idle
         4 5 Monitor.Start MonitorScenario.world0) in
  Monitor.consecutive blocks /\ Monitor.strictly_increasing blocks /\ NoDup blocks.
Proof.
  apply (main_loop_yields_each_block_once MonitorScenario.flaky MonitorScenario.fresh
           MonitorScenario.idle 4 5 MonitorScenario.world0).
  intros i. reflexivity.
Defined.

Example flaky_run :
  Monitor.yielded_blocks
    (Monitor.results MonitorScenario.flaky MonitorScenario.fresh MonitorScenario.idle
       4 5 Monitor.Start MonitorScenario.world0)
  = [11; 12; 13; 14].
Proof. vm_compute. reflexivity. Qed.

(** C1 (as stated) fails under a hook with two blocks per trigger: the
    request for the second block rejects after the first was yielded,
    [latestBlockNumber] is not advanced, and the retry yields the first
    block again. *)
Lemma retried_trigger_yields_block_twice :
  let blocks :=
    Monitor.yielded_blocks
      (Monitor.results MonitorScenario.retried MonitorScenario.fresh MonitorScenario.idle
         3 5 Monitor.Start MonitorScenario.world0) in
  blocks = [22; 22; 23]
  /\ ~ Monitor.strictly_increasing blocks
  /\ ~ NoDup blocks.
Proof.
  cbv zeta.
  assert (H : Monitor.yielded_blocks
                (Monitor.results MonitorScenario.retried MonitorScenario.fresh
                   MonitorScenario.idle 3 5 Monitor.Start MonitorScenario.world0)
              = [22; 22; 23]) by (vm_compute; reflexivity).
  rewrite H. split; [reflexivity | split].
  - cbn. lia.
  - intros Hn. inversion Hn as [ | x l Hx _]. apply Hx. left; reflexivity.
Qed.

(** *** Resuming from a stored location *)

(** When [loop] starts with a stored location and
    [processRemains] answers, the first calls yield the remained envelopes
    in order, without any other effect; the call after them enters the main
    loop with [latestBlockNumber = nextBlockIndex], so that (with one block
    per trigger) the first block the main loop fetches is
    [nextBlockIndex + 1]. *)
Theorem resume_yields_remains_then_continues
    {World TEventData Integration : Type}
    (c : Monitor.chain World TEventData) (cfg : Monitor.config Integration)
    (between : Monitor.step_result TEventData -> World -> World)
    (fuel : nat) (w w1 : World) (location : Monitor.TransactionLocation)
    (r : Monitor.ProcessRemainsResult TEventData) :
  Monitor._latestTransactionLocation cfg = Some location ->
  Monitor.processRemains c location w = (Resolved r, w1) ->
  let evs := Monitor.remainedEvents r in
  let w' := fold_left (fun w e => between (Monitor.YieldRemained e) w) evs w1 in
  let first :=
    Monitor.while_loop c cfg fuel
      {| Monitor.latestBlockNumber := Monitor.nextBlockIndex r;
         Monitor.updatedAt := Monitor.now c w' |} w' [] in
  Monitor.results c cfg between (List.length evs + 1) fuel Monitor.Start w
  = map (fun e => (Monitor.YieldRemained e, [])) evs
    ++ [(fst (fst (fst first)), snd first)]
  /\ ((forall i, Monitor.triggerredBlocks c i = [i]) ->
      forall i env, fst (fst (fst first)) = Monitor.YieldBlock i env ->
        i = Monitor.nextBlockIndex r + 1).
Proof.
  intros Hloc Hrem evs w' first. split.
  - assert (Hlast : forall w0,
              Monitor.results c cfg between 1 fuel
                (Monitor.YieldedRemained [] (Monitor.nextBlockIndex r)) w0
              = (let res := Monitor.while_loop c cfg fuel
                   {| Monitor.latestBlockNumber := Monitor.nextBlockIndex r;
                      Monitor.updatedAt := Monitor.now c w0 |} w0 [] in
                 [(fst (fst (fst res)), snd res)])).
    { intros w0. unfold Monitor.results. cbn [Monitor.pull Monitor.next Monitor.run_remains].
      destruct (Monitor.while_loop c cfg fuel _ w0 []) as [[[r0 g0] w2] tr0].
      reflexivity. }
    subst first w'. unfold evs. clear evs.
    destruct (Monitor.remainedEvents r) as [ | ev rest] eqn:Hevs.
    + cbn [List.length Nat.add map app fold_left].
      rewrite <- Hlast. unfold Monitor.results.
      cbn [Monitor.pull Monitor.next]. rewrite Hloc, Hrem, Hevs. reflexivity.
    + cbn [List.length Nat.add map app fold_left].
      rewrite <- Hlast, <- pull_remains.
      unfold Monitor.results.
      cbn [Monitor.pull Monitor.next]. rewrite Hloc, Hrem, Hevs.
      cbn [Monitor.run_remains].
      destruct (Monitor.pull c cfg between (List.length rest + 1) fuel _ _) as [[rs g2] w2].
      reflexivity.
  - intros hook i env Hfirst. subst first.
    pose proof (while_loop_identity c cfg hook fuel
                  {| Monitor.latestBlockNumber := Monitor.nextBlockIndex r;
                     Monitor.updatedAt := Monitor.now c w' |} w' []) as H.
    destruct (Monitor.while_loop c cfg fuel _ w' []) as [[[r0 g0] w2] tr0].
    cbn [fst] in Hfirst. subst r0. destruct g0; try contradiction.
    destruct H as (-> & _). reflexivity.
Qed.

Lemma resume_yields_remains_then_continues_witness :
  Monitor.results MonitorScenario.resumed MonitorScenario.resuming MonitorScenario.idle
    2 5 Monitor.Start MonitorScenario.world0
  = [ (Monitor.YieldRemained MonitorScenario.replayed, []);
      (Monitor.YieldBlock 11
         {| Monitor.env_blockHash := "0xhash"; Monitor.events := ["event"%string] |},
       [Monitor.DebugTry 11; Monitor.DebugExecute 11]) ]
  /\ ((forall i, Monitor.triggerredBlocks MonitorScenario.resumed i = [i]) ->
      forall i env,
        Monitor.YieldBlock 11
          {| Monitor.env_blockHash := "0xhash"; Monitor.events := ["event"%string] |}
        = Monitor.YieldBlock i env ->
        i = 10 + 1).
Proof.
  apply (resume_yields_remains_then_continues
           MonitorScenario.resumed MonitorScenario.resuming MonitorScenario.idle 5
           MonitorScenario.world0 MonitorScenario.world0
           {| Monitor.blockHash := "0xcursor"; Monitor.txId := "0xtx" |}
           {| Monitor.nextBlockIndex := 10;
              Monitor.remainedEvents := [MonitorScenario.replayed] |}).
  - reflexivity.
  - reflexivity.
Defined.

(** With [nextBlockIndex = 10] the fields are set to
    [latestBlockNumber = 10], not 9, and the first block the main loop
    fetches is 11, not 10. *)
Lemma resume_starts_after_nextBlockIndex :
  snd (fst (Monitor.pull MonitorScenario.resumed MonitorScenario.resuming
              MonitorScenario.idle 2 0 Monitor.Start MonitorScenario.world0))
  = Monitor.LoopHead {| Monitor.latestBlockNumber := 10; Monitor.updatedAt := 0 |}
  /\ Monitor.yielded_blocks
       (Monitor.results MonitorScenario.resumed MonitorScenario.resuming
          MonitorScenario.idle 2 5 Monitor.Start MonitorScenario.world0)
     = [11]
  /\ 10 <> 10 - 1 /\ 11 <> 10.
Proof. repeat split; try (vm_compute; reflexivity); lia. Qed.

(** C3 fails on the code. [loop] stores [nextBlockIndex] itself as
    [latestBlockNumber], not [nextBlockIndex - 1]: whatever the chain and
    the consumer do, and however long the monitor runs, the blocks the main
    loop fetches after a resume (with one block per trigger) are
    [nextBlockIndex + 1], [nextBlockIndex + 2], ..., so that the block
    [nextBlockIndex], which the claim names as the first one, is never
    fetched. *)
Theorem resume_never_fetches_nextBlockIndex
    {World TEventData Integration : Type}
    (c : Monitor.chain World TEventData) (cfg : Monitor.config Integration)
    (between : Monitor.step_result TEventData -> World -> World)
    (calls fuel : nat) (w w1 : World) (location : Monitor.TransactionLocation)
    (r : Monitor.ProcessRemainsResult TEventData) :
  Monitor._latestTransactionLocation cfg = Some location ->
  Monitor.processRemains c location w = (Resolved r, w1) ->
  (forall i, Monitor.triggerredBlocks c i = [i]) ->
  (exists k,
      Monitor.yielded_blocks (Monitor.results c cfg between calls fuel Monitor.Start w)
      = Monitor.run_from (Monitor.nextBlockIndex r + 1) k)
  /\ ~ In (Monitor.nextBlockIndex r)
         (Monitor.yielded_blocks
            (Monitor.results c cfg between calls fuel Monitor.Start w)).
Proof.
  intros Hloc Hrem hook.
  assert (Hrun : exists k,
             Monitor.yielded_blocks
               (Monitor.results c cfg between calls fuel Monitor.Start w)
             = Monitor.run_from (Monitor.nextBlockIndex r + 1) k).
  { destruct calls as [ | calls]; [exists 0%nat; reflexivity | ].
    pose proof (pull_after_remains c cfg hook between fuel (Monitor.nextBlockIndex r)
                  (S calls) (Monitor.remainedEvents r) w1) as H.
    unfold Monitor.results in *. cbn [Monitor.pull Monitor.next] in *.
    rewrite Hloc, Hrem. exact H. }
  split; [exact Hrun | ].
  destruct Hrun as [k ->]. intros Hin. apply run_from_lower in Hin. lia.
Qed.

(** The failing input: the cursor is in block 19 and the tip at 20, so
    that the replay covers the blocks up to 20 and returns
    [nextBlockIndex = 21]; the main loop then fetches 22, 23, 24, 25. *)
Lemma resume_never_fetches_nextBlockIndex_witness :
  (exists k,
      Monitor.yielded_blocks
        (Monitor.results ResumeScenario.after_crash MonitorScenario.resuming
           ResumeScenario.quiet 7 5 Monitor.Start MonitorScenario.world0)
      = Monitor.run_from (21 + 1) k)
  /\ ~ In 21
         (Monitor.yielded_blocks
            (Monitor.results ResumeScenario.after_crash MonitorScenario.resuming
               ResumeScenario.quiet 7 5 Monitor.Start MonitorScenario.world0)).
Proof.
  apply (resume_never_fetches_nextBlockIndex ResumeScenario.after_crash
           MonitorScenario.resuming ResumeScenario.quiet 7 5
           MonitorScenario.world0 MonitorScenario.world0
           {| Monitor.blockHash := "0xcursor"; Monitor.txId := "0xtx" |}
           (ResumeScenario.spec_processRemains 19 20)).
  - reflexivity.
  - reflexivity.
  - intros i. reflexivity.
Defined.

(** In that run the event of block 21 is never delivered: the replay ends
    with block 20 and the main loop begins with block 22. *)
Example block_after_replay_is_lost :
  ResumeScenario.delivered
    (Monitor.results ResumeScenario.after_crash MonitorScenario.resuming
       ResumeScenario.quiet 7 5 Monitor.Start MonitorScenario.world0)
  = [20; 22; 23; 24; 25]
  /\ Monitor.yielded_blocks
       (Monitor.results ResumeScenario.after_crash MonitorScenario.resuming
          ResumeScenario.quiet 7 5 Monitor.Start MonitorScenario.world0)
     = [22; 23; 24; 25].
Proof. split; vm_compute; reflexivity. Qed.

(** *** Errors *)

(** C4 (as amended). An error raised in the resume phase, by
    [processRemains] or by the first [getTipIndex], is not caught: the call
    throws it and the generator is done, with nothing logged. Inside
    [while(true)] every rejection of [getTipIndex], [getBlockHash] or
    [getEvents] is logged and handed to [captureException], and the loop
    goes on with its fields unchanged; no call made inside the loop throws
    or finds the generator done. An uncaught exception of the process is
    logged by the listener index.ts installs and does not end the
    process. *)
Theorem loop_error_handling
    {World TEventData Integration : Type}
    (c : Monitor.chain World TEventData) (cfg : Monitor.config Integration) :
  (* the resume phase *)
  (forall fuel w w1 location e,
     Monitor._latestTransactionLocation cfg = Some location ->
     Monitor.processRemains c location w = (Rejected e, w1) ->
     Monitor.next c cfg fuel Monitor.Start w = (Monitor.Throw e, Monitor.Completed, w1, []))
  /\ (forall fuel w w1 e,
        Monitor._latestTransactionLocation cfg = None ->
        Monitor.getTipIndex c w = (Rejected e, w1) ->
        Monitor.next c cfg fuel Monitor.Start w = (Monitor.Throw e, Monitor.Completed, w1, []))
  (* the [catch] clause *)
  /\ (forall fuel m w w1 tr e,
        Monitor.getTipIndex c w = (Rejected e, w1) ->
        Monitor.while_loop c cfg (S fuel) m w tr
        = Monitor.while_loop c cfg fuel m w1
            (tr ++ [Monitor.ErrorIgnored e; Monitor.CaptureException e]))
  /\ (forall fuel m i rest w w1 tr e,
        Monitor.getBlockHash c i w = (Rejected e, w1) ->
        Monitor.run_for c (Monitor.while_loop c cfg fuel) m (i :: rest) w tr
        = Monitor.while_loop c cfg fuel m w1
            (tr ++ [Monitor.DebugExecute i; Monitor.ErrorIgnored e; Monitor.CaptureException e]))
  /\ (forall fuel m i rest w w1 w2 hash tr e,
        Monitor.getBlockHash c i w = (Resolved hash, w1) ->
        Monitor.getEvents c i w1 = (Rejected e, w2) ->
        Monitor.run_for c (Monitor.while_loop c cfg fuel) m (i :: rest) w tr
        = Monitor.while_loop c cfg fuel m w2
            (tr ++ [Monitor.DebugExecute i; Monitor.ErrorIgnored e; Monitor.CaptureException e]))
  (* the loop does not end *)
  /\ (forall between calls fuel g w,
        Monitor.in_loop g ->
        forall r tr, In (r, tr) (Monitor.results c cfg between calls fuel g w) ->
          r <> Monitor.Done /\ forall e, r <> Monitor.Throw e)
  (* the process *)
  /\ (forall e, Index.emit_uncaught Index.process_after_startup e
                = Index.Continues [(Index.console_error, e)]).
Proof.
  repeat split.
  - intros fuel w w1 location e Hloc Hrem. cbn [Monitor.next]. rewrite Hloc, Hrem. reflexivity.
  - intros fuel w w1 e Hloc Htip. cbn [Monitor.next]. rewrite Hloc, Htip. reflexivity.
  - intros. apply caught_tip. assumption.
  - intros. apply caught_hash. assumption.
  - intros. eapply caught_events; eassumption.
  - eapply loop_never_ends; eassumption.
  - eapply loop_never_ends; eassumption.
Qed.

(** C4 (as stated) fails in the resume phase: [processRemains] rejects,
    the first call throws that error, the generator is done, and nothing
    was logged or captured. *)
Lemma resume_error_ends_loop :
  Monitor.pull MonitorScenario.reorged MonitorScenario.resuming MonitorScenario.idle
    2 5 Monitor.Start MonitorScenario.world0
  = ([ (Monitor.Throw (External "ReorgedCursorError"), []); (Monitor.Done, []) ],
     Monitor.Completed, MonitorScenario.world0).
Proof. vm_compute. reflexivity. Qed.

(** *** The liveness alert *)

Section AlertFacts.
Import Monitor.

Context {World TEventData Integration : Type}.
Variable c : chain World TEventData.
Variable cfg : config Integration.

Lemma paged_app (tr1 tr2 : list (effect Integration)) :
  paged (tr1 ++ tr2) = paged tr1 ++ paged tr2.
Proof. apply filter_app. Qed.

Lemma paged_pages (message : string) (latest : Z) (sinks : list Integration) :
  paged (map (fun i => IntegrationError i message latest) sinks)
  = map (fun i => IntegrationError i message latest) sinks.
Proof.
  unfold paged.
  induction sinks as [ | i sinks IH]; [reflexivity | ].
  cbn [map filter is_alert]. rewrite IH. reflexivity.
Qed.

(** One stalled poll after another: each pages every integration, then
    sleeps, and leaves the fields alone. *)
Lemma stalled_polls (n : nat) (fuel : nat) (m : fields) :
  forall w tr,
    stalled c cfg n m w ->
    exists w' tr',
      while_loop c cfg (n + fuel) m w tr = while_loop c cfg fuel m w' (tr ++ tr')
      /\ paged tr'
         = List.concat (repeat (map (fun i => IntegrationError i (alert_message c)
                                           (latestBlockNumber m))
                               (_integrations cfg)) n).
Proof.
  induction n as [ | n IH]; intros w tr Hst.
  - exists w, []. rewrite app_nil_r. split; reflexivity.
  - destruct Hst as (tip & w1 & Htip & Hbehind & Hold & Hst).
    cbn [Nat.add while_loop]. rewrite Htip.
    destruct (Z.leb_spec (latestBlockNumber m + 1) tip) as [Hle | _]; [lia | ].
    set (poll := [DebugTry (latestBlockNumber m + 1); DebugSkip (latestBlockNumber m) tip]
                 ++ alerts c cfg m (now c w1) ++ [Delay (_delayMilliseconds cfg)]).
    destruct (IH (delay c (_delayMilliseconds cfg) w1) (tr ++ poll) Hst)
      as (w' & tr' & Hrun & Hpaged).
    exists w', (poll ++ tr'). split.
    + rewrite Hrun, app_assoc. reflexivity.
    + rewrite paged_app, Hpaged. cbn [repeat List.concat]. f_equal.
      subst poll. unfold alerts.
      destruct (Z.ltb_spec TIMEOUT (now c w1 - updatedAt m)) as [_ | Hyoung]; [ | lia].
      change (paged ([DebugTry (latestBlockNumber m + 1);
                      DebugSkip (latestBlockNumber m) tip] ++ ?x))
        with (paged x).
      rewrite paged_app, paged_pages. cbn. apply app_nil_r.
Qed.

(** A poll that finds the next block available never pages, whatever
    the clock says. *)
Lemma ahead_poll_is_silent (m : fields) (w w1 : World) (tip : Z)
    (tr : list (effect Integration)) :
  getTipIndex c w = (Resolved tip, w1) ->
  latestBlockNumber m + 1 <= tip ->
  paged (snd (while_loop c cfg 1 m w tr)) = paged tr.
Proof.
  intros Htip Hle. cbn [while_loop]. rewrite Htip.
  destruct (Z.leb_spec (latestBlockNumber m + 1) tip) as [_ | Hlt]; [ | lia].
  unfold run_for.
  destruct (triggerredBlocks c (latestBlockNumber m + 1)) as [ | i rest]; cbn [snd].
  - rewrite paged_app. cbn. apply app_nil_r.
  - destruct (getBlockHash c i w1) as [[h | e] w2].
    + destruct (getEvents c i w2) as [[evs | e] w3]; cbn [snd];
        rewrite !paged_app; cbn; rewrite ?app_nil_r; reflexivity.
    + cbn [snd]. rewrite !paged_app. cbn. rewrite ?app_nil_r. reflexivity.
Qed.

End AlertFacts.

(** C8 (as amended). Whenever a poll finds the next block not yet
    available ([latestBlockNumber + 1 > tip]) and the last update more than
    5 minutes old, the [error] method of every configured integration is
    invoked, in order, with the message naming the monitor and with the
    current [latestBlockNumber]; this repeats on each such poll while the
    stall persists. A poll that finds the next block available never
    raises the alert. *)
Theorem stall_pages_on_every_poll
    {World TEventData Integration : Type}
    (c : Monitor.chain World TEventData) (cfg : Monitor.config Integration)
    (n fuel : nat) (m : Monitor.fields) (w : World)
    (tr : list (Monitor.effect Integration)) :
  Monitor.stalled c cfg n m w ->
  (exists w' tr',
     Monitor.while_loop c cfg (n + fuel) m w tr
     = Monitor.while_loop c cfg fuel m w' (tr ++ tr')
     /\ Monitor.paged tr'
        = List.concat (repeat (map (fun i =>
                                 Monitor.IntegrationError i
                                   (Monitor.name c ++ " is not updated for 5 minutes.")%string
                                   (Monitor.latestBlockNumber m))
                              (Monitor._integrations cfg)) n))
  /\ (forall w0 w1 tip tr0,
        Monitor.getTipIndex c w0 = (Resolved tip, w1) ->
        Monitor.latestBlockNumber m + 1 <= tip ->
        Monitor.paged (snd (Monitor.while_loop c cfg 1 m w0 tr0)) = Monitor.paged tr0).
Proof.
  intros Hst. split.
  - apply stalled_polls. exact Hst.
  - intros. eapply ahead_poll_is_silent; eassumption.
Qed.

Lemma stall_pages_on_every_poll_witness :
  (exists w' tr',
     Monitor.while_loop MonitorScenario.quiet_chain MonitorScenario.fresh (3 + 0)
       MonitorScenario.at_ten MonitorScenario.late []
     = Monitor.while_loop MonitorScenario.quiet_chain MonitorScenario.fresh 0
         MonitorScenario.at_ten w' ([] ++ tr')
     /\ Monitor.paged tr'
        = List.concat (repeat (map (fun i =>
                                 Monitor.IntegrationError i
                                   ("ScriptedMonitor" ++ " is not updated for 5 minutes.")%string
                                   10)
                              ["pagerduty"%string]) 3))
  /\ (forall w0 w1 tip tr0,
        Monitor.getTipIndex MonitorScenario.quiet_chain w0 = (Resolved tip, w1) ->
        10 + 1 <= tip ->
        Monitor.paged (snd (Monitor.while_loop MonitorScenario.quiet_chain
                              MonitorScenario.fresh 1 MonitorScenario.at_ten w0 tr0))
        = Monitor.paged tr0).
Proof.
  apply (stall_pages_on_every_poll MonitorScenario.quiet_chain MonitorScenario.fresh
           3 0 MonitorScenario.at_ten MonitorScenario.late []).
  repeat (eexists; eexists; split; [reflexivity | ];
          split; [cbn; lia | ]; split; [cbn; lia | ]).
  exact I.
Defined.

(** C8 (as stated) fails while the tip is ahead: every attempt on block
    11 rejects, ten polls and ten minutes pass without any progress, and
    the configured integration is never invoked. *)
Lemma no_alert_while_tip_is_ahead :
  exists tr,
    Monitor.next MonitorScenario.stuck MonitorScenario.fresh 10
      (Monitor.LoopHead MonitorScenario.at_ten) MonitorScenario.world0
    = (Monitor.Pending, Monitor.LoopHead MonitorScenario.at_ten,
       {| MonitorScenario.clock := 600000; MonitorScenario.tip_calls := 10;
          MonitorScenario.hash_calls := 10 |}, tr)
    /\ Monitor.TIMEOUT < 600000 - Monitor.updatedAt MonitorScenario.at_ten
    /\ Monitor._integrations MonitorScenario.fresh = ["pagerduty"%string]
    /\ Monitor.paged tr = [].
Proof.
  eexists. split; [vm_compute; reflexivity | ].
  repeat split.
Qed.

(** ** The mutex of [NCGKMSTransfer] *)

Section MutexFacts.
Import Mutex.

Lemma update_same (f : nat -> pc) (i : nat) (v : pc) : update f i v i = v.
Proof. unfold update. rewrite Nat.eqb_refl. reflexivity. Qed.

Lemma update_other (f : nat -> pc) (i j : nat) (v : pc) :
  j <> i -> update f i v j = f j.
Proof. unfold update. intros H. apply Nat.eqb_neq in H. rewrite H. reflexivity. Qed.

Lemma release_keeps (s : state) (i : nat) :
  body_holds_lock s -> in_body (pcs s i) = true -> body_holds_lock (release s i).
Proof.
  intros Hinv Hi j. unfold release; cbn [pcs holder].
  destruct (Nat.eq_dec j i) as [-> | Hne].
  - rewrite update_same. discriminate.
  - rewrite update_other by exact Hne. intros Hj.
    pose proof (Hinv _ Hi). pose proof (Hinv _ Hj). congruence.
Qed.

Lemma advance_keeps (s : state) (i : nat) (v : pc) :
  body_holds_lock s -> (in_body v = true -> in_body (pcs s i) = true) ->
  body_holds_lock (advance s i v).
Proof.
  intros Hinv Hv j. unfold advance; cbn [pcs holder].
  destruct (Nat.eq_dec j i) as [-> | Hne].
  - rewrite update_same. intros Hb. apply Hinv, Hv, Hb.
  - rewrite update_other by exact Hne. apply Hinv.
Qed.

Lemma step_keeps (a : action) (s s' : state) :
  body_holds_lock s -> step a s = Some s' -> body_holds_lock s'.
Proof.
  intros Hinv. destruct a as [i ok | reaches | i ok]; cbn [step].
  - destruct (pcs s i) eqn:Hi; try discriminate.
    destruct ok; intros [= <-].
    + intros j; cbn [pcs holder]. destruct (Nat.eq_dec j i) as [-> | Hne].
      * rewrite update_same. discriminate.
      * rewrite update_other by exact Hne. apply Hinv.
    + apply advance_keeps; [exact Hinv | discriminate].
  - destruct (holder s) eqn:Hh; [discriminate | ].
    destruct (queue s) as [ | i q]; [discriminate | ].
    assert (Hfree : forall j, in_body (pcs s j) = false).
    { intros j. destruct (in_body (pcs s j)) eqn:Hj; [ | reflexivity].
      apply Hinv in Hj. congruence. }
    destruct reaches; intros [= <-]; intros j; cbn [pcs holder].
    + destruct (Nat.eq_dec j i) as [-> | Hne]; [reflexivity | ].
      rewrite update_other by exact Hne. rewrite Hfree. discriminate.
    + destruct (Nat.eq_dec j i) as [-> | Hne].
      * rewrite update_same. discriminate.
      * rewrite update_other by exact Hne. rewrite Hfree. discriminate.
  - destruct (pcs s i) eqn:Hi; try discriminate; intros [= <-].
    + destruct ok; [ | apply release_keeps; [exact Hinv | rewrite Hi; reflexivity]].
      apply advance_keeps; [exact Hinv | rewrite Hi; reflexivity].
    + destruct ok; [ | apply release_keeps; [exact Hinv | rewrite Hi; reflexivity]].
      apply advance_keeps; [exact Hinv | rewrite Hi; reflexivity].
    + apply release_keeps; [exact Hinv | rewrite Hi; reflexivity].
Qed.

Lemma run_keeps (acts : list action) :
  forall s, body_holds_lock s -> body_holds_lock (run acts s).
Proof.
  induction acts as [ | a acts IH]; intros s Hinv; cbn [run]; [exact Hinv | ].
  destruct (step a s) as [s' | ] eqn:Hs; apply IH; [ | exact Hinv].
  eapply step_keeps; eassumption.
Qed.

Lemma init_holds : body_holds_lock init.
Proof. intros i. cbn. discriminate. Qed.

Lemma filter_none (f : nat -> bool) (l : list nat) :
  (forall i, In i l -> f i = false) -> filter f l = [].
Proof.
  induction l as [ | x l IH]; intros H; [reflexivity | ].
  cbn [filter]. rewrite (H x) by (left; reflexivity).
  apply IH. intros i Hi. apply H. right. exact Hi.
Qed.

Lemma at_most_one (f : nat -> bool) (j : nat) :
  (forall i, f i = true -> i = j) ->
  forall K start, (List.length (filter f (seq start K)) <= 1)%nat.
Proof.
  intros Hf. induction K as [ | K IH]; intros start; cbn [seq filter]; [cbn; lia | ].
  destruct (f start) eqn:Hs; [ | apply IH].
  rewrite filter_none; [cbn; lia | ].
  intros i Hi. apply in_seq in Hi.
  destruct (f i) eqn:Hfi; [ | reflexivity].
  apply Hf in Hs. apply Hf in Hfi. lia.
Qed.

Lemma critical_section_bound (K : nat) (s : state) :
  body_holds_lock s -> (in_critical_section K s <= 1)%nat.
Proof.
  intros Hinv. unfold in_critical_section.
  destruct (holder s) as [j | ] eqn:Hh.
  - apply (at_most_one _ j). intros i Hi. apply Hinv in Hi. congruence.
  - rewrite filter_none; [cbn; lia | ].
    intros i _. destruct (in_body (pcs s i)) eqn:Hi; [ | reflexivity].
    apply Hinv in Hi. congruence.
Qed.

Lemma in_flight_le_critical (K : nat) (s : state) :
  (in_flight K s <= in_critical_section K s)%nat.
Proof.
  unfold in_flight, in_critical_section.
  induction (seq 0 K) as [ | i l IH]; [cbn; lia | ].
  cbn [filter]. destruct (pcs s i); cbn [is_creating in_body List.length]; lia.
Qed.

End MutexFacts.

(** C7. Under every schedule of any number [K] of calls of [transfer] on
    the one [NCGKMSTransfer] instance that index.ts hands to both
    observers, at most one call is inside the build-sign-stage sequence,
    that call holds the mutex, and so at most one [createUnsignedTx] request
    is in flight. *)
Theorem one_unsigned_tx_in_flight (K : nat) (schedule : list Mutex.action) :
  let s := Mutex.run schedule Mutex.init in
  (Mutex.in_flight K s <= 1)%nat
  /\ (Mutex.in_critical_section K s <= 1)%nat
  /\ (forall i, Mutex.in_body (Mutex.pcs s i) = true -> Mutex.holder s = Some i).
Proof.
  intros s.
  assert (Hinv : Mutex.body_holds_lock s) by (apply run_keeps, init_holds).
  pose proof (critical_section_bound K s Hinv).
  pose proof (in_flight_le_critical K s).
  repeat split; [lia | assumption | apply Hinv].
Qed.

(** Three calls at once: the first is building its transaction, the other
    two wait in the queue whatever is dispatched. *)
Example three_callers :
  let s := Mutex.run [Mutex.Call 0 true; Mutex.Call 1 true; Mutex.Call 2 true;
                      Mutex.Dispatch true; Mutex.Dispatch true; Mutex.Reply 1 true]
             Mutex.init in
  Mutex.holder s = Some 0%nat
  /\ Mutex.queue s = [1%nat; 2%nat]
  /\ map (Mutex.pcs s) [0%nat; 1%nat; 2%nat] = [Mutex.Creating; Mutex.Queued; Mutex.Queued]
  /\ Mutex.in_flight 3 s = 1%nat.
Proof. vm_compute. repeat split. Qed.

(** * Further properties of the code *)

(** ** [NCGKMSTransfer.transfer]: what reaches the endpoints *)

(** The six ways a call of [transfer] can go, with the equations of the
    steps it took. *)
Ltac transfer_paths lib self address amount memo :=
  unfold Transfer.transfer;
  let n := fresh "n" in let e := fresh "e" in let pv := fresh "pv" in
  let primary := fresh "primary" in let u := fresh "u" in let tx := fresh "tx" in
  let r := fresh "r" in let evs := fresh "evs" in
  destruct (Transfer.ncgAmount lib amount) as [n | e] eqn:Hamount;
  [ destruct (Transfer.plainValue lib self address n memo) as [pv | e] eqn:Hplain;
    [ destruct (Transfer.headlessGraphQLClient self) as [primary | ] eqn:Hprimary;
      [ destruct (Transfer.createUnsignedTx primary (Transfer.encode_base64 lib pv)
                    (Transfer._publicKey self)) as [u | e] eqn:Hcreate;
        [ destruct (Transfer._signer self (Transfer.base64_to_hex lib u))
            as [tx | e] eqn:Hsign;
          [ destruct (Transfer.stage lib self tx) as [r evs] eqn:Hstage | ]
        | ]
      | ]
    | ]
  | ]; cbn [fst snd].

Section RequestFacts.
Import Transfer TransferShape.

Variable lib : library.
Variable self : ncg_kms_transfer.

Lemma map_outcome_resolved {A B} (f : A -> outcome B) (l : list A) (ys : list B) :
  map_outcome f l = Resolved ys -> forall x, In x l -> exists y, f x = Resolved y.
Proof.
  revert ys. induction l as [ | a l IH]; intros ys H x Hin; [destruct Hin | ].
  cbn [map_outcome] in H. unfold bind in H.
  destruct (f a) as [y | e] eqn:Ha; [ | discriminate].
  destruct (map_outcome f l) as [ys' | e] eqn:Hl; [ | discriminate].
  destruct Hin as [<- | Hin]; [eauto | ]. eapply IH; [reflexivity | exact Hin].
Qed.

Lemma plainValue_inputs (address : string) (n : Decimal.number)
    (memo : option string) (pv : plain) :
  plainValue lib self address n memo = Resolved pv ->
  forall x, In x (hex_inputs self address) -> exists b, hexToBytes lib x = Resolved b.
Proof.
  unfold plainValue, bind, hex_inputs.
  destruct (map_outcome (hexToBytes lib) (_minters self)) as [ms | ] eqn:Hm; [ | discriminate].
  destruct (hexToBytes lib address) as [rc | ] eqn:Hr; [ | discriminate].
  destruct (hexToBytes lib (_address self)) as [sn | ] eqn:Hs; [ | discriminate].
  intros _ x Hin. apply in_app_or in Hin as [Hin | [<- | [<- | []]]]; eauto.
  eapply map_outcome_resolved; eassumption.
Qed.

Lemma plainValue_shape (address : string) (n : Decimal.number)
    (memo : option string) (pv : plain) :
  plainValue lib self address n memo = Resolved pv ->
  type_id_of pv = Some (PText "transfer_asset3")
  /\ map fst (values_of pv)
     = ["amount"%string]
         ++ match memo with Some _ => ["memo"%string] | None => [] end
         ++ ["recipient"%string; "sender"%string]
  /\ lookup "memo" (values_of pv) = option_map PText memo
  /\ lookup "decimalPlaces" (currency_of pv) = Some (PBytes [2])
  /\ lookup "ticker" (currency_of pv) = Some (PText "NCG")
  /\ (exists recipient, hexToBytes lib address = Resolved recipient
                        /\ lookup "recipient" (values_of pv) = Some (PBytes recipient))
  /\ (exists sender, hexToBytes lib (_address self) = Resolved sender
                     /\ lookup "sender" (values_of pv) = Some (PBytes sender))
  /\ (exists minters, map_outcome (hexToBytes lib) (_minters self) = Resolved minters
                      /\ lookup "minters" (currency_of pv)
                         = Some (PList (map PBytes minters))).
Proof.
  unfold plainValue, bind.
  destruct (map_outcome (hexToBytes lib) (_minters self)) as [ms | ] eqn:Hm; [ | discriminate].
  destruct (hexToBytes lib address) as [rc | ] eqn:Hr; [ | discriminate].
  destruct (hexToBytes lib (_address self)) as [sn | ] eqn:Hs; [ | discriminate].
  intros [= <-]. destruct memo; cbn; repeat split; eauto.
Qed.

End RequestFacts.

(** X1. A call of [transfer] stages nothing but the transaction the
    signer returned for the unsigned transaction of client 0. When
    [createUnsignedTx] rejects, the call rejects with that error after this
    one request; when the signer rejects, the call rejects with that error
    and no endpoint is asked to stage. *)
Theorem transfer_stages_only_what_was_signed
    (lib : Transfer.library) (self : Transfer.ncg_kms_transfer)
    (address amount : string) (memo : option string) :
  let r := fst (Transfer.transfer lib self address amount memo) in
  let tr := snd (Transfer.transfer lib self address amount memo) in
  let pk := Transfer._publicKey self in
  (forall i p, In (Transfer.StageTx i p) tr ->
     exists primary payload unsignedTx tx,
       nth_error (Transfer._headlessGraphQLCLients self) 0 = Some primary
       /\ Transfer.createUnsignedTx primary payload pk = Resolved unsignedTx
       /\ Transfer._signer self (Transfer.base64_to_hex lib unsignedTx) = Resolved tx
       /\ p = Transfer.hex_to_base64 lib tx)
  /\ (forall primary payload e,
        nth_error (Transfer._headlessGraphQLCLients self) 0 = Some primary ->
        In (Transfer.CreateUnsignedTx 0 payload pk) tr ->
        Transfer.createUnsignedTx primary payload pk = Rejected e ->
        r = Rejected e /\ tr = [Transfer.CreateUnsignedTx 0 payload pk])
  /\ (forall u e,
        In (Transfer.Sign u) tr ->
        Transfer._signer self u = Rejected e ->
        r = Rejected e
        /\ forallb (fun ev => negb (Transfer.is_staging ev)) tr = true).
Proof.
  cbv zeta.
  assert (Hkinds : forall tx ev, In ev (snd (Transfer.stage lib self tx)) ->
                     Transfer.is_staging ev = true).
  { intros tx ev Hin. pose proof (stage_only_staging lib self tx) as H.
    rewrite forallb_forall in H. apply H, Hin. }
  transfer_paths lib self address amount memo.
  - (* signed and staged *)
    pose proof (Hkinds tx) as Hk. rewrite Hstage in Hk. cbn [snd] in Hk.
    repeat split.
    + intros i p [H | [H | Hin]]; [discriminate | discriminate | ].
      pose proof (stage_request lib self tx i p) as Hreq.
      rewrite Hstage in Hreq. cbn [snd] in Hreq. apply Hreq in Hin as [-> _].
      exists primary, (Transfer.encode_base64 lib pv), u, tx. auto.
    + destruct H0 as [H0 | [H0 | H0]]; [ | discriminate | apply Hk in H0; discriminate].
      injection H0 as <-. unfold Transfer.headlessGraphQLClient in Hprimary. congruence.
    + destruct H0 as [H0 | [H0 | H0]]; [ | discriminate | apply Hk in H0; discriminate].
      injection H0 as <-. unfold Transfer.headlessGraphQLClient in Hprimary. congruence.
    + destruct H as [H | [H | H]]; [discriminate | | apply Hk in H; discriminate].
      injection H as <-. congruence.
    + destruct H as [H | [H | H]]; [discriminate | | apply Hk in H; discriminate].
      injection H as <-. congruence.
  - (* the signer rejected *)
    repeat split.
    + intros i p [H | [H | []]]; discriminate.
    + destruct H0 as [H0 | [H0 | []]]; [ | discriminate].
      injection H0 as <-. unfold Transfer.headlessGraphQLClient in Hprimary. congruence.
    + destruct H0 as [H0 | [H0 | []]]; [ | discriminate].
      injection H0 as <-. unfold Transfer.headlessGraphQLClient in Hprimary. congruence.
    + destruct H as [H | [H | []]]; [discriminate | ].
      injection H as <-. congruence.
  - (* [createUnsignedTx] rejected *)
    repeat split.
    + intros i p [H | []]; discriminate.
    + destruct H0 as [H0 | []]. injection H0 as <-.
      unfold Transfer.headlessGraphQLClient in Hprimary. congruence.
    + destruct H0 as [H0 | []]. injection H0 as <-. reflexivity.
    + destruct H as [H | []]; discriminate.
  - repeat split; intros; contradiction.
  - repeat split; intros; contradiction.
  - repeat split; intros; contradiction.
Qed.

(** X2. A call that cannot build its request, because the client list is
    empty or because one of the minters, the recipient or the sender is
    not convertible by [hexToBytes], rejects without contacting any
    endpoint or the signer. *)
Theorem transfer_bad_request_contacts_nobody
    (lib : Transfer.library) (self : Transfer.ncg_kms_transfer)
    (address amount : string) (memo : option string) :
  Transfer._headlessGraphQLCLients self = []
  \/ (exists x e, In x (TransferShape.hex_inputs self address)
                  /\ Transfer.hexToBytes lib x = Rejected e) ->
  exists e, Transfer.transfer lib self address amount memo = (Rejected e, []).
Proof.
  intros Hbad. unfold Transfer.transfer.
  destruct (Transfer.ncgAmount lib amount) as [n | e]; [ | eauto].
  destruct (Transfer.plainValue lib self address n memo) as [pv | e] eqn:Hplain; [ | eauto].
  destruct Hbad as [Hnone | (x & e & Hin & Hx)].
  - unfold Transfer.headlessGraphQLClient. rewrite Hnone. cbn. eauto.
  - destruct (plainValue_inputs lib self address n memo pv Hplain x Hin) as [b Hb].
    congruence.
Qed.

Lemma transfer_bad_request_contacts_nobody_witness :
  exists e,
    Transfer.transfer TransferScenario.lib (TransferScenario.bridge [])
      "0xabc" "50.011" None
    = (Rejected e, []).
Proof.
  apply (transfer_bad_request_contacts_nobody TransferScenario.lib
           (TransferScenario.bridge []) "0xabc" "50.011" None).
  left. reflexivity.
Defined.

(** X3. Every request [transfer] sends to the node encodes a plain value
    of type [transfer_asset3] whose values are, in this order, the amount,
    the memo when one was given (no entry at all for [null]), the recipient
    and the sender, both as the bytes of the given addresses; the currency
    has two decimal places, the ticker NCG and the configured minters; and
    the request carries the public key of the instance. *)
Theorem transfer_request_shape
    (lib : Transfer.library) (self : Transfer.ncg_kms_transfer)
    (address amount : string) (memo : option string)
    (i : nat) (payload pk : string) :
  In (Transfer.CreateUnsignedTx i payload pk)
     (snd (Transfer.transfer lib self address amount memo)) ->
  pk = Transfer._publicKey self
  /\ exists pv,
       payload = Transfer.encode_base64 lib pv
       /\ TransferShape.type_id_of pv = Some (Transfer.PText "transfer_asset3")
       /\ map fst (TransferShape.values_of pv)
          = ["amount"%string]
              ++ match memo with Some _ => ["memo"%string] | None => [] end
              ++ ["recipient"%string; "sender"%string]
       /\ Transfer.lookup "memo" (TransferShape.values_of pv)
          = option_map Transfer.PText memo
       /\ Transfer.lookup "decimalPlaces" (TransferShape.currency_of pv)
          = Some (Transfer.PBytes [2])
       /\ Transfer.lookup "ticker" (TransferShape.currency_of pv)
          = Some (Transfer.PText "NCG")
       /\ (exists recipient,
             Transfer.hexToBytes lib address = Resolved recipient
             /\ Transfer.lookup "recipient" (TransferShape.values_of pv)
                = Some (Transfer.PBytes recipient))
       /\ (exists sender,
             Transfer.hexToBytes lib (Transfer._address self) = Resolved sender
             /\ Transfer.lookup "sender" (TransferShape.values_of pv)
                = Some (Transfer.PBytes sender))
       /\ (exists minters,
             Transfer.map_outcome (Transfer.hexToBytes lib) (Transfer._minters self)
             = Resolved minters
             /\ Transfer.lookup "minters" (TransferShape.currency_of pv)
                = Some (Transfer.PList (map Transfer.PBytes minters))).
Proof.
  intros Hin.
  assert (Hpk : pk = Transfer._publicKey self).
  { destruct (transfer_trace_shape lib self address amount memo)
      as [Hnil | (primary & p & _ & [Hone | (u & rest & _ & Htr & Hrest)])].
    - rewrite Hnil in Hin. destruct Hin.
    - rewrite Hone in Hin. destruct Hin as [[= _ _ <-] | []]. reflexivity.
    - rewrite Htr in Hin. destruct Hin as [[= _ _ <-] | [H | Hin]];
        [reflexivity | discriminate | ].
      rewrite forallb_forall in Hrest. apply Hrest in Hin. discriminate. }
  split; [exact Hpk | ].
  destruct (create_request_payload lib self address amount memo i payload pk Hin)
    as (n & pv & _ & Hplain & -> & _).
  exists pv. split; [reflexivity | ].
  eapply plainValue_shape. exact Hplain.
Qed.

Lemma transfer_request_shape_witness :
  "pk"%string = Transfer._publicKey
                  (TransferScenario.bridge [TransferScenario.primary; TransferScenario.accepting])
  /\ exists pv,
       "{type_id:transfer_asset3,values:{amount:[{decimalPlaces:<2>,minters:[<8>],ticker:NCG},5001],memo:refund,recipient:<5>,sender:<8>}}"%string
       = Transfer.encode_base64 TransferScenario.lib pv
       /\ TransferShape.type_id_of pv = Some (Transfer.PText "transfer_asset3")
       /\ map fst (TransferShape.values_of pv)
          = ["amount"%string] ++ ["memo"%string] ++ ["recipient"%string; "sender"%string]
       /\ Transfer.lookup "memo" (TransferShape.values_of pv)
          = option_map Transfer.PText (Some "refund"%string)
       /\ Transfer.lookup "decimalPlaces" (TransferShape.currency_of pv)
          = Some (Transfer.PBytes [2])
       /\ Transfer.lookup "ticker" (TransferShape.currency_of pv)
          = Some (Transfer.PText "NCG")
       /\ (exists recipient,
             Transfer.hexToBytes TransferScenario.lib "0xabc" = Resolved recipient
             /\ Transfer.lookup "recipient" (TransferShape.values_of pv)
                = Some (Transfer.PBytes recipient))
       /\ (exists sender,
             Transfer.hexToBytes TransferScenario.lib "0xbridge" = Resolved sender
             /\ Transfer.lookup "sender" (TransferShape.values_of pv)
                = Some (Transfer.PBytes sender))
       /\ (exists minters,
             Transfer.map_outcome (Transfer.hexToBytes TransferScenario.lib)
               ["0xminter"%string]
             = Resolved minters
             /\ Transfer.lookup "minters" (TransferShape.currency_of pv)
                = Some (Transfer.PList (map Transfer.PBytes minters))).
Proof.
  apply (transfer_request_shape TransferScenario.lib
           (TransferScenario.bridge [TransferScenario.primary; TransferScenario.accepting])
           "0xabc" "50.011" (Some "refund"%string) 0
           "{type_id:transfer_asset3,values:{amount:[{decimalPlaces:<2>,minters:[<8>],ticker:NCG},5001],memo:refund,recipient:<5>,sender:<8>}}"
           "pk").
  vm_compute. left. reflexivity.
Defined.

(** X4. For every amount that the constructor of decimal.js reads as a
    finite Decimal (one the library holds) of at most 20 significant digits
    whose hundredfold is below 2^53 in magnitude, the integer amount [n]
    never exceeds what was asked for and falls short of it by less than one
    hundredth: [n <= amount * 100 < n + 1]. The sign is not checked: a
    negative amount is passed on as a negative integer. *)
Theorem transfer_amount_bounds
    (lib : Transfer.library) (amount : string) (a : Decimal.t) :
  Transfer.new_Decimal lib amount = Resolved (Decimal.Fin a) ->
  Decimal.representable a ->
  Decimal.sd a <= Decimal.precision ->
  Z.abs (Transfer.spec_integerAmount (Decimal.to_Q a)) < 2 ^ 53 ->
  exists n,
    Transfer.ncgAmount lib amount = Resolved (Decimal.Finite n)
    /\ (inject_Z n <= Decimal.to_Q a * 100)%Q
    /\ (Decimal.to_Q a * 100 < inject_Z n + 1)%Q
    /\ ((0 <= Decimal.to_Q a)%Q -> 0 <= n)
    /\ ((Decimal.to_Q a < 0)%Q -> n < 0).
Proof.
  intros Hparse Hrep Hsd Hsmall.
  exists (Transfer.spec_integerAmount (Decimal.to_Q a)).
  unfold Transfer.spec_integerAmount in *.
  split; [ | split; [ | split; [ | split]]].
  - unfold Transfer.ncgAmount. rewrite Hparse. f_equal.
    apply ncgAmount_of_finite; assumption.
  - apply Qfloor_le.
  - rewrite <- (inject_Z_plus _ 1). apply Qlt_floor.
  - intros Hpos. change 0 with (Qfloor 0). apply Qfloor_resp_le.
    apply Qmult_le_0_compat; [exact Hpos | discriminate].
  - intros Hneg.
    assert (H : (inject_Z (Qfloor (Decimal.to_Q a * 100)) < inject_Z 0)%Q).
    { eapply Qle_lt_trans; [apply Qfloor_le | ].
      change (inject_Z 0) with (0 * 100)%Q.
      apply Qmult_lt_compat_r; [reflexivity | exact Hneg]. }
    rewrite <- Zlt_Qlt in H. exact H.
Qed.

Lemma transfer_amount_bounds_witness :
  exists n,
    Transfer.ncgAmount TransferScenario.lib "-1.1e-2" = Resolved (Decimal.Finite n)
    /\ (inject_Z n <= Decimal.to_Q (Decimal.mk (-11) (-3)) * 100)%Q
    /\ (Decimal.to_Q (Decimal.mk (-11) (-3)) * 100 < inject_Z n + 1)%Q
    /\ ((0 <= Decimal.to_Q (Decimal.mk (-11) (-3)))%Q -> 0 <= n)
    /\ ((Decimal.to_Q (Decimal.mk (-11) (-3)) < 0)%Q -> n < 0).
Proof.
  apply (transfer_amount_bounds TransferScenario.lib "-1.1e-2" (Decimal.mk (-11) (-3))).
  - reflexivity.
  - right. vm_compute. split; discriminate.
  - vm_compute. discriminate.
  - vm_compute. reflexivity.
Defined.

Section AskedFacts.
Import Transfer TransferShape.

Lemma filter_map_all {A B} (f : B -> bool) (g : A -> B) (l : list A) :
  (forall x, f (g x) = true) -> filter f (map g l) = map g l.
Proof.
  intros H. induction l as [ | x l IH]; [reflexivity | ].
  cbn [map filter]. rewrite H, IH. reflexivity.
Qed.

Lemma NoDup_map_Some {A} (l : list A) : NoDup l -> NoDup (map Some l).
Proof.
  induction 1 as [ | x l Hx _ IH]; cbn [map]; constructor; [ | exact IH].
  intros Hin. apply in_map_iff in Hin as [y [[= ->] Hy]]. exact (Hx Hy).
Qed.

Lemma filter_map_all_in {A B} (f : B -> bool) (g : A -> B) (l : list A) :
  (forall x, In x l -> f (g x) = true) -> filter f (map g l) = map g l.
Proof.
  induction l as [ | x l IH]; intros H; [reflexivity | ].
  cbn [map filter]. rewrite (H x) by (left; reflexivity).
  rewrite IH; [reflexivity | ]. intros y Hy. apply H. right. exact Hy.
Qed.

Lemma filter_map_none {A B} (f : B -> bool) (g : A -> B) (l : list A) :
  (forall x, f (g x) = false) -> filter f (map g l) = [].
Proof.
  intros H. induction l as [ | x l IH]; [reflexivity | ].
  cbn [map filter]. rewrite H, IH. reflexivity.
Qed.

Lemma filter_none_in {A} (f : A -> bool) (l : list A) :
  (forall x, In x l -> f x = false) -> filter f l = [].
Proof.
  induction l as [ | x l IH]; intros H; [reflexivity | ].
  cbn [filter]. rewrite (H x) by (left; reflexivity).
  apply IH. intros y Hy. apply H. right. exact Hy.
Qed.

Variable lib : library.
Variable self : ncg_kms_transfer.

Lemma stage_asked_answered (tx : string) :
  asked (snd (stage lib self tx))
  = map Some (seq 0 (List.length (_headlessGraphQLCLients self)))
  /\ Permutation (answered (snd (stage lib self tx)))
       (map Some (seq 0 (List.length (_headlessGraphQLCLients self)))).
Proof.
  unfold asked, answered, stage; cbn [snd].
  rewrite !filter_app, !map_app.
  split.
  - rewrite filter_map_all by reflexivity.
    rewrite filter_none_in, app_nil_r.
    + rewrite map_map. cbn [client_index_of].
      rewrite <- (map_map fst Some), map_fst_indexed. reflexivity.
    + intros ev Hin. apply In_answers, in_map_iff in Hin as [x [<- Hin]].
      apply in_map_iff in Hin as [ic [<- _]].
      unfold settle. destruct (stageTx (snd ic) _); reflexivity.
  - rewrite filter_map_none by reflexivity. cbn [app].
    set (settled := map (settle (hex_to_base64 lib tx))
                      (indexed (_headlessGraphQLCLients self))).
    assert (Hall : filter is_answer (map fst (arrival (settling lib) settled))
                   = map fst (arrival (settling lib) settled)).
    { apply filter_map_all_in. intros x Hin.
      apply In_arrival in Hin. subst settled.
      apply in_map_iff in Hin as [ic [<- _]].
      unfold settle. destruct (stageTx (snd ic) _); reflexivity. }
    rewrite Hall, map_map.
    rewrite (Permutation_map _ (arrival_perm settled (settling lib))).
    subst settled. rewrite map_map.
    rewrite <- map_fst_indexed, map_map.
    apply Permutation_refl'. apply map_ext.
    intros ic. unfold settle. destruct (stageTx (snd ic) _); reflexivity.
Qed.

End AskedFacts.

(** X5. In one call of [transfer] no endpoint is asked to stage twice:
    either nobody is asked, or the clients 0, 1, ... are asked once each,
    in the order of the client list; and exactly one answer per asked
    client is handled. The answers are handled in the order in which they
    come in, which need not be the order of the list. *)
Theorem transfer_asks_each_client_once
    (lib : Transfer.library) (self : Transfer.ncg_kms_transfer)
    (address amount : string) (memo : option string) :
  let tr := snd (Transfer.transfer lib self address amount memo) in
  Permutation (TransferShape.answered tr) (TransferShape.asked tr)
  /\ NoDup (TransferShape.asked tr)
  /\ (TransferShape.asked tr = []
      \/ TransferShape.asked tr
         = map Some (seq 0 (List.length (Transfer._headlessGraphQLCLients self)))).
Proof.
  cbv zeta.
  destruct (transfer_cases lib self address amount memo)
    as [(e & _ & Hev) | (p' & k & u' & tx & _ & _ & _ & ->)].
  - assert (Hreq : filter Transfer.is_request
                       (snd (Transfer.transfer lib self address amount memo)) = []).
      { apply filter_none_in. intros ev Hin.
        destruct (Hev ev Hin) as [(? & ? & ->) | (? & ->)]; reflexivity. }
      assert (Hans : filter Transfer.is_answer
                       (snd (Transfer.transfer lib self address amount memo)) = []).
      { apply filter_none_in. intros ev Hin.
        destruct (Hev ev Hin) as [(? & ? & ->) | (? & ->)]; reflexivity. }
      unfold TransferShape.asked, TransferShape.answered. rewrite Hreq, Hans.
      split; [reflexivity | split; [constructor | left; reflexivity]].
  - destruct (stage_asked_answered lib self tx) as [Ha Hb].
    unfold TransferShape.asked, TransferShape.answered in *.
    cbn [app filter Transfer.is_request Transfer.is_answer].
    rewrite Ha. split; [exact Hb | split; [ | right; reflexivity]].
    apply NoDup_map_Some, seq_NoDup.
Qed.

(** In the deployment of [TransferScenario] the answer of the primary is
    handled last. *)
Example answers_out_of_order :
  let tr := snd (Transfer.transfer TransferScenario.lib
                   (TransferScenario.bridge
                      [TransferScenario.primary; TransferScenario.refusing;
                       TransferScenario.accepting])
                   "0xabc" "50.011" None) in
  TransferShape.asked tr = [Some 0; Some 1; Some 2]%nat
  /\ TransferShape.answered tr = [Some 1; Some 2; Some 0]%nat.
Proof. split; vm_compute; reflexivity. Qed.

(** ** [WrappedNCGMinter.mint]: who hears about what *)

(** Counting and membership facts about a literal trace. *)
Ltac trace_facts :=
  cbn; repeat split; try lia; try discriminate; try (intros [? ?]; discriminate).

(** The cases of [H : x = a \/ x = b \/ ... \/ False], the impossible ones
    removed. *)
Ltac in_cases H :=
  repeat (destruct H as [H | H]; [try discriminate | ]); try contradiction.

(** X6. One call of [mint] sends at most one transaction and invokes each
    of the two callbacks at most once. A callback is invoked exactly when
    the transaction was sent: a failure before the send (gas price,
    amount) is reported to nobody, a sent transaction always to one of
    them. The success callback runs exactly when the send resolved, with
    its receipt. *)
Theorem mint_notifies_exactly_when_sent
    (self : Minter.wrapped_ncg_minter) (address : string) (amount : Decimal.t)
    (callback : Minter.TransactionReceipt -> outcome unit)
    (errorCallback : JSError -> outcome unit) :
  let tr := Minter.mint self address amount callback errorCallback in
  (List.length (MinterShape.sends tr) <= 1)%nat
  /\ (List.length (MinterShape.callbacks tr) <= 1)%nat
  /\ (List.length (MinterShape.errorCallbacks tr) <= 1)%nat
  /\ (MinterShape.sends tr = []
      <-> MinterShape.callbacks tr = [] /\ MinterShape.errorCallbacks tr = [])
  /\ (forall receipt,
        In (Minter.Callback receipt) tr
        <-> exists bn cfg,
              In (Minter.Send address bn cfg) tr
              /\ Minter.send (Minter._web3 self) address bn cfg = Resolved receipt).
Proof.
  cbv zeta. unfold Minter.mint, Minter.catch_with.
  destruct (Minter.getGasPrice (Minter._web3 self)) as [s | e0];
    [ | trace_facts; firstorder discriminate].
  destruct (Decimal.of_string s) as [p | ];
    [ | trace_facts; firstorder discriminate].
  destruct (Minter.toBN amount) as [bn | e0];
    [ | trace_facts; firstorder discriminate].
  cbv zeta.
  set (config := {| Minter.from := Some (Minter._minterAddress self);
                    Minter.gasPrice := _; Minter.maxPriorityFeePerGas := None |}).
  assert (Hback : forall receipt bn' cfg',
            Minter.Send address bn config = Minter.Send address bn' cfg' ->
            Minter.send (Minter._web3 self) address bn' cfg' = Resolved receipt ->
            Minter.send (Minter._web3 self) address bn config = Resolved receipt).
  { intros receipt bn' cfg' [= <- <-] Hs. exact Hs. }
  destruct (Minter.send (Minter._web3 self) address bn config) as [receipt | e0] eqn:Hsend.
  - destruct (callback receipt) as [ | e1]; [ | destruct (errorCallback e1)];
      trace_facts.
    all: try (intros Hc; in_cases Hc; injection Hc as <-;
              exists bn, config; split; [find_in_list | exact Hsend]).
    all: intros (bn' & cfg' & Hin & Hs); in_cases Hin;
      specialize (Hback _ _ _ Hin Hs); injection Hback as <-; find_in_list.
  - destruct (errorCallback e0); trace_facts.
    all: try (intros Hc; in_cases Hc; fail).
    all: intros (bn' & cfg' & Hin & Hs); in_cases Hin;
      specialize (Hback _ _ _ Hin Hs); discriminate.
Qed.

(** X7. An amount with a fraction part never leaves the minter: [toBN]
    refuses it inside the handler of the gas-price promise, so no
    transaction is sent and neither callback is invoked, whatever the node
    answers. *)
Theorem mint_fractional_amount_sends_nothing
    (self : Minter.wrapped_ncg_minter) (address : string) (amount : Decimal.t)
    (callback : Minter.TransactionReceipt -> outcome unit)
    (errorCallback : JSError -> outcome unit) :
  Decimal.is_integer amount = false ->
  let tr := Minter.mint self address amount callback errorCallback in
  MinterShape.sends tr = []
  /\ MinterShape.callbacks tr = []
  /\ MinterShape.errorCallbacks tr = []
  /\ exists e, tr = [ Minter.ConsoleLog (Minter._contractAddress self) address;
                      Minter.GetGasPrice; Minter.UnhandledRejection e ].
Proof.
  intros Hfrac. cbv zeta. unfold Minter.mint, Minter.toBN. rewrite Hfrac.
  destruct (Minter.getGasPrice (Minter._web3 self)) as [s | e0];
    [destruct (Decimal.of_string s) | ]; cbn; repeat split; eauto.
Qed.

Lemma mint_fractional_amount_sends_nothing_witness :
  let tr := Minter.mint
              (MinterScenario.minter
                 (MinterScenario.node (Resolved "100"%string) (Resolved MinterScenario.receipt)))
              "0xrecipient" (Decimal.mk 15 (-1)) MinterScenario.quiet MinterScenario.quiet in
  MinterShape.sends tr = []
  /\ MinterShape.callbacks tr = []
  /\ MinterShape.errorCallbacks tr = []
  /\ exists e, tr = [ Minter.ConsoleLog "0xwncg" "0xrecipient";
                      Minter.GetGasPrice; Minter.UnhandledRejection e ].
Proof.
  apply (mint_fractional_amount_sends_nothing
           (MinterScenario.minter
              (MinterScenario.node (Resolved "100"%string) (Resolved MinterScenario.receipt)))
           "0xrecipient" (Decimal.mk 15 (-1)) MinterScenario.quiet MinterScenario.quiet).
  reflexivity.
Defined.

(** *** The price with the tip, as a rational number *)

Section ProductFacts.
Import Decimal.

Lemma floor_Q (d : t) : floor d = Qfloor (to_Q d).
Proof.
  unfold floor, to_Q. destruct (Z.leb_spec 0 (exp d)) as [He | He].
  - symmetry. apply Qfloor_Z.
  - cbn [Qfloor]. rewrite Z2Pos.id by (apply pow10_pos; lia). reflexivity.
Qed.

Lemma pow10_Q (k : Z) : 0 <= k -> (inject_Z (10 ^ k) == 10 ^ k)%Q.
Proof. intros Hk. apply (Zpower_Qpower 10 k Hk). Qed.

(** The value of a Decimal is its coefficient times a power of ten. *)
Lemma to_Q_power (d : t) : (to_Q d == inject_Z (coef d) * 10 ^ exp d)%Q.
Proof.
  unfold to_Q. destruct (Z.leb_spec 0 (exp d)) as [He | He].
  - rewrite inject_Z_mult, pow10_Q by exact He. reflexivity.
  - pose proof (pow10_pos (- exp d) ltac:(lia)) as Hp.
    rewrite Qmake_Qdiv, Z2Pos.id by exact Hp.
    rewrite pow10_Q by lia.
    assert (Hinv : (10 ^ exp d == / 10 ^ (- exp d))%Q).
    { rewrite <- Qpower_opp, Z.opp_involutive. reflexivity. }
    rewrite Hinv. reflexivity.
Qed.

Lemma to_Q_product (x y : t) :
  (to_Q (MinterShape.exact_product x y) == to_Q x * to_Q y)%Q.
Proof.
  rewrite !to_Q_power. unfold MinterShape.exact_product; cbn [coef exp].
  rewrite inject_Z_mult, Qpower_plus by discriminate. ring.
Qed.

(** Within the precision [mul] is exact, so the floor of the product is
    the floor of the rational product. *)
Lemma floor_mul_exact (x y : t) :
  sd (MinterShape.exact_product x y) <= precision ->
  floor (mul x y) = Qfloor (to_Q x * to_Q y).
Proof.
  intros Hsd. unfold mul, finalise.
  change (num_digits (coef (normalise (mk (coef x * coef y) (exp x + exp y)))))
    with (sd (MinterShape.exact_product x y)).
  destruct (Z.leb_spec (sd (MinterShape.exact_product x y)) precision); [ | lia].
  rewrite floor_normalise, floor_Q.
  apply Qfloor_comp. apply (to_Q_product x y).
Qed.

End ProductFacts.

(** X8. Whenever [mint] sends, the transaction goes to the given address
    from the minter's address, with no priority fee, and (the product
    staying within the 20 digits of decimal.js) with the gas price
    [floor(p * r)] for the fetched price [p] and the tip ratio [r]; with a
    ratio of at least 1 that is never below the fetched price. *)
Theorem mint_gas_price_is_floor_of_product
    (self : Minter.wrapped_ncg_minter) (address : string) (amount : Decimal.t)
    (callback : Minter.TransactionReceipt -> outcome unit)
    (errorCallback : JSError -> outcome unit)
    (to : string) (bn : Z) (cfg : Minter.TransactionConfig) :
  In (Minter.Send to bn cfg) (Minter.mint self address amount callback errorCallback) ->
  exists gasPriceString p,
    Minter.getGasPrice (Minter._web3 self) = Resolved gasPriceString
    /\ Decimal.of_string gasPriceString = Some p
    /\ to = address
    /\ Minter.from cfg = Some (Minter._minterAddress self)
    /\ Minter.maxPriorityFeePerGas cfg = None
    /\ (Decimal.sd (MinterShape.exact_product p (Minter._gasTipRatio self))
        <= Decimal.precision ->
        Minter.gasPrice cfg
        = Some (Qfloor (Decimal.to_Q p * Decimal.to_Q (Minter._gasTipRatio self)))
        /\ ((1 <= Decimal.to_Q (Minter._gasTipRatio self))%Q ->
            (0 <= Decimal.to_Q p)%Q ->
            Qfloor (Decimal.to_Q p)
            <= Qfloor (Decimal.to_Q p * Decimal.to_Q (Minter._gasTipRatio self)))).
Proof.
  intros Hin.
  destruct (mint_send_config self address amount callback errorCallback to bn cfg Hin)
    as (s & p & Hs & Hp & -> & _ & ->).
  exists s, p. cbn [Minter.from Minter.maxPriorityFeePerGas Minter.gasPrice].
  repeat split; try assumption.
  - rewrite floor_mul_exact by assumption. reflexivity.
  - intros Hr Hpos. apply Qfloor_resp_le.
    rewrite <- (Qmult_1_r (Decimal.to_Q p)) at 1.
    rewrite !(Qmult_comm (Decimal.to_Q p)).
    apply Qmult_le_compat_r; assumption.
Qed.

Lemma mint_gas_price_is_floor_of_product_witness :
  exists gasPriceString p,
    Resolved "100"%string = Resolved gasPriceString
    /\ Decimal.of_string gasPriceString = Some p
    /\ "0xrecipient"%string = "0xrecipient"%string
    /\ Some "0xkms"%string = Some "0xkms"%string
    /\ @None Z = None
    /\ (Decimal.sd (MinterShape.exact_product p (Decimal.mk 2 0)) <= Decimal.precision ->
        Some 200 = Some (Qfloor (Decimal.to_Q p * Decimal.to_Q (Decimal.mk 2 0)))
        /\ ((1 <= Decimal.to_Q (Decimal.mk 2 0))%Q ->
            (0 <= Decimal.to_Q p)%Q ->
            Qfloor (Decimal.to_Q p)
            <= Qfloor (Decimal.to_Q p * Decimal.to_Q (Decimal.mk 2 0)))).
Proof.
  apply (mint_gas_price_is_floor_of_product
           (MinterScenario.minter
              (MinterScenario.node (Resolved "100"%string) (Resolved MinterScenario.receipt)))
           "0xrecipient" (Decimal.mk 5 18) MinterScenario.quiet MinterScenario.quiet
           "0xrecipient" 5000000000000000000
           {| Minter.from := Some "0xkms"%string; Minter.gasPrice := Some 200;
              Minter.maxPriorityFeePerGas := None |}).
  vm_compute. find_in_list.
Defined.

(** ** [TriggerableMonitor.loop]: where it starts, what it yields, when it
    sleeps *)

(** X9. Started without a stored location, the monitor reads the tip
    once and (with one block per trigger) yields the blocks after it, from
    [tip + 1] on: no block at or below the tip seen at the start is ever
    yielded. *)
Theorem fresh_start_begins_after_tip
    {World TEventData Integration : Type}
    (c : Monitor.chain World TEventData) (cfg : Monitor.config Integration)
    (between : Monitor.step_result TEventData -> World -> World)
    (calls fuel : nat) (w w1 : World) (tip : Z) :
  Monitor._latestTransactionLocation cfg = None ->
  Monitor.getTipIndex c w = (Resolved tip, w1) ->
  (forall i, Monitor.triggerredBlocks c i = [i]) ->
  let blocks :=
    Monitor.yielded_blocks (Monitor.results c cfg between calls fuel Monitor.Start w) in
  (exists k, blocks = Monitor.run_from (tip + 1) k)
  /\ forall b, In b blocks -> tip < b.
Proof.
  intros Hloc Htip hook blocks.
  assert (Hrun : exists k, blocks = Monitor.run_from (tip + 1) k).
  { subst blocks. unfold Monitor.results. destruct calls as [ | calls].
    - exists 0%nat. reflexivity.
    - cbn [Monitor.pull Monitor.next]. rewrite Hloc, Htip.
      set (m := {| Monitor.latestBlockNumber := tip; Monitor.updatedAt := Monitor.now c w1 |}).
      pose proof (while_loop_identity c cfg hook fuel m w1 []) as Hw.
      destruct (Monitor.while_loop c cfg fuel m w1 []) as [[[r g1] w2] tr1].
      pose proof (pull_identity c cfg hook between calls fuel g1 (between r w2)) as Hp.
      unfold Monitor.results in Hp.
      destruct (Monitor.pull c cfg between calls fuel g1 (between r w2)) as [[rs g2] w3].
      cbn [fst] in *. destruct r, g1; try contradiction.
      + destruct Hw as (-> & -> & ->).
        destruct (Hp (tip + 2)) as [k Hk]; [cbn; f_equal; lia | ].
        exists (S k). cbn [Monitor.yielded_blocks]. rewrite Hk, run_from_cons.
        cbn [Monitor.latestBlockNumber m]. do 2 f_equal. lia.
      + subst m0. destruct (Hp (tip + 1)) as [k Hk]; [reflexivity | ].
        exists k. exact Hk. }
  split; [exact Hrun | ].
  destruct Hrun as [k ->]. intros b Hb. apply run_from_lower in Hb. lia.
Qed.

Lemma fresh_start_begins_after_tip_witness :
  let blocks :=
    Monitor.yielded_blocks
      (Monitor.results MonitorScenario.flaky MonitorScenario.fresh MonitorScenario.idle
         4 5 Monitor.Start MonitorScenario.world0) in
  (exists k, blocks = Monitor.run_from (10 + 1) k)
  /\ forall b, In b blocks -> 10 < b.
Proof.
  apply (fresh_start_begins_after_tip MonitorScenario.flaky MonitorScenario.fresh
           MonitorScenario.idle 4 5 MonitorScenario.world0
           {| MonitorScenario.clock := 1000; MonitorScenario.tip_calls := 1;
              MonitorScenario.hash_calls := 0 |} 10).
  - reflexivity.
  - reflexivity.
  - intros i. reflexivity.
Defined.

Section ProvenanceFacts.
Import Monitor MonitorRuns.

Context {World TEventData Integration : Type}.
Variable c : chain World TEventData.
Variable cfg : config Integration.

Lemma run_for_traced (P : Z -> envelope TEventData -> generator TEventData -> World -> Prop)
    (k : fields -> World -> list (effect Integration) -> Monitor.result) :
  (forall m w tr, traced P (k m w tr)) ->
  forall m rest w tr,
    (forall i rest' hash w1 evs w2,
       rest = i :: rest' ->
       getBlockHash c i w = (Resolved hash, w1) ->
       getEvents c i w1 = (Resolved evs, w2) ->
       P i {| env_blockHash := hash; events := evs |} (YieldedBlock m rest') w2) ->
    traced P (run_for c k m rest w tr).
Proof.
  intros Hk m rest w tr Hyield. unfold run_for.
  destruct rest as [ | i rest']; [apply Hk | ].
  destruct (getBlockHash c i w) as [[hash | e] w1] eqn:Hh; [ | apply Hk].
  destruct (getEvents c i w1) as [[evs | e] w2] eqn:He; [ | apply Hk].
  cbn [traced]. eapply Hyield; eauto.
Qed.

(** A block yielded from the loop head is the first block of a trigger
    the tip allowed. *)
Lemma while_loop_provenance (fuel : nat) :
  forall m w tr,
    traced (fun i env g w' =>
              exists m' w0 rest,
                iteration_yields c m' w0 w' i rest env /\ g = YieldedBlock m' rest)
           (while_loop c cfg fuel m w tr).
Proof.
  induction fuel as [ | fuel IH]; intros m w tr; cbn [while_loop]; [exact I | ].
  destruct (getTipIndex c w) as [[tip | e] w1] eqn:Htip; [ | apply IH].
  destruct (Z.leb_spec (latestBlockNumber m + 1) tip) as [Hle | _]; [ | apply IH].
  apply run_for_traced; [exact IH | ].
  intros i rest' hash w2 evs w3 Hhook Hh He.
  exists m, w, rest'. split; [ | reflexivity].
  exists tip, w1, w2. cbn [env_blockHash events]. auto.
Qed.

Lemma while_loop_fetched (fuel : nat) :
  forall m w tr,
    traced (fun i env _ w' => fetched c i env w') (while_loop c cfg fuel m w tr).
Proof.
  intros m w tr. pose proof (while_loop_provenance fuel m w tr) as H.
  destruct (while_loop c cfg fuel m w tr) as [[[r g] w'] tr'].
  destruct r; try exact I. cbn [traced] in *.
  destruct H as (m' & w0 & rest & (tip & w1 & w2 & _ & _ & _ & Hh & He) & _).
  exists w1, w2. auto.
Qed.

Lemma next_fetched (fuel : nat) (g : generator TEventData) (w : World) :
  traced (fun i env _ w' => fetched c i env w') (next c cfg fuel g w).
Proof.
  destruct g as [ | rest n | m rest | m | ]; cbn [next].
  - destruct (_latestTransactionLocation cfg) as [loc | ].
    + destruct (processRemains c loc w) as [[r | e] w1]; [ | exact I].
      unfold run_remains. destruct (remainedEvents r); [apply while_loop_fetched | exact I].
    + destruct (getTipIndex c w) as [[tip | e] w1]; [apply while_loop_fetched | exact I].
  - unfold run_remains. destruct rest; [apply while_loop_fetched | exact I].
  - apply run_for_traced; [intros; apply while_loop_fetched | ].
    intros i rest' hash w1 evs w2 _ Hh He. exists w, w1. auto.
  - apply while_loop_fetched.
  - exact I.
Qed.

End ProvenanceFacts.

(** X10. An envelope yielded by the main loop carries the hash that
    [getBlockHash] and the events that [getEvents] returned for one and the
    same block index, the events fetched last. When the call started at
    the loop head, that block is the first one of a trigger
    [latestBlockNumber + 1] that did not exceed the tip just read. *)
Theorem yielded_envelope_provenance
    {World TEventData Integration : Type}
    (c : Monitor.chain World TEventData) (cfg : Monitor.config Integration)
    (fuel : nat) (g g' : Monitor.generator TEventData) (w w' : World)
    (i : Z) (env : Monitor.envelope TEventData)
    (tr : list (Monitor.effect Integration)) :
  Monitor.next c cfg fuel g w = (Monitor.YieldBlock i env, g', w', tr) ->
  MonitorRuns.fetched c i env w'
  /\ (forall m, g = Monitor.LoopHead m ->
        exists m' w0 rest,
          MonitorRuns.iteration_yields c m' w0 w' i rest env
          /\ g' = Monitor.YieldedBlock m' rest).
Proof.
  intros Hnext. split.
  - pose proof (next_fetched c cfg fuel g w) as H. rewrite Hnext in H. exact H.
  - intros m ->. cbn [Monitor.next] in Hnext.
    pose proof (while_loop_provenance c cfg fuel m w []) as H.
    rewrite Hnext in H. exact H.
Qed.

Lemma yielded_envelope_provenance_witness :
  MonitorRuns.fetched MonitorScenario.flaky 11
    {| Monitor.env_blockHash := "0xhash"; Monitor.events := ["event"%string] |}
    {| MonitorScenario.clock := 17000; MonitorScenario.tip_calls := 2;
       MonitorScenario.hash_calls := 1 |}
  /\ (forall m, @Monitor.LoopHead string MonitorScenario.at_ten = Monitor.LoopHead m ->
        exists m' w0 rest,
          MonitorRuns.iteration_yields MonitorScenario.flaky m' w0
            {| MonitorScenario.clock := 17000; MonitorScenario.tip_calls := 2;
               MonitorScenario.hash_calls := 1 |}
            11 rest
            {| Monitor.env_blockHash := "0xhash"; Monitor.events := ["event"%string] |}
          /\ @Monitor.YieldedBlock string MonitorScenario.at_ten []
             = Monitor.YieldedBlock m' rest).
Proof.
  apply (yielded_envelope_provenance MonitorScenario.flaky MonitorScenario.fresh 3
           (Monitor.LoopHead MonitorScenario.at_ten)
           (Monitor.YieldedBlock MonitorScenario.at_ten [])
           MonitorScenario.world0 _ 11 _
           [Monitor.DebugTry 11; Monitor.DebugSkip 10 10; Monitor.Delay 15000;
            Monitor.DebugTry 11; Monitor.DebugExecute 11]).
  reflexivity.
Defined.

Section DisciplineFacts.
Import Monitor MonitorRuns.

Context {World TEventData Integration : Type}.
Variable c : chain World TEventData.
Variable cfg : config Integration.

Lemma delays_app (a b : list (effect Integration)) :
  delays (a ++ b) = delays a ++ delays b.
Proof.
  induction a as [ | ev a IH]; [reflexivity | ].
  destruct ev; cbn [app delays]; rewrite IH; reflexivity.
Qed.

Lemma skips_app (a b : list (effect Integration)) :
  skips (a ++ b) = (skips a + skips b)%nat.
Proof.
  induction a as [ | ev a IH]; [reflexivity | ].
  destruct ev; cbn [app skips]; rewrite IH; reflexivity.
Qed.

Lemma ignored_app (a b : list (effect Integration)) :
  ignored (a ++ b) = ignored a ++ ignored b.
Proof.
  induction a as [ | ev a IH]; [reflexivity | ].
  destruct ev; cbn [app ignored]; rewrite IH; reflexivity.
Qed.

Lemma captured_app (a b : list (effect Integration)) :
  captured (a ++ b) = captured a ++ captured b.
Proof.
  induction a as [ | ev a IH]; [reflexivity | ].
  destruct ev; cbn [app captured]; rewrite IH; reflexivity.
Qed.

Lemma disciplined_app (ms : Z) (a b : list (effect Integration)) :
  disciplined ms a -> disciplined ms b -> disciplined ms (a ++ b).
Proof.
  unfold disciplined. intros (Ha1 & Ha2 & Ha3) (Hb1 & Hb2 & Hb3).
  rewrite delays_app, skips_app, ignored_app, captured_app, length_app.
  repeat split; [lia | | congruence].
  apply Forall_app. auto.
Qed.

Lemma alerts_quiet (m : fields) (t : Z) :
  delays (alerts c cfg m t) = []
  /\ skips (alerts c cfg m t) = 0%nat
  /\ ignored (alerts c cfg m t) = []
  /\ captured (alerts c cfg m t) = [].
Proof.
  unfold alerts. destruct (TIMEOUT <? t - updatedAt m); [ | repeat split].
  induction (_integrations cfg) as [ | i l IH]; [repeat split | exact IH].
Qed.

Lemma caught_disciplined (ms : Z) (e : JSError) :
  disciplined ms (@caught Integration e).
Proof. repeat split. constructor. Qed.

Lemma run_for_disciplined (ms : Z)
    (k : fields -> World -> list (effect Integration) -> Monitor.result) :
  (forall m w tr, disciplined ms tr -> disciplined ms (snd (k m w tr))) ->
  forall m rest w tr,
    disciplined ms tr -> disciplined ms (snd (run_for c k m rest w tr)).
Proof.
  intros Hk m rest w tr Htr. unfold run_for.
  destruct rest as [ | i rest']; [apply Hk, Htr | ].
  assert (Hexec : disciplined ms [@DebugExecute Integration i])
    by (repeat split; constructor).
  destruct (getBlockHash c i w) as [[hash | e] w1].
  - destruct (getEvents c i w1) as [[evs | e] w2].
    + cbn [snd]. apply disciplined_app; assumption.
    + apply Hk. apply disciplined_app; [exact Htr | ].
      apply (disciplined_app ms [DebugExecute i] (caught e));
        [exact Hexec | apply caught_disciplined].
  - apply Hk. apply disciplined_app; [exact Htr | ].
    apply (disciplined_app ms [DebugExecute i] (caught e));
      [exact Hexec | apply caught_disciplined].
Qed.

Lemma while_loop_disciplined (fuel : nat) :
  forall m w tr,
    disciplined (_delayMilliseconds cfg) tr ->
    disciplined (_delayMilliseconds cfg) (snd (while_loop c cfg fuel m w tr)).
Proof.
  induction fuel as [ | fuel IH]; intros m w tr Htr; cbn [while_loop]; [exact Htr | ].
  destruct (getTipIndex c w) as [[tip | e] w1].
  - destruct (latestBlockNumber m + 1 <=? tip).
    + apply run_for_disciplined; [exact IH | ].
      apply disciplined_app; [exact Htr | ]. repeat split. constructor.
    + apply IH. apply disciplined_app; [exact Htr | ].
      destruct (alerts_quiet m (now c w1)) as (Hd & Hs & Hi & Hc).
      unfold disciplined.
      rewrite !delays_app, !skips_app, !ignored_app, !captured_app, Hd, Hs, Hi, Hc.
      cbn. repeat split. constructor; [reflexivity | constructor].
  - apply IH. apply disciplined_app; [exact Htr | apply caught_disciplined].
Qed.

End DisciplineFacts.

(** X11. In every call of [next()] the loop sleeps exactly once for each
    poll that found no new block, always for the configured delay, and
    never otherwise, in particular not after an error; and every error it
    logs is handed to [captureException], in the same order. *)
Theorem loop_sleeps_only_when_waiting
    {World TEventData Integration : Type}
    (c : Monitor.chain World TEventData) (cfg : Monitor.config Integration)
    (fuel : nat) (g : Monitor.generator TEventData) (w : World) :
  let tr := snd (Monitor.next c cfg fuel g w) in
  List.length (MonitorRuns.delays tr) = MonitorRuns.skips tr
  /\ Forall (fun d => d = Monitor._delayMilliseconds cfg) (MonitorRuns.delays tr)
  /\ MonitorRuns.ignored tr = MonitorRuns.captured tr.
Proof.
  cbv zeta. fold (MonitorRuns.disciplined (Monitor._delayMilliseconds cfg)
                    (snd (Monitor.next c cfg fuel g w))).
  assert (Hnil : MonitorRuns.disciplined (Monitor._delayMilliseconds cfg)
                   (@nil (Monitor.effect Integration)))
    by (repeat split; constructor).
  destruct g as [ | rest n | m rest | m | ]; cbn [Monitor.next].
  - destruct (Monitor._latestTransactionLocation cfg) as [loc | ].
    + destruct (Monitor.processRemains c loc w) as [[r | e] w1]; [ | exact Hnil].
      unfold Monitor.run_remains.
      destruct (Monitor.remainedEvents r);
        [apply while_loop_disciplined | ]; exact Hnil.
    + destruct (Monitor.getTipIndex c w) as [[tip | e] w1];
        [apply while_loop_disciplined | ]; exact Hnil.
  - unfold Monitor.run_remains.
    destruct rest; [apply while_loop_disciplined | ]; exact Hnil.
  - apply run_for_disciplined; [ | exact Hnil].
    intros. apply while_loop_disciplined. assumption.
  - apply while_loop_disciplined. exact Hnil.
  - exact Hnil.
Qed.

Section RecoveryFacts.
Import Monitor MonitorRuns.

Context {World TEventData Integration : Type}.
Variable c : chain World TEventData.
Variable cfg : config Integration.

(** A failing iteration logs one error, does not sleep, and leaves the
    fields as they are. *)
Lemma failing_iteration (fuel : nat) (m : fields) (w w' : World)
    (tr : list (effect Integration)) :
  iteration_fails c m w w' ->
  exists tr',
    while_loop c cfg (S fuel) m w tr = while_loop c cfg fuel m w' (tr ++ tr')
    /\ List.length (ignored tr') = 1%nat
    /\ delays tr' = [].
Proof.
  intros [[e Htip] | (tip & w1 & i & rest & Htip & Hle & Hhook & Hfail)];
    cbn [while_loop]; rewrite Htip.
  - exists (caught e). repeat split.
  - destruct (Z.leb_spec (latestBlockNumber m + 1) tip) as [_ | Hlt]; [ | lia].
    rewrite Hhook. cbn [run_for].
    destruct Hfail as [[e Hh] | (hash & w2 & e & Hh & He)].
    + rewrite Hh.
      exists ([DebugTry (latestBlockNumber m + 1)] ++ DebugExecute i :: caught e).
      rewrite app_assoc. repeat split.
    + rewrite Hh, He.
      exists ([DebugTry (latestBlockNumber m + 1)] ++ DebugExecute i :: caught e).
      rewrite app_assoc. repeat split.
Qed.

Lemma failing_iterations (n fuel : nat) (m : fields) :
  forall w w' tr,
    fails_for c n m w w' ->
    exists tr',
      while_loop c cfg (n + fuel) m w tr = while_loop c cfg fuel m w' (tr ++ tr')
      /\ List.length (ignored tr') = n
      /\ delays tr' = [].
Proof.
  induction n as [ | n IH]; intros w w' tr Hf.
  - cbn in Hf. subst w'. exists []. rewrite app_nil_r. repeat split.
  - destruct Hf as (w1 & Hfail & Hrest).
    destruct (failing_iteration (n + fuel) m w w1 tr Hfail) as (tr1 & Hrun1 & Hi1 & Hd1).
    destruct (IH w1 w' (tr ++ tr1) Hrest) as (tr2 & Hrun2 & Hi2 & Hd2).
    exists (tr1 ++ tr2). cbn [Nat.add]. rewrite Hrun1, Hrun2, app_assoc.
    rewrite ignored_app, delays_app, length_app, Hd1, Hd2. repeat split. lia.
Qed.

End RecoveryFacts.

(** X12. The loop outlasts any number of failed iterations: after [n]
    iterations that ended in the [catch] clause it yields, as soon as the
    calls succeed, the first block of the very trigger it was at, with the
    fields unchanged. On the way it logged [n] errors and did not sleep
    once: a failed iteration is retried at once. *)
Theorem loop_recovers_after_failures
    {World TEventData Integration : Type}
    (c : Monitor.chain World TEventData) (cfg : Monitor.config Integration)
    (n fuel : nat) (m : Monitor.fields) (w w1 w2 : World)
    (i : Z) (rest : list Z) (env : Monitor.envelope TEventData)
    (tr : list (Monitor.effect Integration)) :
  MonitorRuns.fails_for c n m w w1 ->
  MonitorRuns.iteration_yields c m w1 w2 i rest env ->
  exists tr',
    Monitor.while_loop c cfg (n + S fuel) m w tr
    = (Monitor.YieldBlock i env, Monitor.YieldedBlock m rest, w2, tr ++ tr')
    /\ List.length (MonitorRuns.ignored tr') = n
    /\ MonitorRuns.delays tr' = [].
Proof.
  intros Hfail (tip & wa & wb & Htip & Hle & Hhook & Hh & He).
  destruct (failing_iterations c cfg n (S fuel) m w w1 tr Hfail)
    as (tr1 & Hrun & Hi & Hd).
  exists (tr1 ++ [Monitor.DebugTry (Monitor.latestBlockNumber m + 1);
                  Monitor.DebugExecute i]).
  rewrite Hrun. cbn [Monitor.while_loop]. rewrite Htip.
  destruct (Z.leb_spec (Monitor.latestBlockNumber m + 1) tip) as [_ | Hlt]; [ | lia].
  rewrite Hhook. cbn [Monitor.run_for]. rewrite Hh, He.
  destruct env as [hash evs]. cbn [Monitor.env_blockHash Monitor.events].
  rewrite ignored_app, delays_app, length_app, Hi, Hd.
  repeat split; [ | cbn; lia].
  rewrite <- !app_assoc. reflexivity.
Qed.

Lemma loop_recovers_after_failures_witness :
  exists tr',
    Monitor.while_loop RecoveryScenario.twice_down MonitorScenario.fresh (2 + S 0)
      MonitorScenario.at_ten (RecoveryScenario.after 0) []
    = (Monitor.YieldBlock 11 RecoveryScenario.block_eleven,
       Monitor.YieldedBlock MonitorScenario.at_ten [],
       RecoveryScenario.after 3, [] ++ tr')
    /\ List.length (MonitorRuns.ignored tr') = 2%nat
    /\ MonitorRuns.delays tr' = [].
Proof.
  apply (loop_recovers_after_failures RecoveryScenario.twice_down MonitorScenario.fresh
           2 0 MonitorScenario.at_ten (RecoveryScenario.after 0)
           (RecoveryScenario.after 2) (RecoveryScenario.after 3)
           11 [] RecoveryScenario.block_eleven []).
  - exists (RecoveryScenario.after 1). split.
    + right. exists 100, (MonitorScenario.Build_world 1000 1 0), 11, [].
      repeat split; [cbn; lia | ]. left. exists (External "rpc"). reflexivity.
    + exists (RecoveryScenario.after 2). split; [ | reflexivity].
      right. exists 100, (MonitorScenario.Build_world 2000 2 1), 11, [].
      repeat split; [cbn; lia | ]. left. exists (External "rpc"). reflexivity.
  - exists 100, (MonitorScenario.Build_world 3000 3 2), (RecoveryScenario.after 3).
    repeat split. cbn; lia.
Defined.

(** ** The mutex: order and bookkeeping *)

Section QueueFacts.
Import Mutex MutexLog.

(** Changing the state of a call that neither waits before nor after
    does not touch the queue's bookkeeping. *)
Lemma queue_exact_update (s : state) (i : nat) (v : pc) :
  (forall j, In j (queue s) <-> pcs s j = Queued) ->
  pcs s i <> Queued -> v <> Queued ->
  forall j, In j (queue s) <-> update (pcs s) i v j = Queued.
Proof.
  intros Hq Hi Hv j. rewrite Hq. destruct (Nat.eq_dec j i) as [-> | Hne].
  - rewrite update_same. split; congruence.
  - rewrite update_other by exact Hne. reflexivity.
Qed.

Lemma holder_after_update (s : state) (i : nat) (v : pc) :
  (forall j, holder s = Some j -> in_body (pcs s j) = true) ->
  (in_body (pcs s i) = true -> in_body v = true) ->
  forall j, holder s = Some j -> in_body (update (pcs s) i v j) = true.
Proof.
  intros Hhold Hv j Hj. destruct (Nat.eq_dec j i) as [-> | Hne].
  - rewrite update_same. apply Hv, Hhold, Hj.
  - rewrite update_other by exact Hne. apply Hhold, Hj.
Qed.

Lemma step_well_kept (a : action) (s s' : state) :
  well_kept s -> step a s = Some s' -> well_kept s'.
Proof.
  intros (Hhold & Hq & Hnd). destruct a as [i ok | reaches | i ok]; cbn [step].
  - (* a call arrives *)
    destruct (pcs s i) eqn:Hi; try discriminate.
    assert (Hout : ~ In i (queue s)) by (rewrite Hq; congruence).
    assert (Hkeep : forall v j, holder s = Some j -> in_body (update (pcs s) i v j) = true).
    { intros v. apply holder_after_update; [exact Hhold | ].
      rewrite Hi. discriminate. }
    destruct ok; intros [= <-]; unfold well_kept, advance; cbn [holder queue pcs];
      (split; [apply Hkeep | split]).
    + intros j. rewrite in_app_iff. cbn [In]. destruct (Nat.eq_dec j i) as [-> | Hne].
      * rewrite update_same. intuition.
      * rewrite update_other by exact Hne. rewrite Hq. intuition congruence.
    + apply NoDup_app; [exact Hnd | constructor; [intros [] | constructor] | ].
      intros x Hx [<- | []]. contradiction.
    + apply queue_exact_update; [exact Hq | congruence | discriminate].
    + exact Hnd.
  - (* the first waiter gets the lock *)
    destruct (holder s) eqn:Hh; [discriminate | ].
    destruct (queue s) as [ | i q] eqn:Hqueue; [discriminate | ].
    inversion Hnd as [ | ? ? Hfresh Hnd']; subst.
    assert (Htail : forall v, v <> Queued ->
              forall j, In j q <-> update (pcs s) i v j = Queued).
    { intros v Hv j. destruct (Nat.eq_dec j i) as [-> | Hne].
      - rewrite update_same. split; [contradiction | congruence].
      - rewrite update_other by exact Hne. rewrite <- Hq. cbn [In].
        split; [auto | intros [Heq | Hin]; [congruence | exact Hin]]. }
    destruct reaches; intros [= <-]; unfold well_kept; cbn [holder queue pcs];
      (split; [ | split; [apply Htail; discriminate | exact Hnd']]).
    + intros j [= <-]. rewrite update_same. reflexivity.
    + intros j Hj. discriminate.
  - (* an awaited promise settles *)
    destruct (pcs s i) eqn:Hi; try discriminate; intros [= <-];
      try destruct ok; unfold well_kept, advance, release; cbn [holder queue pcs];
      (split; [ | split; [apply queue_exact_update;
                            [exact Hq | congruence | discriminate] | exact Hnd]]);
      try (intros j Hj; discriminate);
      (apply holder_after_update; [exact Hhold | reflexivity]).
Qed.

Lemma run_well_kept (acts : list action) :
  forall s, well_kept s -> well_kept (run acts s).
Proof.
  induction acts as [ | a acts IH]; intros s Hs; cbn [run]; [exact Hs | ].
  destruct (step a s) as [s' | ] eqn:Hstep; apply IH; [ | exact Hs].
  eapply step_well_kept; eassumption.
Qed.

Lemma init_well_kept : well_kept init.
Proof.
  repeat split; cbn; try discriminate; try contradiction. constructor.
Qed.

Lemma step_keeps_settled (a : action) (s s' : state) (i : nat) :
  well_kept s -> step a s = Some s' -> pcs s i = Settled -> pcs s' i = Settled.
Proof.
  intros (_ & Hq & _) Hstep Hi. destruct a as [j ok | reaches | j ok]; cbn [step] in Hstep.
  - destruct (pcs s j) eqn:Hj; try discriminate.
    assert (Hne : i <> j) by congruence.
    destruct ok; injection Hstep as <-; cbn [pcs advance];
      rewrite update_other by exact Hne; exact Hi.
  - destruct (holder s); [discriminate | ].
    destruct (queue s) as [ | j q] eqn:Hqueue; [discriminate | ].
    assert (Hj : pcs s j = Queued) by (apply Hq; try rewrite Hqueue; left; reflexivity).
    assert (Hne : i <> j) by congruence.
    destruct reaches; injection Hstep as <-; cbn [pcs];
      rewrite update_other by exact Hne; exact Hi.
  - destruct (Nat.eq_dec i j) as [-> | Hne].
    + rewrite Hi in Hstep. discriminate.
    + destruct (pcs s j); try discriminate; try destruct ok; injection Hstep as <-;
        unfold advance, release; cbn [pcs]; rewrite update_other by exact Hne; exact Hi.
Qed.

Lemma run_app (a b : list action) : forall s, run (a ++ b) s = run b (run a s).
Proof.
  induction a as [ | x a IH]; intros s; [reflexivity | ].
  cbn [app run]. destruct (step x s); apply IH.
Qed.

Lemma run_keeps_settled (acts : list action) (i : nat) :
  forall s, well_kept s -> pcs s i = Settled -> pcs (run acts s) i = Settled.
Proof.
  induction acts as [ | a acts IH]; intros s Hs Hi; cbn [run]; [exact Hi | ].
  destruct (step a s) as [s' | ] eqn:Hstep; [ | apply IH; assumption].
  apply IH; [eapply step_well_kept | eapply step_keeps_settled]; eassumption.
Qed.

Lemma served_in_arrival_order (acts : list action) :
  forall s, served acts s ++ queue (run acts s) = queue s ++ arrived acts s.
Proof.
  induction acts as [ | a acts IH]; intros s; cbn [served arrived run].
  - rewrite app_nil_r. reflexivity.
  - destruct (step a s) as [s' | ] eqn:Hstep; [ | apply IH].
    destruct a as [i ok | reaches | i ok]; cbn [step] in Hstep.
    + destruct (pcs s i); try discriminate.
      destruct ok; injection Hstep as <-; rewrite IH.
      * cbn [queue]. rewrite <- app_assoc. reflexivity.
      * reflexivity.
    + destruct (holder s); [discriminate | ].
      destruct (queue s) as [ | i q] eqn:Hqs; [discriminate | ].
      destruct reaches; injection Hstep as <-; cbn [app]; rewrite IH; reflexivity.
    + assert (Hsame : queue s' = queue s).
      { destruct (pcs s i); try discriminate; try destruct ok; injection Hstep as <-;
          reflexivity. }
      rewrite IH, Hsame. reflexivity.
Qed.

End QueueFacts.

(** X13. The calls of [transfer] get the mutex in the order in which they
    reached [runExclusive]: under every schedule the calls served so far,
    followed by those still waiting, are the calls that arrived, in their
    order of arrival. *)
Theorem transfers_served_in_arrival_order (schedule : list Mutex.action) :
  MutexLog.served schedule Mutex.init ++ Mutex.queue (Mutex.run schedule Mutex.init)
  = MutexLog.arrived schedule Mutex.init.
Proof. apply (served_in_arrival_order schedule Mutex.init). Qed.

(** X14. Under every schedule the mutex is held only by a call that is
    inside the body of [runExclusive], so a call that has settled, also by
    an error, never leaves it locked; the queue holds exactly the waiting
    calls, each once; and a settled call stays settled whatever happens
    next. *)
Theorem mutex_is_released_and_queue_is_exact
    (schedule later : list Mutex.action) :
  let s := Mutex.run schedule Mutex.init in
  (forall i, Mutex.holder s = Some i -> Mutex.in_body (Mutex.pcs s i) = true)
  /\ (forall i, In i (Mutex.queue s) <-> Mutex.pcs s i = Mutex.Queued)
  /\ NoDup (Mutex.queue s)
  /\ (forall i, Mutex.pcs s i = Mutex.Settled ->
        Mutex.pcs (Mutex.run (schedule ++ later) Mutex.init) i = Mutex.Settled).
Proof.
  intros s.
  assert (Hs : MutexLog.well_kept s) by (apply run_well_kept, init_well_kept).
  destruct Hs as (H1 & H2 & H3). repeat split; try assumption; try apply H2.
  intros i Hi. rewrite run_app. apply run_keeps_settled; [ | exact Hi].
  repeat split; try assumption; apply H2.
Qed.

Example served_example :
  let schedule := [Mutex.Call 2 true; Mutex.Call 0 true; Mutex.Dispatch true;
                   Mutex.Call 1 true; Mutex.Reply 2 false; Mutex.Dispatch true] in
  MutexLog.served schedule Mutex.init = [2%nat; 0%nat]
  /\ Mutex.queue (Mutex.run schedule Mutex.init) = [1%nat]
  /\ MutexLog.arrived schedule Mutex.init = [2%nat; 0%nat; 1%nat].
Proof. vm_compute. repeat split. Qed.

(** ** The startup (index.ts) *)

Section SplitFacts.
Import JSString.

Lemma split_comma_cons (s : string) :
  exists piece pieces, split_comma s = piece :: pieces.
Proof.
  destruct s as [ | c s]; cbn [split_comma]; [eauto | ].
  destruct (Ascii.eqb c ","); [eauto | ].
  destruct (split_comma s); eauto.
Qed.

Lemma split_comma_join (s : string) : String.concat "," (split_comma s) = s.
Proof.
  induction s as [ | c s IH]; cbn [split_comma]; [reflexivity | ].
  destruct (split_comma_cons s) as (piece & pieces & Hs).
  rewrite Hs in IH |- *.
  destruct (Ascii.eqb_spec c ",") as [-> | Hc].
  - change (String.concat "," (EmptyString :: piece :: pieces))
      with (String "," (String.concat "," (piece :: pieces))).
    rewrite IH. reflexivity.
  - destruct pieces as [ | piece' pieces]; rewrite <- IH; reflexivity.
Qed.

Lemma split_comma_length (s : string) :
  List.length (split_comma s) = S (commas s).
Proof.
  induction s as [ | c s IH]; cbn [split_comma commas]; [reflexivity | ].
  destruct (split_comma_cons s) as (piece & pieces & Hs).
  rewrite Hs in IH |- *.
  destruct (Ascii.eqb c ","); cbn [List.length] in *; lia.
Qed.

Lemma split_comma_pieces (s : string) :
  forall piece, In piece (split_comma s) -> commas piece = O.
Proof.
  induction s as [ | c s IH]; cbn [split_comma]; intros piece Hin.
  - destruct Hin as [<- | []]. reflexivity.
  - destruct (split_comma_cons s) as (first & pieces & Hs).
    rewrite Hs in IH, Hin.
    destruct (Ascii.eqb c ",") eqn:Hc.
    + destruct Hin as [<- | Hin]; [reflexivity | apply IH; exact Hin].
    + destruct Hin as [<- | Hin].
      * cbn [commas]. rewrite Hc. apply IH. left. reflexivity.
      * apply IH. right. exact Hin.
Qed.

End SplitFacts.

(** X15. The clients [NCGKMSTransfer] is built with are the primary
    endpoint followed by the pieces of the STAGE_HEADLESSES setting cut at
    its commas: joining the pieces with commas gives the setting back, no
    piece holds a comma, and there is one more piece than there are
    commas. So there are always at least two clients, and an empty setting
    still yields one stage client, with the empty endpoint. *)
Theorem stage_endpoints_come_from_setting (cfg : Startup.settings) :
  Startup.transfer_endpoints cfg
  = Startup.GRAPHQL_API_ENDPOINT cfg
      :: JSString.split_comma (Startup.STAGE_HEADLESSES cfg)
  /\ String.concat "," (JSString.split_comma (Startup.STAGE_HEADLESSES cfg))
     = Startup.STAGE_HEADLESSES cfg
  /\ (forall piece,
        In piece (JSString.split_comma (Startup.STAGE_HEADLESSES cfg)) ->
        JSString.commas piece = O)
  /\ List.length (JSString.split_comma (Startup.STAGE_HEADLESSES cfg))
     = S (JSString.commas (Startup.STAGE_HEADLESSES cfg))
  /\ (2 <= List.length (Startup.transfer_endpoints cfg))%nat
  /\ (JSString.split_comma (Startup.STAGE_HEADLESSES cfg) = [EmptyString]
      <-> Startup.STAGE_HEADLESSES cfg = EmptyString).
Proof.
  unfold Startup.transfer_endpoints.
  pose proof (split_comma_length (Startup.STAGE_HEADLESSES cfg)) as Hlen.
  pose proof (split_comma_join (Startup.STAGE_HEADLESSES cfg)) as Hjoin.
  repeat split.
  - exact Hjoin.
  - apply split_comma_pieces.
  - exact Hlen.
  - cbn [List.length]. lia.
  - intros Hone. rewrite Hone in Hjoin. symmetry. exact Hjoin.
  - intros ->. reflexivity.
Qed.

Section StartupFacts.
Import Startup.

Lemma then_lift_resolved {A B} (a : A) (k : A -> run_step B) :
  then_ (lift (Resolved a)) k = k a.
Proof. unfold then_, lift. destruct (k a). reflexivity. Qed.

Lemma then_lift_rejected {A B} (e : JSError) (k : A -> run_step B) :
  then_ (lift (Rejected e)) k = ([], Rejected e).
Proof. reflexivity. Qed.

Lemma then_fail {A B} (message : string) (k : A -> run_step B) :
  then_ (fail message) k = ([], Rejected (PlainError message)).
Proof. reflexivity. Qed.

Lemma then_tell {B} (ev : event) (k : unit -> run_step B) :
  then_ (tell ev) k = (ev :: fst (k tt), snd (k tt)).
Proof. unfold then_, tell. destruct (k tt). reflexivity. Qed.

End StartupFacts.

Ltac startup_step x H :=
  match goal with
  | |- context [Startup.then_ (Startup.lift ?m) _] =>
      destruct m as [x | ] eqn:H;
      [ rewrite then_lift_resolved | rewrite then_lift_rejected ]
  end.

(** X16. The startup either passes every check and starts both monitors,
    each from the location the state store returned for it, after printing
    the KMS address; or it prints the error and exits with code -1 without
    starting any monitor. Both monitors run only if NCG_MINTER is an
    address, the KMS provider holds exactly one account, and that account
    equals, letter case apart, the address derived from
    KMS_PROVIDER_PUBLIC_KEY. *)
Theorem startup_runs_both_monitors_or_exits (k : Startup.collaborators) :
  (exists cfg kmsAddress ethereum nineChronicles,
      Startup.main k
      = [Startup.ConsoleLog kmsAddress;
         Startup.Run "ethereum" ethereum;
         Startup.Run "nineChronicles" nineChronicles]
      /\ Startup.read_configuration k = Resolved cfg
      /\ Startup.isAddress k (Startup.NCG_MINTER cfg) = true
      /\ Startup.getAccounts k = Resolved [kmsAddress]
      /\ JSString.toLowerCase kmsAddress
         = JSString.toLowerCase
             (Startup.derivedAddress k (Startup.KMS_PROVIDER_PUBLIC_KEY cfg))
      /\ Startup.load k "ethereum" = Resolved ethereum
      /\ Startup.load k "nineChronicles" = Resolved nineChronicles)
  \/ (exists printed e,
      Startup.main k = printed ++ [Startup.ConsoleError e; Startup.Exit (-1)]
      /\ filter Startup.is_run printed = []
      /\ (printed = [] \/ exists kmsAddress, printed = [Startup.ConsoleLog kmsAddress])).
Proof.
  unfold Startup.main, Startup.body.
  startup_step cfg Hcfg; [ | right; eauto 6].
  startup_step u1 Hms; [ | right; eauto 6].
  startup_step u2 Hes; [ | right; eauto 6].
  startup_step u3 Hc1; [ | right; eauto 6].
  destruct (Startup.isAddress k (Startup.NCG_MINTER cfg)) eqn:Hminter;
    [rewrite then_lift_resolved | rewrite then_fail; right; eauto 6].
  startup_step accounts Haccounts; [ | right; eauto 6].
  destruct accounts as [ | kmsAddress [ | other accounts]];
    [right; exists [], (PlainError "NineChronicles.EthBridge is supported only one address.");
            repeat split; left; reflexivity
    |
    | right; exists [], (PlainError "NineChronicles.EthBridge is supported only one address.");
            repeat split; left; reflexivity].
  cbv beta iota. rewrite then_tell.
  assert (Hexit : forall e : JSError,
             exists printed e',
               [Startup.ConsoleLog kmsAddress] ++ [Startup.ConsoleError e; Startup.Exit (-1)]
               = printed ++ [Startup.ConsoleError e'; Startup.Exit (-1)]
               /\ filter Startup.is_run printed = []
               /\ (printed = [] \/ exists a, printed = [Startup.ConsoleLog a])).
  { intros e. exists [Startup.ConsoleLog kmsAddress], e. eauto. }
  startup_step u4 Hc2; [ | right; apply Hexit].
  destruct (String.eqb_spec (JSString.toLowerCase kmsAddress)
              (JSString.toLowerCase
                 (Startup.derivedAddress k (Startup.KMS_PROVIDER_PUBLIC_KEY cfg))))
    as [Hsame | Hdiffer];
    [rewrite then_lift_resolved | rewrite then_fail; right; apply Hexit].
  startup_step u5 Hc3; [ | right; apply Hexit].
  startup_step ethereum Hle; [ | right; apply Hexit].
  startup_step u6 Hc4; [ | right; apply Hexit].
  startup_step u7 Hc5; [ | right; apply Hexit].
  startup_step nineChronicles Hln; [ | right; apply Hexit].
  startup_step u8 Hc6; [ | right; apply Hexit].
  left. exists cfg, kmsAddress, ethereum, nineChronicles. cbn. repeat split; assumption.
Qed.

Example healthy_startup :
  Startup.main (StartupScenario.healthy [StartupScenario.kms])
  = [Startup.ConsoleLog StartupScenario.kms;
     Startup.Run "ethereum" (Some StartupScenario.cursor);
     Startup.Run "nineChronicles" None].
Proof. reflexivity. Qed.

Example two_accounts_exit :
  Startup.main (StartupScenario.healthy [StartupScenario.kms; StartupScenario.kms])
  = [Startup.ConsoleError
       (PlainError "NineChronicles.EthBridge is supported only one address.");
     Startup.Exit (-1)].
Proof. reflexivity. Qed.

(** ** The burn page (pages/swap-wncg.tsx) *)

Section StringFacts.
Import JSString.

Lemma length_append (a b : string) :
  String.length (a ++ b) = (String.length a + String.length b)%nat.
Proof. induction a as [ | c a IH]; cbn; [reflexivity | rewrite IH; reflexivity]. Qed.

Lemma length_slice (n : nat) :
  forall s, String.length (slice n s) = (String.length s - n)%nat.
Proof.
  induction n as [ | n IH]; intros s; cbn [slice].
  - lia.
  - destruct s as [ | c s]; cbn [String.length]; [reflexivity | apply IH].
Qed.

Lemma length_zeros (n : nat) : String.length (zeros n) = n.
Proof. induction n as [ | n IH]; cbn; [reflexivity | rewrite IH; reflexivity]. Qed.

Lemma substring_prefix (a : string) :
  forall b, substring 0 (String.length a) (a ++ b) = a.
Proof.
  induction a as [ | c a IH]; intros b; cbn.
  - destruct b; reflexivity.
  - rewrite IH. reflexivity.
Qed.

Lemma substring_skip (a : string) :
  forall n b, substring (String.length a) n (a ++ b) = substring 0 n b.
Proof. induction a as [ | c a IH]; intros n b; cbn; [reflexivity | apply IH]. Qed.

(** [slice n] only looks past the first [n] characters. *)
Lemma slice_prefix (a : string) :
  forall b, slice (String.length a) (a ++ b) = b.
Proof. induction a as [ | c a IH]; intros b; cbn; [reflexivity | apply IH]. Qed.

End StringFacts.

(** X17. For an address of 42 characters the recipient passed to [burn]
    has the 66 characters of a bytes32: the planet id, then the 40
    characters of the address after its first two, then twelve zeros; the
    address is read back from positions 14 to 53. The first two characters
    of the input are dropped unread. *)
Theorem burn_recipient_layout (ncAddress : string) :
  String.length ncAddress = 42%nat ->
  SwapPage.burn_to ncAddress
  = (SwapPage.planetId ++ JSString.slice 2 ncAddress ++ "000000000000")%string
  /\ String.length (SwapPage.burn_to ncAddress) = 66%nat
  /\ substring 0 14 (SwapPage.burn_to ncAddress) = SwapPage.planetId
  /\ substring 14 40 (SwapPage.burn_to ncAddress) = JSString.slice 2 ncAddress
  /\ forall a b : ascii,
       SwapPage.burn_to (String a (String b (JSString.slice 2 ncAddress)))
       = SwapPage.burn_to ncAddress.
Proof.
  intros Hlen.
  pose proof (length_slice 2 ncAddress) as Hbody. rewrite Hlen in Hbody.
  change (42 - 2)%nat with 40%nat in Hbody.
  assert (Hto : SwapPage.burn_to ncAddress
                = (SwapPage.planetId ++ JSString.slice 2 ncAddress ++ "000000000000")%string).
  { unfold SwapPage.burn_to, JSString.padEnd.
    rewrite length_append, Hbody.
    change (66 - (String.length SwapPage.planetId + 40))%nat with 12%nat.
    change (JSString.zeros 12) with "000000000000"%string.
    generalize (JSString.slice 2 ncAddress). intros body.
    reflexivity. }
  split; [exact Hto | ].
  split; [rewrite Hto, !length_append, Hbody; reflexivity | ].
  split; [rewrite Hto; apply (substring_prefix SwapPage.planetId) | ].
  split.
  - rewrite Hto.
    rewrite (substring_skip SwapPage.planetId).
    rewrite <- Hbody. apply substring_prefix.
  - intros a b. reflexivity.
Qed.

(** The witness: a well-formed address. *)
Lemma burn_recipient_layout_witness :
  SwapPage.burn_to "0xa1ef9701F151244F9aA7131639990c4664d2aEeF"
  = "0x100000000001a1ef9701F151244F9aA7131639990c4664d2aEeF000000000000"%string.
Proof.
  exact (proj1 (burn_recipient_layout "0xa1ef9701F151244F9aA7131639990c4664d2aEeF"
                  eq_refl)).
Defined.

Section BurnAmountFacts.
Import Decimal.

Lemma to_Q_zero (e : Z) : (to_Q (mk 0 e) == 0)%Q.
Proof. rewrite to_Q_power. cbn [coef]. ring. Qed.

Lemma to_Q_strip_zeros (fuel : nat) :
  forall c e, (to_Q (strip_zeros fuel c e) == to_Q (mk c e))%Q.
Proof.
  induction fuel as [ | fuel IH]; intros c e; cbn [strip_zeros]; [reflexivity | ].
  destruct (Z.eqb_spec c 0) as [-> | Hc].
  - rewrite !to_Q_zero. reflexivity.
  - destruct (Z.eqb_spec (c mod 10) 0) as [Hm | Hm]; [ | reflexivity].
    rewrite IH, !to_Q_power. cbn [coef exp].
    assert (Hc10 : c = 10 * (c / 10)) by (apply Z.div_exact; lia).
    rewrite Hc10 at 2. rewrite inject_Z_mult, Qpower_plus by discriminate.
    change (inject_Z 10) with (10 ^ 1)%Q. ring.
Qed.

Lemma to_Q_normalise (d : t) : (to_Q (normalise d) == to_Q d)%Q.
Proof. unfold normalise. rewrite to_Q_strip_zeros. destruct d; reflexivity. Qed.

(** Within the precision [mul] is exact. *)
Lemma to_Q_mul_exact (x y : t) :
  sd (MinterShape.exact_product x y) <= precision ->
  (to_Q (mul x y) == to_Q x * to_Q y)%Q.
Proof.
  intros Hsd. unfold mul, finalise.
  change (num_digits (coef (normalise (mk (coef x * coef y) (exp x + exp y)))))
    with (sd (MinterShape.exact_product x y)).
  destruct (Z.leb_spec (sd (MinterShape.exact_product x y)) precision); [ | lia].
  rewrite to_Q_normalise. apply (to_Q_product x y).
Qed.

Lemma sd_times_power (a : t) (e : Z) :
  sd (MinterShape.exact_product a (mk 1 e)) = sd a.
Proof.
  unfold sd, MinterShape.exact_product, normalise; cbn [coef exp].
  rewrite Z.mul_1_r. f_equal. apply coef_strip_zeros.
Qed.

End BurnAmountFacts.

(** X18. For every amount that the constructor of decimal.js reads as a
    finite Decimal (one the library holds) of at most 20 significant
    digits, the burn amount the page computes is the entered amount times
    10^18, exactly, as long as that product does not exceed the largest
    exponent of the library; an empty field counts as 0. *)
Theorem burn_amount_is_scaled_exactly
    (new_Decimal : string -> outcome Decimal.value) (amount : string) (a : Decimal.t) :
  new_Decimal (match amount with EmptyString => "0" | _ => amount end)%string
  = Resolved (Decimal.Fin a) ->
  Decimal.representable a ->
  Decimal.sd a <= Decimal.precision ->
  (Decimal.coef a <> 0 ->
   Decimal.sci_exp (Decimal.normalise a) + 18 <= Decimal.maxE) ->
  exists wei,
    SwapPage.burnAmount new_Decimal amount = Some (Decimal.Fin wei)
    /\ (Decimal.to_Q wei == Decimal.to_Q a * inject_Z (10 ^ 18))%Q.
Proof.
  intros Hparse Hrep Hsd Hmax. unfold SwapPage.burnAmount. cbv zeta.
  rewrite Hparse. cbn [Decimal.times]. unfold SwapPage.ten_pow_18.
  rewrite clamp_mul_power; [ | exact Hrep | exact Hsd | lia | exact Hmax].
  eexists. split; [reflexivity | ].
  rewrite to_Q_mul_exact by (rewrite sd_times_power; exact Hsd).
  reflexivity.
Qed.

(** The witness: 1.5 wNCG is 1500000000000000000 units. *)
Lemma burn_amount_is_scaled_exactly_witness :
  exists wei,
    SwapPage.burnAmount Decimal.of_literal "1.5" = Some (Decimal.Fin wei)
    /\ (Decimal.to_Q wei == Decimal.to_Q (Decimal.mk 15 (-1)) * inject_Z (10 ^ 18))%Q.
Proof.
  apply (burn_amount_is_scaled_exactly Decimal.of_literal "1.5" (Decimal.mk 15 (-1))).
  - reflexivity.
  - right. vm_compute. split; discriminate.
  - vm_compute. discriminate.
  - intros _. vm_compute. discriminate.
Defined.

(** Amounts in exponent notation are read like the others: 1e-18 is one
    unit. Past 20 significant digits the product is rounded, possibly
    upwards: more is burnt than was entered. *)
Example burn_amount_spellings :
  SwapPage.burnAmount Decimal.of_literal "1e-18" = Some (Decimal.Fin (Decimal.mk 1 0))
  /\ SwapPage.burnAmount Decimal.of_literal "" = Some (Decimal.Fin (Decimal.mk 0 0))
  /\ SwapPage.burnAmount Decimal.of_literal "123456.1234567890123456"
     = Some (Decimal.Fin (Decimal.mk 12345612345678901235 4))
  /\ SwapPage.burnAmount Decimal.of_literal "Infinity" = Some (Decimal.Inf false)
  /\ SwapPage.burnAmount Decimal.of_literal "ten" = None.
Proof. repeat split; vm_compute; reflexivity. Qed.

(** ** [NCGKMSTransfer.transfer]: what is not checked *)

(** X19. [transfer] does not validate the amount: whatever value the
    constructor of decimal.js reads, also an infinity or [NaN], the method
    goes on with the number that value gives, and the plain value it builds
    for the request holds that number. Only a string on which the
    constructor throws makes the method refuse an amount: the call rejects
    with the constructor's error before anything is sent. *)
Theorem transfer_amount_is_not_validated
    (lib : Transfer.library) (self : Transfer.ncg_kms_transfer)
    (address amount : string) (memo : option string) :
  match Transfer.new_Decimal lib amount with
  | Rejected e => Transfer.transfer lib self address amount memo = (Rejected e, [])
  | Resolved v =>
      exists n,
        Transfer.ncgAmount lib amount = Resolved n
        /\ (forall negative, v = Decimal.Inf negative -> n = Decimal.Infinity negative)
        /\ (v = Decimal.NaN -> n = Decimal.NotANumber)
        /\ (forall pv,
              Transfer.plainValue lib self address n memo = Resolved pv ->
              Transfer.embedded_amount pv = Some n)
  end.
Proof.
  destruct (Transfer.new_Decimal lib amount) as [v | e] eqn:Hv.
  - eexists. split; [unfold Transfer.ncgAmount; rewrite Hv; reflexivity | ].
    split; [ | split].
    + intros negative ->. destruct negative; reflexivity.
    + intros ->. reflexivity.
    + intros pv Hpv. eapply embedded_in_plainValue; exact Hpv.
  - unfold Transfer.transfer, Transfer.ncgAmount. rewrite Hv. reflexivity.
Qed.
